(* ===== verification/_CoqProject ===== *)
-Q . S2P
Prelude.v
JsValue.v
Effects.v
ObjectId.v
Store.v
Http.v
Controller.v
Service.v
Router.v
Invariants.v
Catalog.v
Concurrent.v
Config.v
Client.v
Pending.v
AdminLogin.v
AdminCategories.v
System.v
Forms.v
Clicks.v
