(* ===== verification/Prelude.v ===== *)
(** * DigiSoch blog: a verification library for the category subsystem

    The repository is a blog platform.  Its sources under [src/] are the
    category REST controller of the API server, the route table that
    exposes it, the configuration glue of two external services
    (Cloudinary, Firebase) and two admin pages of the React client (login
    and category management).  This library models these files as Rocq
    definitions and proves what makes them correct; where the code does
    something else than its specification says, the difference is stated
    as a theorem as well.

    ** The program and its parts

    - [src/api/controllers/Category.controller.js]: five asynchronous
      Express handlers ([addCategory], [showCategory], [updateCategory],
      [deleteCategory], [getAllCategory]).  Each reads the request, calls
      the Mongoose model [Category], and answers through [res] or hands an
      error to [next].
    - [src/api/routes/Category.route.js]: the router that binds five
      method/path pairs to the handlers, without any middleware.
    - [src/api/config/cloudinary.js], [src/client/src/helpers/firebase.js]:
      environment checks and configuration records of external services.
    - [src/client/src/pages/AdminLogin.jsx]: the login form; its callback
      posts the credentials and stores the session of an admin.
    - [src/client/src/pages/AdminCategories.jsx]: the category page; a
      guard on the session, a form whose slug follows the name, and two
      callbacks that call the category API ([GET /category/all-category],
      [POST /category/add]).

    The client reaches the controller through the router; the controller
    reaches the database through the model.  Code the sources call but
    that is not under [src/] (the Mongoose model [category.model.js],
    [handleError.js], the error middleware, Express itself, the toast
    helper, the session slice, the form library) is modelled from the
    specification and from the documented behaviour of those libraries;
    the manifest marks these definitions.

    ** Files, in dependency order

    - [Prelude] (this file): the notation scope, the hint databases, the
      tactics and the lemmas on lists and strings the components share.
    - [JsValue]: JavaScript values ([JsValue]), truthiness ([truthy]),
      property access ([js_get], [js_destructure]), errors ([JsError])
      and completions ([Completion]: a value or a thrown error).
    - [Effects]: callbacks as programs.  An [async] function is a term
      of [Prog E A], the free monad over a signature [E] of calls;
      [try_catch] is [try { } catch (e) { }]; [run] executes a program in
      a world, given an interpretation ([Interp]) of the calls; [step]
      performs one call, [steps] several, [calls] counts the calls of a
      program and [result] reads the completion off a finished one.
      [sync] runs a program to its next awaited call and [resume] lets
      that call settle, for the loops of [Concurrent] and [Pending];
      [only] says that a program makes no call outside a given set.
      [prog_equiv] relates programs that run alike
      under every interpretation, with [Proper] instances for rewriting.
    - [ObjectId]: 96-bit document identifiers, the printer [hex24], the
      parser [parse_oid], the cast [castObjectId] and their round trip.
    - [Store]: the document [Category], the calls of the controller on
      the model as events ([DbOp]), and the reference collection
      ([Collection], [coll_exec]): a list of documents in insertion
      order, a counter that issues identifiers, and the schema option
      [unique_slug].  Its invariants ([ids_ok], [slugs_unique],
      [fields_present], [coll_wf]) are decidable.
    - [Http]: the request, the response object ([res_exec]),
      [handleError], the error middleware, and [handle], which
      interprets the events of a handler ([HandlerE]) in a [World]: the
      store, the response, the errors given to [next], the console.
      [serve] runs a handler on a fresh response.
    - [Controller]: the five handlers, line by line.  Its theorems hold
      for every interpretation of the store: they take what each awaited
      call resolves to as hypotheses and give the response and the store
      the handler leaves.
    - [Service]: the handlers on the reference collection: add then
      show, add then list, delete twice, the listing sorted by name, the
      example of the specification, and what [updateCategory] does to
      the invariant of the data model.
    - [Router]: the route table [CategoryRoute] of the source and the
      matching of Express ([matches], [dispatch], [route_request]).
    - [Invariants]: what the handlers keep true of the collection, one
      request at a time and for every collection [reachable] from the
      empty one.
    - [Catalog]: the category service as section 4.1 of the
      specification states it, a relation [spec_step] on finite maps
      ([gmap]) from identifiers to name and slug, and the refinement:
      the handlers on the reference collection implement it.
    - [Concurrent]: requests in flight together.  [Server] holds the
      collection and the connections; [server_step] accepts a request
      or lets the awaited call of a connection settle, so that handlers
      interleave at their [await]s ([awaited]) and only there.
    - [Config]: the Cloudinary module ([dotenv_config], the guard and
      the configuration) and the Firebase configuration, over an
      environment [Env].
    - [Client]: the runtime of the pages: the events of a callback
      ([ClientE]: [fetch], [showToast], [dispatch(setUser)], [navigate],
      the calls on the form), the [Browser] they act on, a [Network] as
      a parameter, the validation of a form against its schema
      ([handleSubmit]), the form state of [useForm], and what a field of
      a form shows ([render_field]: label, input type, placeholder, the
      watched value and the message of the field).
    - [Pending]: callbacks of a page in flight together.  [Tab] holds
      the browser and the callbacks that were started; [page_step]
      starts a callback or lets the response to a request arrive, so
      that callbacks interleave at their [await fetch(...)] ([fetched]);
      [in_flight] counts the callbacks that wait for a response.
    - [AdminLogin], [AdminCategories]: one [Module] per page, with the
      schema, the default values, the callbacks of the source and what
      the component returns ([render], [component]: the redirection of
      the guard, or the heading, the fields, the button and the list);
      for the category page also the hooks one render calls ([hooks]).
    - [System]: the class [CategoryApi], which states what the category
      page relies on of the API; the page's theorems are proved against
      the class, and the instance [server_api] shows that router,
      controller and reference collection satisfy it.  [item_of] is the
      list item the page shows for a category.
    - [Forms]: the state machine the specification (section 4.4) gives
      both forms ([form_step], [form_trace]: idle, submitting, idle
      again with or without an error), the class [SubmitForm] of what
      the two forms have in common (a schema, a callback that begins
      with its request, a bound on the requests it awaits) with the
      instances [login_form] and [category_form], and the forms on the
      loop of [Pending] ([form_task], [form_run], [phase_of],
      [label_of]).  [login_event] lists what can happen on the login
      page and [admits] the calls that store nobody but an admin.
    - [Clicks]: the category form submitted once and twice on the loop
      of [Pending].

    ** How state and operations correspond to the code

    A handler [async (req, res, next) => { ... }] is a function from
    [Request] to [Handler unit], where [Handler := Prog HandlerE].  Every
    call with an effect is an event: [await Category.findOne({ slug })]
    is [db (FindOne slug)], [res.status(c)] is [res_status c],
    [res.json(b)] is [res_json b], [next(e)] is [next e], [console.error]
    is [console_error].  A [return] inside a branch ends that branch of
    an [if]; where the source has no [return] (after [next] in
    [showCategory]) the program goes on, as the code does.  [const { name,
    slug } = req.body] is [body_field], which throws on a missing body.
    A callback of a page is a function to [Client unit], where [Client :=
    Prog ClientE], in the same way; [fetchCategories()], which the
    source starts without [await] as the last statement of [onSubmit],
    runs to its end there, which is sound because it never rejects
    ([fetchCategories_completes]).  Status codes are [nat]; strings are
    Rocq strings, whose length counts bytes, as [String.length] of
    JavaScript does on ASCII text.  What a component returns is a record
    of what the page shows ([FormView], [FieldView], [Item]); class
    names and layout elements are not part of it.

    ** What the theorems show

    - Functional behaviour of the controller ([Controller]): for every
      branch of every handler the status code and the body on the wire
      and the store it leaves, errors included (400, 404, 409, 500), for
      every store.  [handler_completes] and [handler_responds]: no
      handler rejects, and each leaves one response on the wire.
      [handler_terminates]: each makes at most six calls, and six steps
      reach the end that [run] gives.
    - The service ([Service]): the round trips add/show and add/list,
      idempotence of delete, the sorted listing as a permutation of the
      collection, the trace of the specification's example.
    - Routing ([Router]): no request matches two routes; a dispatched
      request carries exactly the parameters of its route; every request
      that matches is answered.
    - Invariants ([Invariants]): identifiers stay distinct; slugs stay
      distinct under every handler but [updateCategory], and under all
      of them when the store has the unique index; both by rule
      induction on [reachable].
    - Refinement ([Catalog]): for every sequence of calls the
      specification covers, the responses encode replies the abstract
      service allows and the collection represents its catalog
      ([service_refines_trace]).
    - Interleaving ([Concurrent]): every request is answered after at
      most two awaited calls, whatever else the server does; a request
      handled alone is served as the sequential semantics says;
      identifiers stay distinct, and slugs too when the store has the
      unique index, under every interleaving; without the index two
      requests for one free slug are both stored ([add_race_duplicates]),
      and with it the loser is answered 500, not 409.
    - Configuration ([Config]): the Cloudinary module loads exactly when
      its three variables are set, in the process or else in the file
      [.env]; an empty variable of the process hides the file's.
    - The pages ([AdminLogin], [AdminCategories]): the session is stored
      only for an admin; every other outcome shows one error and changes
      nothing else; the guard; the slug effect; validation before any
      request, with the bound of three characters and the message shown
      under the field that breaks it; what the components show.
    - The system ([System]): against every API that satisfies
      [CategoryApi], a submitted category is stored and listed, a
      duplicate slug changes nothing, and the page shows one item per
      category behind the API, sorted by name; the server is such an
      API.  [admin_sees_categories] follows an admin from the login to
      the list.
    - The forms ([Forms]): every schedule in which a form is submitted
      only while it is idle is a trace of the machine of the
      specification, for both forms and every network ([form_refines],
      from [form_step_refines]); a submission is idle again once as
      many responses have arrived as the form awaits ([form_settles]);
      a category the API accepted can still end with an error, when the
      request for the list fails ([refresh_failure_persists]); a form
      submitted while it is submitting leaves the machine
      ([second_submit_leaves_machine]).  On the login page the session
      stays logged out or that of an admin under every interleaving of
      submissions and responses ([login_page_admits_admins], from
      [page_run_invariant]).
    - Submissions in flight ([Pending], [Clicks]): a callback that runs
      alone does what the sequential semantics says
      ([callback_alone], [submit_alone]); the form submitted twice
      before the first response sends two requests for one category
      ([double_submit]); under every interleaving of the callbacks of
      the category page the session and the location stay as they were
      ([category_page_keeps_session], from [page_run_invariant]).
    - Where the code departs from the specification: [showCategory]
      calls [next] twice for a missing category; [updateCategory] checks
      nothing, so it duplicates a slug on a store without the index,
      blanks a name, and answers 200 with [null] for an unknown
      identifier; a malformed identifier is answered with 500; the
      lookup and the save of [addCategory] are two calls, so two
      requests can both find a slug free; clearing the name leaves the
      slug; the category page calls three of its five hooks after the
      early return of the guard ([hooks_after_guard]); nothing holds a
      second submission back while the first is in flight; a
      submission whose category was stored shows the success, resets
      the form and then shows an error when the list cannot be fetched,
      where the specification knows success or failure.

    ** Bounds and fuel

    No definition uses fuel: programs are finite terms, [run] is
    structurally recursive, and the recursion of route matching is on
    the path.  [steps] takes the number of calls to perform;
    [handler_calls] bounds the calls of every handler by six, a bound
    that is reached ([handler_calls_reached]), and [steps_enough] shows
    that fuel beyond the calls of a program changes nothing.  In the
    same way [resumes] takes the number of awaited calls to settle, and
    [resumes_enough] shows that as many as the program awaits ([waits])
    are enough; a submission of the category form awaits two requests
    at most ([submit_waits], [category_waits]) and one of the login
    form one ([login_waits]): these are the [form_requests] of the two
    instances of [SubmitForm], and [form_settles] lets that many
    responses arrive.  [form_refines] starts from a page with at most
    one request in flight and keeps that bound along the schedule.
    The loop of [Concurrent] takes its schedule as a list of events; [handler_answers_within] bounds the awaited calls of every
    handler by two, so two turns of a connection are enough fuel for
    any request.  Identifiers are 96 bits wide: the counter of the
    reference collection issues [next_id mod 2^96], and the theorems
    that need a fresh identifier assume [coll_wf], which says the
    counter has not wrapped; [reachable_coll_wf] shows the assumption
    holds of every reachable collection below the bound.

    ** Not modelled

    Of the JSX of the two pages, the class names and the layout
    elements ([div], [Card], [CardContent]): they carry no state and no
    behaviour.  The scheduling of React (when a component renders again,
    batching of state updates): a render is a function of the state of
    the page.  In the loops, a call takes effect at the moment it
    settles, and the body of a response arrives with the response;
    timers and aborted requests are outside the model.  The
    [isSubmitting] flag of the form library is not modelled either: no
    line of the sources reads it, and [phase_of] takes a form to be
    submitting while a request of its callback is in flight, the
    request for the list included, as the machine of the specification
    does.  The network transport, the MongoDB driver, the
    authentication endpoint, and the Firebase and Cloudinary SDKs
    themselves.  The [import] and [export] lines of the sources bind
    names and have no definition of their own.  Handlers interleave
    within one server process; several processes on one database,
    timers and the transport are outside the model, and an awaited call
    takes effect at the moment it settles.
    In the store, the casts Mongoose applies to numbers, booleans and
    query operators are outside the model: a field that is not a string
    is rejected with a cast error.  [slugify] and the e-mail test of the
    schema library are parameters of the pages: both are third-party
    code with tables of their own (transliteration, the grammar of
    addresses) that the sources only call, and the theorems hold for
    every function in their place. *)

From stdpp Require Export prelude strings sorting.

(** Notation of the development lives in a scope of its own. *)
Declare Scope js_scope.
Delimit Scope js_scope with js.
#[global] Open Scope js_scope.

(** The hint databases of the development: [blog] holds the lemmas that
    close the routine side conditions of the component files, [prog_rw]
    the equations of [run] and of the generic list updates, [blog_rw]
    the equations that evaluate programs and list updates. *)
Create HintDb blog discriminated.
Create Rewrite HintDb blog_rw.
Create Rewrite HintDb prog_rw.

(** ** Generic facts on lists *)

Lemma Forall_sublist_of {A} (P : A → Prop) (l k : list A) :
  l `sublist_of` k → Forall P k → Forall P l.
Proof.
  rewrite !Forall_forall. intros Hl Hk x Hx. apply Hk. by eapply elem_of_sublist.
Qed.

(** ** Generic facts on strings *)

Lemma string_app_nil_l s : EmptyString +:+ s = s.
Proof. done. Qed.

Lemma string_app_cons a p s : String a p +:+ s = String a (p +:+ s).
Proof. done. Qed.

Lemma string_app_nil_r s : s +:+ EmptyString = s.
Proof. induction s as [|a s IH]; [done|]. by rewrite string_app_cons, IH. Qed.

Lemma string_app_assoc (a b c : string) : a +:+ (b +:+ c) = (a +:+ b) +:+ c.
Proof. induction a as [|x a IH]; [done|]. by rewrite !string_app_cons, IH. Qed.

(** ** Lists updated in place

    A collection is a list of documents in insertion order.  The store
    updates or removes the first document that satisfies a predicate. *)
Section first_match.
Context {A : Type} (p : A → bool).

Fixpoint update_first (f : A → A) (l : list A) : list A :=
  match l with
  | [] => []
  | x :: l' => if p x then f x :: l' else x :: update_first f l'
  end.

Fixpoint remove_first (l : list A) : list A :=
  match l with
  | [] => []
  | x :: l' => if p x then l' else x :: remove_first l'
  end.

Lemma find_Some_elem_of l x : find p l = Some x → x ∈ l ∧ p x = true.
Proof.
  intros H. apply find_some in H as [H1 H2]. by rewrite list_elem_of_In.
Qed.

Lemma find_None_iff l : find p l = None ↔ ∀ x, x ∈ l → p x = false.
Proof.
  split.
  - intros H x Hx. apply (find_none _ _ H). by apply list_elem_of_In.
  - induction l as [|y l IH]; [done|]. intros H. simpl.
    rewrite (H y) by left. apply IH. intros x Hx. apply H. by right.
Qed.

Lemma find_is_Some l x : x ∈ l → p x = true → is_Some (find p l).
Proof.
  intros Hx Hp. destruct (find p l) eqn:E; [eauto|].
  rewrite find_None_iff in E. specialize (E x Hx). congruence.
Qed.

Lemma find_app l l' :
  find p (l ++ l') = match find p l with Some x => Some x | None => find p l' end.
Proof. induction l as [|x l IH]; simpl; [done|]. by destruct (p x). Qed.

Lemma update_first_length f l : length (update_first f l) = length l.
Proof. induction l as [|x l IH]; simpl; [done|]. case_match; simpl; auto. Qed.

Lemma update_first_none f l : find p l = None → update_first f l = l.
Proof.
  induction l as [|x l IH]; simpl; [done|].
  destruct (p x); [done|]. intros H. by rewrite IH.
Qed.

Lemma remove_first_none l : find p l = None → remove_first l = l.
Proof.
  induction l as [|x l IH]; simpl; [done|].
  destruct (p x); [done|]. intros H. by rewrite IH.
Qed.

Lemma remove_first_sublist l : remove_first l `sublist_of` l.
Proof.
  induction l as [|x l IH]; simpl; [done|].
  destruct (p x); [by apply sublist_cons | by apply sublist_skip].
Qed.

Lemma remove_first_elem_of l x : x ∈ remove_first l → x ∈ l.
Proof. intros H. eapply elem_of_sublist; [done|apply remove_first_sublist]. Qed.

Lemma remove_first_elem_of_other l x : x ∈ l → p x = false → x ∈ remove_first l.
Proof.
  induction l as [|y l IH]; simpl; [done|]. rewrite elem_of_cons.
  intros [->|Hx] Hp; [by rewrite Hp; left|].
  destruct (p y); [done|]. right. auto.
Qed.

Lemma update_first_elem_of f l y :
  y ∈ update_first f l → y ∈ l ∨ ∃ x, x ∈ l ∧ p x = true ∧ y = f x.
Proof.
  induction l as [|x l IH]; simpl; [by left|].
  destruct (p x) eqn:E; rewrite !elem_of_cons.
  - intros [->|?]; [right; exists x|left]; rewrite ?elem_of_cons; auto.
  - intros [->|H]; [by left; left|].
    destruct (IH H) as [?|(z & ? & ? & ?)]; [by left; right|].
    right. exists z. rewrite elem_of_cons. auto.
Qed.

Lemma update_first_found f l x :
  find p l = Some x → f x ∈ update_first f l.
Proof.
  induction l as [|y l IH]; simpl; [done|].
  destruct (p y); [intros [= ->]; by left|]. intros H. right. auto.
Qed.

Lemma remove_first_Permutation l x :
  find p l = Some x → l ≡ₚ x :: remove_first l.
Proof.
  induction l as [|y l IH]; simpl; [done|].
  destruct (p y); [by intros [= ->]|].
  intros H. rewrite (IH H) at 1. apply Permutation_swap.
Qed.

Lemma update_first_Permutation f l x :
  find p l = Some x → update_first f l ≡ₚ f x :: remove_first l.
Proof.
  induction l as [|y l IH]; simpl; [done|].
  destruct (p y); [by intros [= ->]|].
  intros H. rewrite (IH H). apply Permutation_swap.
Qed.

End first_match.

(** Keys (identifiers) of a list under [update_first] and [remove_first]. *)
Section keys.
Context {A K : Type} (key : A → K) (p : A → bool).

Lemma update_first_keys f l :
  (∀ x, key (f x) = key x) → key <$> update_first p f l = key <$> l.
Proof.
  intros Hf. induction l as [|x l IH]; csimpl; [done|].
  destruct (p x); csimpl; by rewrite ?Hf, ?IH.
Qed.

Lemma remove_first_keys_NoDup l :
  NoDup (key <$> l) → NoDup (key <$> remove_first p l).
Proof.
  intros H. eapply sublist_NoDup; [done|].
  apply fmap_sublist, remove_first_sublist.
Qed.

Lemma remove_first_key_gone l x :
  NoDup (key <$> l) → find p l = Some x →
  key x ∉ key <$> remove_first p l.
Proof.
  induction l as [|y l IH]; csimpl; [done|].
  rewrite NoDup_cons. intros [Hy Hl].
  destruct (p y); [by intros [= ->]|].
  intros Hx. rewrite fmap_cons, not_elem_of_cons. split; [|auto].
  intros Heq. apply Hy. rewrite <- Heq.
  apply find_Some_elem_of in Hx as [Hx _]. by apply list_elem_of_fmap_2.
Qed.

Lemma update_first_keys_NoDup f l x :
  NoDup (key <$> l) → find p l = Some x →
  key (f x) ∉ key <$> remove_first p l →
  NoDup (key <$> update_first p f l).
Proof.
  intros Hl Hx Hk. rewrite (update_first_Permutation p f l x Hx), fmap_cons.
  apply NoDup_cons. split; [done|]. by apply remove_first_keys_NoDup.
Qed.

(** An update that gives the first match a key another element holds
    leaves the key twice. *)
Lemma update_first_keys_dup f l x :
  find p l = Some x → key (f x) ∈ key <$> remove_first p l →
  ¬ NoDup (key <$> update_first p f l).
Proof.
  intros Hx Hk. rewrite (update_first_Permutation p f l x Hx), fmap_cons.
  rewrite NoDup_cons. by intros [? _].
Qed.

End keys.

#[export] Hint Resolve remove_first_elem_of update_first_found : blog.
#[export] Hint Rewrite @update_first_length : prog_rw.

(** ** Tactics shared by the component files *)

(** Case analysis on the boolean guard of the first [if] in the goal. *)
Ltac case_if :=
  match goal with
  | |- context [if ?b then _ else _] =>
      let E := fresh "Hguard" in destruct b eqn:E
  end.

(** Closes a closed goal by evaluation: an equation both sides of which
    compute, or a decidable proposition. *)
Ltac by_eval :=
  first [ by vm_compute | apply (bool_decide_unpack _); by vm_compute ].

(** Split every pair and conjunction in the context. *)
Ltac destruct_products :=
  repeat match goal with
  | H : _ ∧ _ |- _ => destruct H
  | H : ∃ _, _ |- _ => destruct H
  | p : _ * _ |- _ => destruct p
  end.
