(* ===== verification/JsValue.v ===== *)
(** * JavaScript values, errors and completions

    The values that flow through the handlers: request bodies parsed from
    JSON, response bodies handed to [res.json], the [Error] objects that
    are thrown and caught.  Numbers are integers ([Z]); floating point
    values and [NaN] do not occur in the modelled code.  Objects are
    lists of fields in the order they were written, the last binding of a
    key winning, as in an object literal or [JSON.parse]. *)

From S2P Require Import Prelude.

(** ** Values *)

#[local] Unset Elimination Schemes.
Inductive JsValue : Type :=
| JUndefined
| JNull
| JBool (b : bool)
| JNum (n : Z)
| JStr (s : string)
| JArr (items : list JsValue)
| JObj (fields : list (string * JsValue)).
#[local] Set Elimination Schemes.

(** [!v] is [negb (truthy v)]: the falsy values are [undefined], [null],
    [false], [0] and the empty string. *)
Definition truthy (v : JsValue) : bool :=
  match v with
  | JUndefined | JNull => false
  | JBool b => b
  | JNum n => negb (n =? 0)%Z
  | JStr s => negb (String.eqb s "")
  | JArr _ | JObj _ => true
  end.

Arguments truthy : simpl never.

(** The value bound to [k] in a field list; the last binding wins. *)
Fixpoint obj_lookup (k : string) (fs : list (string * JsValue)) : option JsValue :=
  match fs with
  | [] => None
  | (k', v) :: fs' =>
      match obj_lookup k fs' with
      | Some v' => Some v'
      | None => if String.eqb k k' then Some v else None
      end
  end.

(** ** Errors and completions *)

(** An [Error] object: its class name, its [message], and the
    [statusCode] that [handleError] attaches. *)
Record JsError : Type := mkError {
  err_name : string;
  message : string;
  statusCode : option nat;
}.

(** The result of evaluating a statement or a call: it completes
    normally with a value or abruptly with a thrown error. *)
Inductive Completion (A : Type) : Type :=
| Normal (a : A)
| Abrupt (e : JsError).
Arguments Normal {A} a.
Arguments Abrupt {A} e.

#[export] Instance completion_ret : MRet Completion := λ A a, Normal a.
#[export] Instance completion_bind : MBind Completion := λ A B f c,
  match c with Normal a => f a | Abrupt e => Abrupt e end.
#[export] Instance completion_fmap : FMap Completion := λ A B f c,
  match c with Normal a => Normal (f a) | Abrupt e => Abrupt e end.

Definition is_normal {A} (c : Completion A) : bool :=
  match c with Normal _ => true | Abrupt _ => false end.

Definition TypeError (msg : string) : JsError :=
  {| err_name := "TypeError"; message := msg; statusCode := None |}.

(** Property access [v.k] and the destructuring [const { k } = v].
    Reading a property of [undefined] or [null] throws; a primitive or
    an array has no own property of the names read by the modelled code
    except [length]. *)
Definition js_get (k : string) (v : JsValue) : Completion JsValue :=
  match v with
  | JUndefined =>
      Abrupt (TypeError ("Cannot read properties of undefined (reading '" +:+ k +:+ "')"))
  | JNull =>
      Abrupt (TypeError ("Cannot read properties of null (reading '" +:+ k +:+ "')"))
  | JObj fs => Normal (default JUndefined (obj_lookup k fs))
  | JStr s =>
      Normal (if String.eqb k "length" then JNum (Z.of_nat (String.length s)) else JUndefined)
  | JArr l =>
      Normal (if String.eqb k "length" then JNum (Z.of_nat (length l)) else JUndefined)
  | JBool _ | JNum _ => Normal JUndefined
  end.

(** The destructuring [const { k } = src] of the value [v] of the
    expression written [src]. *)
Definition js_destructure (k src : string) (v : JsValue) : Completion JsValue :=
  match v with
  | JUndefined =>
      Abrupt (TypeError ("Cannot destructure property '" +:+ k +:+ "' of '" +:+ src
                         +:+ "' as it is undefined."))
  | JNull =>
      Abrupt (TypeError ("Cannot destructure property '" +:+ k +:+ "' of '" +:+ src
                         +:+ "' as it is null."))
  | _ => js_get k v
  end.

Arguments js_destructure : simpl never.

(** [a || b] on values. *)
Definition js_or (a b : JsValue) : JsValue := if truthy a then a else b.

(** [v === 's'], for a string literal. *)
Definition js_is_str (v : JsValue) (s : string) : bool :=
  match v with JStr t => bool_decide (t = s) | _ => false end.

(** ** Decidable equality of values *)

Fixpoint js_eqb (v w : JsValue) : bool :=
  match v, w with
  | JUndefined, JUndefined | JNull, JNull => true
  | JBool a, JBool b => bool_decide (a = b)
  | JNum a, JNum b => bool_decide (a = b)
  | JStr a, JStr b => bool_decide (a = b)
  | JArr l, JArr m =>
      (fix go (l m : list JsValue) : bool :=
         match l, m with
         | [], [] => true
         | x :: l', y :: m' => js_eqb x y && go l' m'
         | _, _ => false
         end) l m
  | JObj l, JObj m =>
      (fix go (l m : list (string * JsValue)) : bool :=
         match l, m with
         | [], [] => true
         | (k, x) :: l', (k', y) :: m' =>
             bool_decide (k = k') && js_eqb x y && go l' m'
         | _, _ => false
         end) l m
  | _, _ => false
  end.

(** ** Lemmas *)

(** The induction principle that reaches below arrays and objects. *)
Lemma JsValue_nested_ind (P : JsValue → Prop) :
  P JUndefined → P JNull → (∀ b, P (JBool b)) → (∀ n, P (JNum n)) →
  (∀ s, P (JStr s)) →
  (∀ l, Forall P l → P (JArr l)) →
  (∀ fs, Forall (λ kv, P kv.2) fs → P (JObj fs)) →
  ∀ v, P v.
Proof.
  intros Hu Hn Hb Hz Hs Ha Ho.
  fix IH 1. intros [| |b|n|s|l|fs];
    [exact Hu|exact Hn|apply Hb|apply Hz|apply Hs|apply Ha|apply Ho].
  - induction l as [|x l IHl]; constructor; [apply IH|exact IHl].
  - induction fs as [|[k x] fs IHfs]; constructor; [apply IH|exact IHfs].
Qed.

Lemma js_eqb_eq v w : js_eqb v w = true ↔ v = w.
Proof.
  revert w. induction v as [| |b|n|s|l IHl|fs IHfs] using JsValue_nested_ind;
    intros [| |b'|n'|s'|l'|fs']; simpl;
    rewrite ?bool_decide_eq_true; try (split; congruence).
  - revert l'. induction IHl as [|x l Hx _ IH]; intros [|y l']; try (split; congruence).
    rewrite andb_true_iff, Hx. specialize (IH l'). split.
    + intros [-> H]. apply IH in H. congruence.
    + intros [= -> ->]. split; [done|]. by apply IH.
  - revert fs'. induction IHfs as [|[k x] fs Hx _ IH]; intros [|[k' y] fs'];
      try (split; congruence).
    rewrite !andb_true_iff, bool_decide_eq_true. simpl in Hx. rewrite Hx.
    specialize (IH fs'). split.
    + intros [[-> ->] H]. apply IH in H. congruence.
    + intros [= -> -> ->]. split; [done|]. by apply IH.
Qed.

#[export] Instance JsValue_eq_dec : EqDecision JsValue.
Proof.
  intros v w. destruct (js_eqb v w) eqn:E.
  - left. by apply js_eqb_eq.
  - right. intros H. apply js_eqb_eq in H. congruence.
Defined.

#[export] Instance JsError_eq_dec : EqDecision JsError.
Proof. solve_decision. Defined.

#[export] Instance Completion_eq_dec `{EqDecision A} : EqDecision (Completion A).
Proof. solve_decision. Defined.

Lemma truthy_JStr s : truthy (JStr s) = true ↔ s ≠ "".
Proof.
  unfold truthy. rewrite negb_true_iff. split.
  - intros H ->. by rewrite String.eqb_refl in H.
  - intros H. destruct (String.eqb_spec s ""); congruence.
Qed.

Lemma truthy_JStr_false s : truthy (JStr s) = false ↔ s = "".
Proof.
  unfold truthy. rewrite negb_false_iff. apply String.eqb_eq.
Qed.

Lemma truthy_JStr_true s : s ≠ "" → truthy (JStr s) = true.
Proof. apply truthy_JStr. Qed.

Lemma truthy_JObj fs : truthy (JObj fs) = true.
Proof. done. Qed.

Lemma truthy_JArr l : truthy (JArr l) = true.
Proof. done. Qed.

Lemma truthy_JBool b : truthy (JBool b) = b.
Proof. done. Qed.

Lemma truthy_JNull : truthy JNull = false.
Proof. done. Qed.

Lemma truthy_JUndefined : truthy JUndefined = false.
Proof. done. Qed.

Lemma js_get_obj k fs : js_get k (JObj fs) = Normal (default JUndefined (obj_lookup k fs)).
Proof. done. Qed.

Lemma js_destructure_obj k src fs :
  js_destructure k src (JObj fs) = Normal (default JUndefined (obj_lookup k fs)).
Proof. done. Qed.

Lemma js_get_normal_iff k v :
  is_normal (js_get k v) = true ↔ v ≠ JUndefined ∧ v ≠ JNull.
Proof. destruct v; simpl; split; try done; intros [??]; congruence. Qed.

Lemma obj_lookup_app k fs gs :
  obj_lookup k (fs ++ gs) =
  match obj_lookup k gs with Some v => Some v | None => obj_lookup k fs end.
Proof.
  induction fs as [|[k' v] fs IH]; simpl; [by destruct (obj_lookup k gs)|].
  rewrite IH. by destruct (obj_lookup k gs), (obj_lookup k fs).
Qed.

Lemma js_or_truthy a b : truthy a = true → js_or a b = a.
Proof. unfold js_or. by intros ->. Qed.

Lemma js_or_falsy a b : truthy a = false → js_or a b = b.
Proof. unfold js_or. by intros ->. Qed.

#[export] Hint Rewrite js_get_obj js_destructure_obj truthy_JObj truthy_JArr truthy_JBool
  truthy_JNull truthy_JUndefined : blog_rw.
#[export] Hint Rewrite truthy_JStr_true using done : blog_rw.
#[export] Hint Resolve js_or_truthy js_or_falsy : blog.
