(* ===== verification/Effects.v ===== *)
(** * Handlers as programs

    An asynchronous handler is a finite sequence of effectful calls, each
    of which may throw, wrapped in [try]/[catch].  It is modelled as a
    term of the free monad over a signature of events: [Vis ev k]
    performs the call [ev] and continues with [k] applied to the
    completion of the call.  [run] executes a program against a world,
    given the interpretation of the events; [step] performs one call, so
    that the same handler can be interleaved with others.  Every program
    terminates: [calls] counts its calls, and [steps] with that much
    fuel or more reaches the completion of [run] ([steps_enough]).

    Programs are compared up to [prog_equiv]: two programs are equivalent
    when they run alike under every interpretation of their events. *)

From S2P Require Import Prelude JsValue.

(** ** Programs *)

Section prog.
Context {E : Type → Type}.

Inductive Prog (A : Type) : Type :=
| Ret (a : A)
| Throw (e : JsError)
| Vis {R : Type} (ev : E R) (k : Completion R → Prog A).

End prog.
Arguments Prog : clear implicits.
Arguments Ret {E A} a.
Arguments Throw {E A} e.
Arguments Vis {E A R} ev k.

(** The interpretation of the events of [E] in worlds of type [W]. *)
Definition Interp (E : Type → Type) (W : Type) : Type :=
  ∀ R, E R → W → Completion R * W.

Section ops.
Context {E : Type → Type}.

(** Sequencing: [const x = await m; f x]. *)
Fixpoint prog_bind {A B} (m : Prog E A) (f : A → Prog E B) : Prog E B :=
  match m with
  | Ret a => f a
  | Throw e => Throw e
  | Vis ev k => Vis ev (λ r, prog_bind (k r) f)
  end.

(** [try { m } catch (e) { h e }]. *)
Fixpoint try_catch {A} (m : Prog E A) (h : JsError → Prog E A) : Prog E A :=
  match m with
  | Ret a => Ret a
  | Throw e => h e
  | Vis ev k => Vis ev (λ r, try_catch (k r) h)
  end.

(** One call: an abrupt completion of the call is rethrown. *)
Definition trigger {R} (ev : E R) : Prog E R :=
  Vis ev (λ r, match r with Normal v => Ret v | Abrupt e => Throw e end).

(** Lifting of a pure computation that may throw, such as a property
    access. *)
Definition lift {A} (c : Completion A) : Prog E A :=
  match c with Normal a => Ret a | Abrupt e => Throw e end.

Context {W : Type} (h : Interp E W).

(** Execution to completion. *)
Fixpoint run {A} (m : Prog E A) (w : W) : Completion A * W :=
  match m with
  | Ret a => (Normal a, w)
  | Throw e => (Abrupt e, w)
  | Vis ev k => let '(r, w') := h _ ev w in run (k r) w'
  end.

(** One call of the program, if it has one left. *)
Definition step {A} (m : Prog E A) (w : W) : Prog E A * W :=
  match m with
  | Vis ev k => let '(r, w') := h _ ev w in (k r, w')
  | _ => (m, w)
  end.

(** The number of calls the program performs from [w]. *)
Fixpoint calls {A} (m : Prog E A) (w : W) : nat :=
  match m with
  | Vis ev k => let '(r, w') := h _ ev w in S (calls (k r) w')
  | _ => 0
  end.

Definition finished {A} (m : Prog E A) : bool :=
  match m with Vis _ _ => false | _ => true end.

(** What a finished program completed with. *)
Definition result {A} (m : Prog E A) : option (Completion A) :=
  match m with
  | Ret a => Some (Normal a)
  | Throw e => Some (Abrupt e)
  | Vis _ _ => None
  end.

(** [n] calls in a row. *)
Fixpoint steps {A} (n : nat) (m : Prog E A) (w : W) : Prog E A * W :=
  match n with
  | 0 => (m, w)
  | S n' => let '(m', w') := step m w in steps n' m' w'
  end.

End ops.

(** An [async] function runs until it awaits a call, and goes on when
    the call has settled; other functions run in between. *)
Section await.
Context {E : Type → Type} {W : Type} (h : Interp E W) (awaits : ∀ R, E R → bool).

(** The synchronous part of a program: up to its next awaited call, or
    to its end. *)
Fixpoint sync {A} (m : Prog E A) (w : W) : Prog E A * W :=
  match m with
  | Vis ev k =>
      if awaits _ ev then (m, w)
      else let '(r, w') := h _ ev w in sync (k r) w'
  | _ => (m, w)
  end.

(** The awaited call takes effect and the program goes on to its next
    await. *)
Definition resume {A} (m : Prog E A) (w : W) : Prog E A * W :=
  let '(m', w') := step h m w in sync m' w'.

(** A program that is not running waits for an awaited call, or is at
    its end. *)
Definition parked {A} (m : Prog E A) : Prop :=
  match m with Vis ev _ => awaits _ ev = true | _ => True end.

(** The number of calls the program awaits from [w]. *)
Fixpoint waits {A} (m : Prog E A) (w : W) : nat :=
  match m with
  | Vis ev k =>
      let '(r, w') := h _ ev w in
      (if awaits _ ev then 1 else 0) + waits (k r) w'
  | _ => 0
  end.

(** [n] awaited calls settle, nothing else running in between. *)
Fixpoint resumes {A} (n : nat) (m : Prog E A) (w : W) : Prog E A * W :=
  match n with
  | 0 => (m, w)
  | S n' => let '(m', w') := resume m w in resumes n' m' w'
  end.

End await.

Arguments parked {E} awaits {A} m.

(** Every call of the program is one that [ok] admits, whatever the
    calls answer. *)
Fixpoint only {E : Type → Type} {A} (ok : ∀ R, E R → bool) (m : Prog E A) : Prop :=
  match m with
  | Vis ev k => ok _ ev = true ∧ ∀ r, only ok (k r)
  | _ => True
  end.

#[export] Instance prog_ret {E} : MRet (Prog E) := λ A a, Ret a.
#[export] Instance prog_mbind {E} : MBind (Prog E) := λ A B f m, prog_bind m f.

Notation "'try' m 'catch' e '=>' h" := (try_catch m (λ e, h))
  (at level 10, m at level 200, e name, h at level 200,
   format "'[v' 'try'  '[' m ']' '/' 'catch'  e  '=>'  '[' h ']' ']'") : js_scope.

(** Two programs are equivalent when they run alike under every
    interpretation of their events. *)
Definition prog_equiv {E A} (m n : Prog E A) : Prop :=
  ∀ W (h : Interp E W) (w : W), run h m w = run h n w.

Infix "≈" := prog_equiv (at level 70) : js_scope.

(** ** Lemmas *)

Section equiv.
Context {E : Type → Type} {A : Type}.

#[export] Instance prog_equiv_equivalence : Equivalence (@prog_equiv E A).
Proof.
  split.
  - by intros m W h w.
  - intros m n H W h w. by rewrite H.
  - intros m n o H1 H2 W h w. by rewrite H1, H2.
Qed.

#[export] Instance run_proper {W} (h : Interp E W) :
  Proper (prog_equiv ==> eq ==> eq) (run (A:=A) h).
Proof. intros m n H w ? <-. apply H. Qed.

End equiv.

Section run.
Context {E : Type → Type} {W : Type} (h : Interp E W).

Lemma run_bind {A B} (m : Prog E A) (f : A → Prog E B) w :
  run h (m ≫= f) w =
  match run h m w with
  | (Normal a, w') => run h (f a) w'
  | (Abrupt e, w') => (Abrupt e, w')
  end.
Proof.
  revert w. induction m as [a|e|R ev k IH]; intros w; simpl; [done..|].
  destruct (h R ev w) as [r w']. apply IH.
Qed.

Lemma run_try_catch {A} (m : Prog E A) (c : JsError → Prog E A) w :
  run h (try_catch m c) w =
  match run h m w with
  | (Normal a, w') => (Normal a, w')
  | (Abrupt e, w') => run h (c e) w'
  end.
Proof.
  revert w. induction m as [a|e|R ev k IH]; intros w; simpl; [done..|].
  destruct (h R ev w) as [r w']. apply IH.
Qed.

Lemma run_trigger {R} (ev : E R) w : run h (trigger ev) w = h R ev w.
Proof. simpl. by destruct (h R ev w) as [[]]. Qed.

Lemma run_lift {A} (c : Completion A) w : run h (lift c) w = (c, w).
Proof. by destruct c. Qed.

Lemma run_step {A} (m : Prog E A) w :
  run h m w = let '(m', w') := step h m w in run h m' w'.
Proof. destruct m; simpl; [done..|]. by destruct (h R ev w). Qed.

(** Every program terminates: after [calls h m w] steps it is finished,
    and running it is running what these steps leave. *)
Lemma run_steps {A} (m : Prog E A) w :
  let '(m', w') := steps h (calls h m w) m w in
  finished m' = true ∧ run h m w = run h m' w'.
Proof.
  revert w. induction m as [a|e|R ev k IH]; intros w; simpl; [done..|].
  destruct (h R ev w) as [r w'] eqn:Hev. simpl. rewrite Hev. apply IH.
Qed.

(** A finished program stays as it is. *)
Lemma steps_finished {A} n (m : Prog E A) w :
  finished m = true → steps h n m w = (m, w).
Proof. intros Hm. induction n as [|n IH]; [done|]. by destruct m. Qed.

(** Fuel beyond the calls of the program is enough: the steps reach
    the completion and the world of [run]. *)
Lemma steps_enough {A} n (m : Prog E A) w :
  calls h m w ≤ n →
  result (steps h n m w).1 = Some (run h m w).1 ∧ (steps h n m w).2 = (run h m w).2.
Proof.
  revert n w. induction m as [a|e|R ev k IH]; intros n w Hn.
  - by rewrite steps_finished.
  - by rewrite steps_finished.
  - simpl in Hn. destruct n as [|n]; simpl; destruct (h R ev w) as [r w']; [lia|].
    apply IH. lia.
Qed.

End run.

Section await_lemmas.
Context {E : Type → Type} {W : Type} (h : Interp E W) (awaits : ∀ R, E R → bool).

(** Running a program is running what its synchronous part leaves. *)
Lemma run_sync {A} (m : Prog E A) w :
  run h m w = run h (sync h awaits m w).1 (sync h awaits m w).2.
Proof.
  revert w. induction m as [a|e|R ev k IH]; intros w; simpl; [done..|].
  destruct (awaits R ev); [done|]. simpl. destruct (h R ev w) as [r w']. apply IH.
Qed.

Lemma run_resume {A} (m : Prog E A) w :
  run h m w = run h (resume h awaits m w).1 (resume h awaits m w).2.
Proof.
  unfold resume. rewrite (run_step h m w).
  destruct (step _ m w) as [m' w']. apply run_sync.
Qed.

Lemma sync_parked {A} (m : Prog E A) w : parked awaits (sync h awaits m w).1.
Proof.
  revert w. induction m as [a|e|R ev k IH]; intros w; simpl; [done..|].
  destruct (awaits R ev) eqn:Hev; [done|]. destruct (h R ev w) as [r w']. apply IH.
Qed.

Lemma resume_parked {A} (m : Prog E A) w : parked awaits (resume h awaits m w).1.
Proof. unfold resume. destruct (step _ m w) as [m' w']. apply sync_parked. Qed.

(** A finished program has nothing to wait for. *)
Lemma resume_finished {A} (m : Prog E A) w :
  finished m = true → resume h awaits m w = (m, w).
Proof. by destruct m. Qed.

(** A parked program is its own synchronous part. *)
Lemma sync_id {A} (m : Prog E A) w : parked awaits m → sync h awaits m w = (m, w).
Proof. destruct m; simpl; [done..|]. by intros ->. Qed.

(** The synchronous part awaits nothing. *)
Lemma waits_sync {A} (m : Prog E A) w :
  waits h awaits (sync h awaits m w).1 (sync h awaits m w).2 = waits h awaits m w.
Proof.
  revert w. induction m as [a|e|R ev k IH]; intros w; simpl; [done..|].
  destruct (awaits R ev) eqn:Hev; simpl.
  - by rewrite Hev.
  - destruct (h R ev w) as [r w']. apply IH.
Qed.

Lemma resumes_finished {A} n (m : Prog E A) w :
  finished m = true → resumes h awaits n m w = (m, w).
Proof. intros Hm. induction n as [|n IH]; [done|]. by destruct m. Qed.

(** When as many calls have settled as the program awaits, it is at
    its end, with the completion and in the world that [run] gives:
    further turns change nothing. *)
Lemma resumes_enough {A} n (m : Prog E A) w :
  parked awaits m → waits h awaits m w ≤ n →
  result (resumes h awaits n m w).1 = Some (run h m w).1
  ∧ (resumes h awaits n m w).2 = (run h m w).2.
Proof.
  revert m w. induction n as [|n IH]; intros [a|e|R ev k] w Hp Hn;
    try (by rewrite resumes_finished).
  - simpl in Hp, Hn. rewrite Hp in Hn. destruct (h R ev w); simpl in Hn; lia.
  - simpl in Hp, Hn. rewrite Hp in Hn. cbn [resumes run]. unfold resume. cbn [step].
    destruct (h R ev w) as [r w']. rewrite (run_sync (k r)).
    pose proof (waits_sync (k r) w') as Hw. pose proof (sync_parked (k r) w') as Hp'.
    destruct (sync h awaits (k r) w') as [m' w'']. apply IH; [done|]. simpl in *. lia.
Qed.

(** What the calls that [ok] admits keep true of the world, a program
    that makes no other call keeps true up to its next await and across
    it. *)
Section only.
Context (ok : ∀ R, E R → bool) (P : W → Prop).
Context (HP : ∀ R (ev : E R) w, ok R ev = true → P w → P (h R ev w).2).

Lemma sync_only {A} (m : Prog E A) w :
  only ok m → P w → only ok (sync h awaits m w).1 ∧ P (sync h awaits m w).2.
Proof.
  revert w. induction m as [a|e|R ev k IH]; intros w Hm Hw; simpl; [done..|].
  destruct (awaits R ev); [done|]. destruct Hm as [Hev Hk].
  pose proof (HP R ev w Hev Hw) as Hw'. destruct (h R ev w) as [r w']. by apply IH.
Qed.

Lemma resume_only {A} (m : Prog E A) w :
  only ok m → P w → only ok (resume h awaits m w).1 ∧ P (resume h awaits m w).2.
Proof.
  intros Hm Hw. unfold resume. destruct m as [a|e|R ev k]; simpl; [done..|].
  destruct Hm as [Hev Hk]. pose proof (HP R ev w Hev Hw) as Hw'.
  destruct (h R ev w) as [r w']. by apply sync_only.
Qed.

End only.

End await_lemmas.

(** The monad laws, up to [≈]. *)
Section laws.
Context {E : Type → Type}.

Lemma bind_ret_l {A B} (a : A) (f : A → Prog E B) : (mret a ≫= f) = f a.
Proof. done. Qed.

Lemma bind_ret_r {A} (m : Prog E A) : (m ≫= mret) ≈ m.
Proof.
  intros W h w. rewrite run_bind. by destruct (run h m w) as [[] ?].
Qed.

Lemma bind_assoc {A B C} (m : Prog E A) (f : A → Prog E B) (g : B → Prog E C) :
  ((m ≫= f) ≫= g) ≈ (m ≫= λ a, f a ≫= g).
Proof.
  intros W h w. rewrite !run_bind. destruct (run h m w) as [[] ?]; [|done].
  by rewrite run_bind.
Qed.

Lemma try_catch_ret {A} (a : A) (c : JsError → Prog E A) : try_catch (Ret a) c = Ret a.
Proof. done. Qed.

Lemma try_catch_throw {A} e (c : JsError → Prog E A) : try_catch (Throw e) c = c e.
Proof. done. Qed.

#[export] Instance bind_proper {A B} :
  Proper (prog_equiv ==> pointwise_relation A prog_equiv ==> prog_equiv)
    (λ m f, @mbind (Prog E) _ A B f m).
Proof.
  intros m n Hm f g Hf W h w. rewrite !run_bind, (Hm W h w).
  destruct (run h n w) as [[a|e] w']; [apply Hf|done].
Qed.

#[export] Instance try_catch_proper {A} :
  Proper (prog_equiv ==> pointwise_relation _ prog_equiv ==> prog_equiv)
    (@try_catch E A).
Proof.
  intros m n Hm f g Hf W h w. rewrite !run_try_catch, (Hm W h w).
  destruct (run h n w) as [[a|e] w']; [done|apply Hf].
Qed.

End laws.

#[export] Hint Rewrite @run_bind @run_try_catch @run_trigger @run_lift : prog_rw.
