(* ===== verification/ObjectId.v ===== *)
(** * Document identifiers

    MongoDB identifies a document by an [ObjectId]: 96 bits, written as
    24 hexadecimal digits in URLs and in JSON.  The controller receives
    the identifier as the route parameter [:categoryid], a string, and
    Mongoose casts it before it queries; a string that is not 24
    hexadecimal digits makes the cast throw.  This file holds the printer
    [hex24], the parser [parse_oid] and their round trip. *)

From Stdlib Require Import Ascii.
From S2P Require Import Prelude JsValue.

#[local] Open Scope N_scope.

(** ** Definitions *)

(** An identifier is a number below [oid_bound]. *)
Definition ObjectId : Type := N.
Definition oid_bound : N := 2 ^ 96.

(** The digit of a value below 16, in lower case: a character code from
    ["0"] (48) or from ["a"] (97). *)
Definition hex_digit (n : N) : ascii :=
  ascii_of_N (if n <? 10 then 48 + n else 87 + n).

(** The value of a digit, by its character code; both cases of the
    letters are digits. *)
Definition hex_value (c : ascii) : option N :=
  let n := N_of_ascii c in
  if (48 <=? n) && (n <=? 57) then Some (n - 48)
  else if (97 <=? n) && (n <=? 102) then Some (n - 87)
  else if (65 <=? n) && (n <=? 70) then Some (n - 55)
  else None.

(** The [w] low digits of [n], most significant first, in front of [acc]. *)
Fixpoint hex_fixed (w : nat) (n : N) (acc : string) : string :=
  match w with
  | O => acc
  | S w' => hex_fixed w' (n `div` 16) (String (hex_digit (n `mod` 16)) acc)
  end.

(** The value of a string of digits, continuing from [acc]. *)
Fixpoint parse_hex (s : string) (acc : N) : option N :=
  match s with
  | EmptyString => Some acc
  | String c s' =>
      match hex_value c with
      | Some v => parse_hex s' (acc * 16 + v)
      | None => None
      end
  end.

(** [ObjectId.toString()]: 24 digits, lower case. *)
Definition hex24 (i : ObjectId) : string := hex_fixed 24 i "".

(** The cast of a string to an identifier: exactly 24 digits. *)
Definition parse_oid (s : string) : option ObjectId :=
  if decide (String.length s = 24%nat) then parse_hex s 0 else None.

Definition CastError (what path : string) : JsError :=
  {| err_name := "CastError";
     message := "Cast to " +:+ what +:+ " failed at path '" +:+ path +:+ "'";
     statusCode := None |}.

(** The cast Mongoose applies to the argument of [findById] and its
    relatives.  [undefined] and [null] select no document; any other
    value that is not a well-formed identifier throws. *)
Definition castObjectId (v : JsValue) : Completion (option ObjectId) :=
  match v with
  | JUndefined | JNull => Normal None
  | JStr s =>
      match parse_oid s with
      | Some i => Normal (Some i)
      | None => Abrupt (CastError "ObjectId" "_id")
      end
  | _ => Abrupt (CastError "ObjectId" "_id")
  end.

(** Identifiers are handled through their lemmas, not by unfolding. *)
Arguments hex24 : simpl never.
Arguments parse_oid : simpl never.
Arguments oid_bound : simpl never.

(** ** Lemmas *)

Lemma hex_value_digit n : n < 16 → hex_value (hex_digit n) = Some n.
Proof.
  intros H. assert (n ∈ N.of_nat <$> seq 0 16) as Hn.
  { apply list_elem_of_fmap. exists (N.to_nat n). split; [lia|]. apply elem_of_seq. lia. }
  cbn in Hn. repeat (apply elem_of_cons in Hn as [->|Hn]; [done|]).
  by apply elem_of_nil in Hn.
Qed.

Lemma hex_value_bound c v : hex_value c = Some v → v < 16.
Proof.
  unfold hex_value. repeat case_match; intros [= <-];
    repeat match goal with
    | H : _ && _ = true |- _ => apply andb_prop in H as [?%N.leb_le ?%N.leb_le]
    end; lia.
Qed.

Lemma hex_fixed_length w n acc :
  String.length (hex_fixed w n acc) = (w + String.length acc)%nat.
Proof.
  revert n acc. induction w as [|w IH]; intros n acc; simpl; [done|].
  rewrite IH. simpl. lia.
Qed.

Lemma parse_hex_fixed w n acc a :
  parse_hex (hex_fixed w n acc) a =
  parse_hex acc (a * 16 ^ N.of_nat w + n `mod` 16 ^ N.of_nat w).
Proof.
  revert n acc a. induction w as [|w IH]; intros n acc a.
  - simpl. rewrite N.pow_0_r, N.mod_1_r. f_equal. lia.
  - simpl hex_fixed. rewrite IH. simpl parse_hex.
    rewrite hex_value_digit by (apply N.mod_lt; lia).
    f_equal. rewrite Nat2N.inj_succ, N.pow_succ_r', N.Div0.mod_mul_r. lia.
Qed.

Lemma hex24_length i : String.length (hex24 i) = 24%nat.
Proof. unfold hex24. by rewrite hex_fixed_length. Qed.

Lemma parse_oid_hex24_mod i : parse_oid (hex24 i) = Some (i `mod` oid_bound).
Proof.
  unfold parse_oid. rewrite decide_True by apply hex24_length.
  unfold hex24. by rewrite parse_hex_fixed.
Qed.

Lemma parse_oid_hex24 i : i < oid_bound → parse_oid (hex24 i) = Some i.
Proof. intros H. by rewrite parse_oid_hex24_mod, N.mod_small. Qed.

Lemma hex24_inj i j : i < oid_bound → j < oid_bound → hex24 i = hex24 j → i = j.
Proof.
  intros Hi Hj H. apply (f_equal parse_oid) in H.
  rewrite !parse_oid_hex24 in H by done. by simplify_eq.
Qed.

Lemma parse_oid_length s i : parse_oid s = Some i → String.length s = 24%nat.
Proof. unfold parse_oid. by case_decide. Qed.

Lemma parse_hex_bound s a i :
  parse_hex s a = Some i → i < (a + 1) * 16 ^ N.of_nat (String.length s).
Proof.
  revert a. induction s as [|c s IH]; intros a; simpl parse_hex; simpl String.length.
  - intros [= ->]. rewrite N.pow_0_r. lia.
  - destruct (hex_value c) as [v|] eqn:Hv; [|done]. intros H%IH.
    apply hex_value_bound in Hv.
    rewrite Nat2N.inj_succ, N.pow_succ_r'. nia.
Qed.

Lemma parse_oid_bound s i : parse_oid s = Some i → i < oid_bound.
Proof.
  unfold parse_oid. case_decide as Hl; [|done]. intros H%parse_hex_bound.
  rewrite Hl in H. unfold oid_bound. by rewrite N.mul_1_l in H.
Qed.

Lemma castObjectId_hex24 i : i < oid_bound → castObjectId (JStr (hex24 i)) = Normal (Some i).
Proof. intros H. unfold castObjectId. by rewrite parse_oid_hex24. Qed.

#[export] Hint Resolve parse_oid_hex24 parse_oid_bound hex24_length : blog.
#[export] Hint Rewrite castObjectId_hex24 using done : blog_rw.
