(* ===== verification/Store.v ===== *)
(** * The category store

    The controller talks to MongoDB through the Mongoose model [Category]
    ([models/category.model.js], which is not among the sources).  This
    file models the document, the calls the controller makes as events
    ([DbOp]) and a reference store for them: a list of documents in
    insertion order with a counter that issues identifiers.

    The specification says the store enforces a unique slug and also that
    an update can silently create a duplicate; the collection therefore
    carries the schema option [unique_slug], and theorems say which of
    the two they need.

    Values other than strings are rejected by the casts ([castString],
    [castUpdate]); [undefined] in an update leaves the field as it is. *)

From S2P Require Import Prelude JsValue Effects ObjectId.

#[local] Open Scope N_scope.

(** ** Documents and calls *)

Record Category : Type := mkCategory {
  _id : ObjectId;
  name : string;
  slug : string;
}.

#[export] Instance Category_eq_dec : EqDecision Category.
Proof. solve_decision. Defined.

(** The calls of the controller on the model, with the type of what
    they resolve to. *)
Inductive DbOp : Type → Type :=
| FindOne (slug : JsValue) : DbOp (option Category)
| NewCategory (name slug : JsValue) : DbOp Category
| Save (c : Category) : DbOp unit
| FindById (id : JsValue) : DbOp (option Category)
| FindByIdAndUpdate (id name slug : JsValue) : DbOp (option Category)
| FindByIdAndDelete (id : JsValue) : DbOp (option Category)
| FindSortByName : DbOp (list Category).

(** ** The reference collection *)

Record Collection : Type := mkCollection {
  docs : list Category;
  next_id : N;
  unique_slug : bool;
}.

Definition empty_collection (unique : bool) : Collection :=
  {| docs := []; next_id := 0; unique_slug := unique |}.

Definition has_id (i : ObjectId) (c : Category) : bool := bool_decide (_id c = i).
Definition has_slug (s : string) (c : Category) : bool := bool_decide (slug c = s).

Definition ids (s : Collection) : list ObjectId := _id <$> docs s.
Definition slugs (s : Collection) : list string := slug <$> docs s.

(** The order of [sort({ name: 1 })]: byte-wise comparison of names. *)
Definition name_le (c d : Category) : Prop := String.le (name c) (name d).

#[export] Instance name_le_dec : RelDecision name_le.
Proof. intros c d. unfold name_le. apply _. Defined.

(** The casts of the schema: a field of type [String]. *)
Definition castString (path : string) (v : JsValue) : Completion string :=
  match v with
  | JStr s => Normal s
  | _ => Abrupt (CastError "string" path)
  end.

(** A field of an update: [undefined] is dropped from the update. *)
Definition castUpdate (path : string) (v : JsValue) : Completion (option string) :=
  match v with
  | JUndefined => Normal None
  | JStr s => Normal (Some s)
  | _ => Abrupt (CastError "string" path)
  end.

Definition DuplicateKey (index : string) : JsError :=
  {| err_name := "MongoServerError";
     message := "E11000 duplicate key error collection: categories index: " +:+ index;
     statusCode := None |}.

Definition ValidationFailed (path : string) : JsError :=
  {| err_name := "ValidationError";
     message := "Category validation failed: " +:+ path +:+ ": Path `" +:+ path
                +:+ "` is required.";
     statusCode := None |}.

Definition set_fields (n s : option string) (c : Category) : Category :=
  {| _id := _id c; name := default (name c) n; slug := default (slug c) s |}.

(** [Category.findOne({ slug })] *)
Definition findOne (sl : JsValue) (s : Collection) : Completion (option Category) * Collection :=
  (sv ← castString "slug" sl; mret (find (has_slug sv) (docs s)), s).

(** [new Category({ name, slug })]: the constructor takes the next
    identifier. *)
Definition newCategory (n sl : JsValue) (s : Collection) : Completion Category * Collection :=
  match castString "name" n, castString "slug" sl with
  | Normal nv, Normal sv =>
      (Normal {| _id := next_id s `mod` oid_bound; name := nv; slug := sv |},
       {| docs := docs s; next_id := next_id s + 1; unique_slug := unique_slug s |})
  | Abrupt e, _ | _, Abrupt e => (Abrupt e, s)
  end.

(** [category.save()]: required paths, then the unique indexes. *)
Definition save (c : Category) (s : Collection) : Completion unit * Collection :=
  if decide (name c = "") then (Abrupt (ValidationFailed "name"), s)
  else if decide (slug c = "") then (Abrupt (ValidationFailed "slug"), s)
  else if decide (_id c ∈ ids s) then (Abrupt (DuplicateKey "_id_"), s)
  else if unique_slug s && bool_decide (slug c ∈ slugs s)
       then (Abrupt (DuplicateKey "slug_1"), s)
  else (Normal (),
        {| docs := docs s ++ [c]; next_id := next_id s; unique_slug := unique_slug s |}).

(** [Category.findById(id)] *)
Definition findById (id : JsValue) (s : Collection) : Completion (option Category) * Collection :=
  (oi ← castObjectId id; mret (i ← oi; find (has_id i) (docs s)), s).

(** [Category.findByIdAndUpdate(id, { name, slug }, { new: true })]:
    no validators run; the unique index, where there is one, rejects a
    slug another document holds. *)
Definition findByIdAndUpdate (id n sl : JsValue) (s : Collection)
    : Completion (option Category) * Collection :=
  match castObjectId id, castUpdate "name" n, castUpdate "slug" sl with
  | Normal oi, Normal nv, Normal sv =>
      match oi ≫= λ i, find (has_id i) (docs s) with
      | None => (Normal None, s)
      | Some c =>
          let c' := set_fields nv sv c in
          if unique_slug s
             && bool_decide (slug c' ∈ slug <$> remove_first (has_id (_id c)) (docs s))
          then (Abrupt (DuplicateKey "slug_1"), s)
          else (Normal (Some c'),
                {| docs := update_first (has_id (_id c)) (set_fields nv sv) (docs s);
                   next_id := next_id s; unique_slug := unique_slug s |})
      end
  | Abrupt e, _, _ | _, Abrupt e, _ | _, _, Abrupt e => (Abrupt e, s)
  end.

(** [Category.findByIdAndDelete(id)] *)
Definition findByIdAndDelete (id : JsValue) (s : Collection)
    : Completion (option Category) * Collection :=
  match castObjectId id with
  | Normal oi =>
      match oi ≫= λ i, find (has_id i) (docs s) with
      | None => (Normal None, s)
      | Some c =>
          (Normal (Some c),
           {| docs := remove_first (has_id (_id c)) (docs s);
              next_id := next_id s; unique_slug := unique_slug s |})
      end
  | Abrupt e => (Abrupt e, s)
  end.

(** [Category.find().sort({ name: 1 }).lean().exec()] *)
Definition findSortByName (s : Collection) : Completion (list Category) * Collection :=
  (Normal (merge_sort name_le (docs s)), s).

(** The reference interpretation of the calls. *)
Definition coll_exec : Interp DbOp Collection := λ R op,
  match op in DbOp R return Collection → Completion R * Collection with
  | FindOne sl => findOne sl
  | NewCategory n sl => newCategory n sl
  | Save c => save c
  | FindById id => findById id
  | FindByIdAndUpdate id n sl => findByIdAndUpdate id n sl
  | FindByIdAndDelete id => findByIdAndDelete id
  | FindSortByName => findSortByName
  end.

Arguments findOne : simpl never.
Arguments newCategory : simpl never.
Arguments save : simpl never.
Arguments findById : simpl never.
Arguments findByIdAndUpdate : simpl never.
Arguments findByIdAndDelete : simpl never.
Arguments findSortByName : simpl never.

(** ** Invariants *)

(** What MongoDB guarantees of any collection: identifiers are pairwise
    distinct. *)
Definition ids_ok (s : Collection) : Prop := NoDup (ids s).

(** The counter has not wrapped: every identifier in use was issued
    before, within the 96 bits. *)
Definition supply_ok (s : Collection) : Prop :=
  Forall (λ c, _id c < next_id s) (docs s) ∧ next_id s ≤ oid_bound.

(** One more identifier can be issued. *)
Definition has_supply (s : Collection) : Prop := next_id s < oid_bound.

Definition coll_wf (s : Collection) : Prop := ids_ok s ∧ supply_ok s.

(** The invariant of the data model: no two categories share a slug. *)
Definition slugs_unique (s : Collection) : Prop := NoDup (slugs s).

(** What the schema requires of a stored document. *)
Definition fields_present (s : Collection) : Prop :=
  Forall (λ c, name c ≠ "" ∧ slug c ≠ "") (docs s).

(** The calls that only read. *)
Definition read_only {R} (op : DbOp R) : bool :=
  match op with
  | FindOne _ | FindById _ | FindSortByName => true
  | _ => false
  end.

(** The calls that read or remove, and insert or change nothing. *)
Definition removes_only {R} (op : DbOp R) : bool :=
  match op with
  | FindOne _ | FindById _ | FindSortByName | FindByIdAndDelete _ => true
  | _ => false
  end.

(** The calls that insert no document and issue no identifier. *)
Definition no_insert {R} (op : DbOp R) : bool :=
  match op with NewCategory _ _ | Save _ => false | _ => true end.

(** [s'] holds some of the documents of [s], in their order, and is
    otherwise as [s]. *)
Definition shrinks_to (s s' : Collection) : Prop :=
  docs s' `sublist_of` docs s ∧ next_id s' = next_id s ∧ unique_slug s' = unique_slug s.

(** The invariants are decidable, so that a concrete collection is
    checked by evaluation. *)
#[export] Instance ids_ok_dec s : Decision (ids_ok s).
Proof. unfold ids_ok. apply _. Defined.

#[export] Instance supply_ok_dec s : Decision (supply_ok s).
Proof. unfold supply_ok. apply _. Defined.

#[export] Instance has_supply_dec s : Decision (has_supply s).
Proof. unfold has_supply. apply _. Defined.

#[export] Instance coll_wf_dec s : Decision (coll_wf s).
Proof. unfold coll_wf. apply _. Defined.

#[export] Instance slugs_unique_dec s : Decision (slugs_unique s).
Proof. unfold slugs_unique. apply _. Defined.

#[export] Instance fields_present_dec s : Decision (fields_present s).
Proof. unfold fields_present. apply _. Defined.

(** ** Lemmas *)

#[export] Instance name_le_total : Total name_le.
Proof. intros c d. apply (total String.le). Qed.

#[export] Instance name_le_trans : Transitive name_le.
Proof. intros c d e. apply (transitivity (R:=String.le)). Qed.

Section lookup.
Implicit Types (l : list Category) (c : Category) (i : ObjectId).

Lemma find_has_id_Some l i c : find (has_id i) l = Some c → c ∈ l ∧ _id c = i.
Proof.
  intros [? H]%find_Some_elem_of. by apply bool_decide_eq_true in H.
Qed.

Lemma find_has_id_None l i : find (has_id i) l = None ↔ i ∉ _id <$> l.
Proof.
  rewrite find_None_iff, list_elem_of_fmap. unfold has_id. split.
  - intros H (c & -> & Hc). specialize (H c Hc). by case_bool_decide.
  - intros H c Hc. apply bool_decide_eq_false. naive_solver.
Qed.

Lemma find_has_slug_Some l sv c : find (has_slug sv) l = Some c → c ∈ l ∧ slug c = sv.
Proof.
  intros [? H]%find_Some_elem_of. by apply bool_decide_eq_true in H.
Qed.

Lemma find_has_slug_None l sv : find (has_slug sv) l = None ↔ sv ∉ slug <$> l.
Proof.
  rewrite find_None_iff, list_elem_of_fmap. unfold has_slug. split.
  - intros H (c & -> & Hc). specialize (H c Hc). by case_bool_decide.
  - intros H c Hc. apply bool_decide_eq_false. naive_solver.
Qed.

(** With distinct identifiers, the document found by [has_id] is the one
    that is in the list. *)
Lemma find_has_id_elem_of l c :
  NoDup (_id <$> l) → c ∈ l → find (has_id (_id c)) l = Some c.
Proof.
  induction l as [|d l IH]; csimpl; [by intros _ ?%elem_of_nil|].
  rewrite NoDup_cons, elem_of_cons. intros [Hd Hl] [->|Hc].
  - unfold has_id. by rewrite bool_decide_eq_true_2.
  - unfold has_id at 1. rewrite bool_decide_eq_false_2; [auto|].
    intros Heq. apply Hd. rewrite Heq. by apply list_elem_of_fmap_2.
Qed.

Lemma find_has_id_app l c :
  _id c ∉ _id <$> l → find (has_id (_id c)) (l ++ [c]) = Some c.
Proof.
  intros H%find_has_id_None. rewrite find_app, H. simpl.
  unfold has_id. by rewrite bool_decide_eq_true_2.
Qed.

End lookup.

(** Case analysis on every cast and guard of a store operation. *)
Ltac store_cases :=
  unfold findOne, newCategory, save, findById, findByIdAndUpdate,
    findByIdAndDelete, findSortByName in *;
  repeat (first [progress simplify_eq/= | case_match]); try done.

(** *** Reads leave the collection as it is *)

Lemma coll_exec_read_only {R} (op : DbOp R) s :
  read_only op = true → (coll_exec R op s).2 = s.
Proof. by destruct op. Qed.

(** A call that throws leaves the documents as they are. *)
Lemma coll_exec_abrupt {R} (op : DbOp R) s e s' :
  coll_exec R op s = (Abrupt e, s') → s' = s.
Proof.
  destruct op; simpl; intros H; store_cases.
Qed.

(** No call changes the schema. *)
Lemma coll_exec_unique_slug {R} (op : DbOp R) s :
  unique_slug (coll_exec R op s).2 = unique_slug s.
Proof.
  destruct op; simpl; store_cases.
Qed.

(** *** Identifiers stay distinct under every call *)

Lemma save_ids_ok c s : ids_ok s → ids_ok (save c s).2.
Proof.
  unfold ids_ok, ids. intros H. store_cases. rewrite fmap_app. apply NoDup_app.
  split_and!; [done| |apply NoDup_singleton].
  by intros i Hi ->%list_elem_of_singleton.
Qed.

Lemma findByIdAndUpdate_ids id n sl s : ids (findByIdAndUpdate id n sl s).2 = ids s.
Proof.
  unfold ids. store_cases. by apply update_first_keys.
Qed.

Lemma findByIdAndDelete_ids_ok id s : ids_ok s → ids_ok (findByIdAndDelete id s).2.
Proof.
  unfold ids_ok, ids. intros H. store_cases. by apply remove_first_keys_NoDup.
Qed.

Lemma coll_exec_ids_ok {R} (op : DbOp R) s : ids_ok s → ids_ok (coll_exec R op s).2.
Proof.
  destruct op; simpl; try done.
  - intros H. store_cases.
  - apply save_ids_ok.
  - unfold ids_ok. by rewrite findByIdAndUpdate_ids.
  - apply findByIdAndDelete_ids_ok.
Qed.

(** *** The calls on well-formed arguments *)

Lemma findOne_JStr sv s :
  findOne (JStr sv) s = (Normal (find (has_slug sv) (docs s)), s).
Proof. done. Qed.

Lemma newCategory_JStr n sv s :
  newCategory (JStr n) (JStr sv) s =
  (Normal {| _id := next_id s `mod` oid_bound; name := n; slug := sv |},
   {| docs := docs s; next_id := next_id s + 1; unique_slug := unique_slug s |}).
Proof. done. Qed.

Lemma save_fresh c s :
  name c ≠ "" → slug c ≠ "" → _id c ∉ ids s → slug c ∉ slugs s →
  save c s = (Normal (), {| docs := docs s ++ [c]; next_id := next_id s;
                            unique_slug := unique_slug s |}).
Proof.
  intros. unfold save. rewrite !decide_False by done.
  by rewrite ?bool_decide_eq_false_2, ?andb_false_r.
Qed.

(** [save] without the index checks the required paths and the
    identifier only. *)
Lemma save_unindexed c s :
  unique_slug s = false → name c ≠ "" → slug c ≠ "" → _id c ∉ ids s →
  save c s = (Normal (), {| docs := docs s ++ [c]; next_id := next_id s;
                            unique_slug := unique_slug s |}).
Proof. intros Hu ???. unfold save. rewrite !decide_False by done. by rewrite ?Hu. Qed.

(** The unique index rejects a slug a document holds. *)
Lemma save_duplicate_slug c s :
  unique_slug s = true → name c ≠ "" → slug c ≠ "" → _id c ∉ ids s → slug c ∈ slugs s →
  save c s = (Abrupt (DuplicateKey "slug_1"), s).
Proof.
  intros Hu ????. unfold save. rewrite !decide_False by done.
  by rewrite Hu, bool_decide_eq_true_2.
Qed.

Lemma findById_JStr str s :
  findById (JStr str) s =
  match parse_oid str with
  | Some i => (Normal (find (has_id i) (docs s)), s)
  | None => (Abrupt (CastError "ObjectId" "_id"), s)
  end.
Proof. unfold findById, castObjectId. by destruct (parse_oid str). Qed.

Lemma findByIdAndDelete_JStr str s :
  findByIdAndDelete (JStr str) s =
  match parse_oid str with
  | Some i =>
      match find (has_id i) (docs s) with
      | None => (Normal None, s)
      | Some c => (Normal (Some c),
                   {| docs := remove_first (has_id (_id c)) (docs s);
                      next_id := next_id s; unique_slug := unique_slug s |})
      end
  | None => (Abrupt (CastError "ObjectId" "_id"), s)
  end.
Proof. unfold findByIdAndDelete, castObjectId. by destruct (parse_oid str). Qed.

Lemma findByIdAndUpdate_JStr str n sv s :
  findByIdAndUpdate (JStr str) (JStr n) (JStr sv) s =
  match parse_oid str with
  | Some i =>
      match find (has_id i) (docs s) with
      | None => (Normal None, s)
      | Some c =>
          if unique_slug s
             && bool_decide (sv ∈ slug <$> remove_first (has_id (_id c)) (docs s))
          then (Abrupt (DuplicateKey "slug_1"), s)
          else (Normal (Some {| _id := _id c; name := n; slug := sv |}),
                {| docs := update_first (has_id (_id c)) (set_fields (Some n) (Some sv))
                             (docs s);
                   next_id := next_id s; unique_slug := unique_slug s |})
      end
  | None => (Abrupt (CastError "ObjectId" "_id"), s)
  end.
Proof. unfold findByIdAndUpdate, castObjectId. by destruct (parse_oid str). Qed.

(** *** The listing *)

Lemma findSortByName_sorted s :
  ∃ l, findSortByName s = (Normal l, s) ∧ Sorted name_le l ∧ l ≡ₚ docs s.
Proof.
  exists (merge_sort name_le (docs s)). split; [done|]. split.
  - apply (Sorted_merge_sort name_le).
  - apply merge_sort_Permutation.
Qed.

(** *** Slugs *)

Lemma save_slugs_unique c s :
  slugs_unique s → slug c ∉ slugs s → slugs_unique (save c s).2.
Proof.
  unfold slugs_unique, slugs. intros H Hc. store_cases. rewrite fmap_app.
  apply NoDup_app. split_and!; [done| |apply NoDup_singleton].
  by intros ? ? ->%list_elem_of_singleton.
Qed.

Lemma save_indexed_slugs_unique c s :
  unique_slug s = true → slugs_unique s → slugs_unique (save c s).2.
Proof.
  intros Hu H. destruct (decide (slug c ∈ slugs s)) as [Hin|Hout].
  - unfold save. rewrite Hu. by repeat case_decide.
  - by apply save_slugs_unique.
Qed.

Lemma findByIdAndDelete_slugs_unique id s :
  slugs_unique s → slugs_unique (findByIdAndDelete id s).2.
Proof.
  unfold slugs_unique, slugs. intros H. store_cases. by apply remove_first_keys_NoDup.
Qed.

Lemma findByIdAndUpdate_indexed_slugs_unique id n sv s :
  unique_slug s = true → slugs_unique s →
  slugs_unique (findByIdAndUpdate id n sv s).2.
Proof.
  intros Hu H. unfold findByIdAndUpdate.
  destruct (castObjectId id) as [[i|]|]; [|by repeat case_match..].
  destruct (castUpdate "name" n) as [nv|]; [|done].
  destruct (castUpdate "slug" sv) as [sv'|]; [|done]. simpl.
  destruct (find (has_id i) (docs s)) as [c|] eqn:Hc; [|done].
  apply find_has_id_Some in Hc as Hi. destruct Hi as [_ <-].
  rewrite Hu. simpl. case_bool_decide as Hin; [done|]. simpl.
  by eapply (update_first_keys_NoDup slug).
Qed.

#[export] Hint Rewrite findOne_JStr newCategory_JStr findById_JStr
  findByIdAndDelete_JStr findByIdAndUpdate_JStr : blog_rw.
#[export] Hint Rewrite save_fresh using (by eauto with blog) : blog_rw.

(** *** The supply of identifiers *)

(** On a well-formed collection with supply left, the next identifier
    is the counter itself and no document holds it. *)
Lemma coll_wf_fresh s :
  coll_wf s → has_supply s →
  next_id s `mod` oid_bound = next_id s ∧ next_id s ∉ ids s.
Proof.
  intros [_ [Hlt _]] Hs. split; [by apply N.mod_small|].
  unfold ids. rewrite list_elem_of_fmap. intros (c & Hc & Hin).
  rewrite Forall_forall in Hlt. specialize (Hlt c Hin). lia.
Qed.

(** No document of a well-formed collection holds the counter or an
    identifier beyond it. *)
Lemma coll_wf_above s i : coll_wf s → next_id s ≤ i → i ∉ ids s.
Proof.
  intros [_ [Hlt _]] Hi. unfold ids. rewrite list_elem_of_fmap. intros (c & -> & Hin).
  rewrite Forall_forall in Hlt. specialize (Hlt c Hin). lia.
Qed.

Lemma coll_wf_bounded s c : coll_wf s → c ∈ docs s → _id c < oid_bound.
Proof.
  intros [_ [Hlt Hb]] Hc. rewrite Forall_forall in Hlt. specialize (Hlt c Hc). lia.
Qed.

Lemma coll_wf_empty u : coll_wf (empty_collection u).
Proof.
  split; [apply NoDup_nil_2|]. split; [by apply Forall_nil|].
  unfold oid_bound. simpl. lia.
Qed.

Lemma coll_wf_insert s c :
  coll_wf s → has_supply s → _id c = next_id s →
  coll_wf {| docs := docs s ++ [c]; next_id := next_id s + 1;
             unique_slug := unique_slug s |}.
Proof.
  intros Hwf Hs Hc. destruct (coll_wf_fresh s Hwf Hs) as [_ Hid].
  destruct Hwf as [Hnd [Hlt Hb]]. unfold has_supply in Hs. split; [|split]; simpl.
  - unfold ids_ok, ids in *. simpl. rewrite fmap_app. apply NoDup_app.
    split_and!; [done| |apply NoDup_singleton].
    intros i Hi ->%list_elem_of_singleton. by rewrite Hc in Hi.
  - apply Forall_app. split; [|apply Forall_singleton; lia].
    eapply Forall_impl; [done|]. simpl. lia.
  - lia.
Qed.

Lemma coll_wf_update s p f :
  coll_wf s → (∀ c, _id (f c) = _id c) →
  coll_wf {| docs := update_first p f (docs s); next_id := next_id s;
             unique_slug := unique_slug s |}.
Proof.
  intros [Hnd [Hlt Hb]] Hf. split; [|split]; simpl; [|clear Hnd|done].
  - unfold ids_ok, ids in *. simpl. by rewrite update_first_keys.
  - induction Hlt as [|c l Hc Hl IH]; simpl; [done|].
    destruct (p c); constructor; rewrite ?Hf; auto.
Qed.

Lemma coll_wf_remove s p :
  coll_wf s →
  coll_wf {| docs := remove_first p (docs s); next_id := next_id s;
             unique_slug := unique_slug s |}.
Proof.
  intros [Hnd [Hlt Hb]]. split; [|split]; simpl; [| |done].
  - unfold ids_ok, ids in *. simpl. by apply remove_first_keys_NoDup.
  - rewrite Forall_forall in *. intros c Hc%remove_first_elem_of. auto.
Qed.

#[export] Hint Resolve coll_wf_empty coll_wf_insert coll_wf_remove : blog.

(** A stored document is found by the printed form of its identifier. *)
Lemma find_by_hex24 s c :
  coll_wf s → c ∈ docs s →
  parse_oid (hex24 (_id c)) = Some (_id c) ∧ find (has_id (_id c)) (docs s) = Some c.
Proof.
  intros Hwf Hc. split.
  - apply parse_oid_hex24. by eapply coll_wf_bounded.
  - apply find_has_id_elem_of; [apply Hwf|done].
Qed.

Lemma findSortByName_eq s :
  findSortByName s = (Normal (merge_sort name_le (docs s)), s).
Proof. done. Qed.

#[export] Hint Rewrite findSortByName_eq : blog_rw.

(** *** What each call can do to the collection *)

Lemma coll_exec_next_id_mono {R} (op : DbOp R) s :
  next_id s ≤ next_id (coll_exec R op s).2.
Proof. destruct op; simpl; store_cases; simpl; lia. Qed.

Lemma coll_exec_indexed_slugs_unique {R} (op : DbOp R) s :
  unique_slug s = true → slugs_unique s → slugs_unique (coll_exec R op s).2.
Proof.
  intros Hu Hs. destruct op; simpl; try done.
  - store_cases.
  - by apply save_indexed_slugs_unique.
  - by apply findByIdAndUpdate_indexed_slugs_unique.
  - by apply findByIdAndDelete_slugs_unique.
Qed.

(** [save] fails in one of four ways, or appends the document. *)
Lemma save_outcome c s :
  save c s = (Abrupt (ValidationFailed "name"), s) ∨
  save c s = (Abrupt (ValidationFailed "slug"), s) ∨
  save c s = (Abrupt (DuplicateKey "_id_"), s) ∨
  save c s = (Abrupt (DuplicateKey "slug_1"), s) ∨
  (name c ≠ "" ∧ slug c ≠ "" ∧ (_id c ∉ ids s) ∧
   save c s = (Normal (), {| docs := docs s ++ [c]; next_id := next_id s;
                            unique_slug := unique_slug s |})).
Proof. unfold save. repeat case_decide; try case_match; auto 10. Qed.

#[export] Instance shrinks_to_preorder : PreOrder shrinks_to.
Proof.
  split; [by intros s|]. intros s1 s2 s3 (H1 & Hn1 & Hu1) (H2 & Hn2 & Hu2).
  split; [by etrans|]. by rewrite Hn2, Hu2.
Qed.

Lemma coll_exec_removes_only {R} (op : DbOp R) s :
  removes_only op = true → shrinks_to s (coll_exec R op s).2.
Proof.
  destruct op; simpl; try done; intros _; store_cases.
  split; [apply remove_first_sublist|done].
Qed.

Lemma coll_exec_no_insert {R} (op : DbOp R) s :
  no_insert op = true → coll_wf s →
  coll_wf (coll_exec R op s).2 ∧ next_id (coll_exec R op s).2 = next_id s.
Proof.
  destruct op; simpl; try done; intros _ Hwf; store_cases; split; try done.
  - by apply coll_wf_update.
  - by apply coll_wf_remove.
Qed.

Section shrinks.
Context (s s' : Collection) (Hs : shrinks_to s s').

Lemma shrinks_to_ids_ok : ids_ok s → ids_ok s'.
Proof. destruct Hs as [Hd _]. intros H. eapply sublist_NoDup; [done|by apply fmap_sublist]. Qed.

Lemma shrinks_to_slugs_unique : slugs_unique s → slugs_unique s'.
Proof. destruct Hs as [Hd _]. intros H. eapply sublist_NoDup; [done|by apply fmap_sublist]. Qed.

Lemma shrinks_to_fields_present : fields_present s → fields_present s'.
Proof. destruct Hs as [Hd _]. unfold fields_present. by apply Forall_sublist_of. Qed.

Lemma shrinks_to_coll_wf : coll_wf s → coll_wf s'.
Proof.
  intros [Hi [Hlt Hb]]. split; [by apply shrinks_to_ids_ok|].
  destruct Hs as (Hd & Hn & _). unfold supply_ok. rewrite Hn.
  split; [|done]. by eapply Forall_sublist_of.
Qed.

End shrinks.
