(* ===== verification/Http.v ===== *)
(** * Requests, responses and the world of a handler

    What Express hands to a handler and what a handler can do with it.
    The request carries the parsed JSON body and the route parameters.
    The response object records the status code set by [res.status] and
    what [res.json] put on the wire; a second [res.json] throws, as
    Node refuses to set headers twice.  [next(err)] runs the error
    middleware of the application, which answers with the status code of
    the error; that middleware and [handleError] are not among the
    sources and follow the specification (section 4.3).

    [handle] interprets every event of a handler in a [World]: the store,
    the response, the errors handed to [next] and the console. *)

From S2P Require Import Prelude JsValue Effects ObjectId Store.

(** ** Request *)

Inductive Method : Type := GET | HEAD | POST | PUT | DELETE | PATCH | OPTIONS.

#[export] Instance Method_eq_dec : EqDecision Method.
Proof. solve_decision. Defined.

Record Request : Type := mkRequest {
  body : JsValue;
  params : list (string * string);
}.

#[export] Instance Request_eq_dec : EqDecision Request.
Proof. solve_decision. Defined.

Fixpoint params_lookup (k : string) (ps : list (string * string)) : option string :=
  match ps with
  | [] => None
  | (k', v) :: ps' => if String.eqb k k' then Some v else params_lookup k ps'
  end.

(** [req.params.k]: a string, or [undefined] when the route has no such
    parameter. *)
Definition param (k : string) (req : Request) : JsValue :=
  from_option JStr JUndefined (params_lookup k (params req)).

Arguments param : simpl never.

(** ** Response *)

Record Response : Type := mkResponse {
  status_code : nat;
  sent : option (nat * JsValue);
}.

Definition fresh_response : Response := {| status_code := 200; sent := None |}.

Inductive ResOp : Type → Type :=
| Status (code : nat) : ResOp unit
| Json (body : JsValue) : ResOp unit.

Definition HeadersSent : JsError :=
  {| err_name := "Error";
     message := "Cannot set headers after they are sent to the client";
     statusCode := None |}.

(** [res.status(code)] sets the code; [res.json(body)] sends it with the
    body, once. *)
Definition res_exec : Interp ResOp Response := λ R op,
  match op in ResOp R return Response → Completion R * Response with
  | Status code => λ r, (Normal (), {| status_code := code; sent := sent r |})
  | Json b => λ r,
      match sent r with
      | Some _ => (Abrupt HeadersSent, r)
      | None => (Normal (), {| status_code := status_code r;
                               sent := Some (status_code r, b) |})
      end
  end.

(** ** Errors *)

(** [handleError(statusCode, message)] of [helpers/handleError.js]. *)
Definition handleError (code : nat) (msg : string) : JsError :=
  {| err_name := "Error"; message := msg; statusCode := Some code |}.

(** The error translator: the status code of the error, or 500, and its
    message in the body. *)
Definition errorMiddleware (err : JsError) : Prog ResOp unit :=
  let code := match statusCode err with Some (S n) => S n | _ => 500 end in
  let msg := if decide (message err = "") then "Internal server error." else message err in
  trigger (Status code);;
  trigger (Json (JObj [("success", JBool false);
                       ("statusCode", JNum (Z.of_nat code));
                       ("message", JStr msg)])).

Arguments errorMiddleware : simpl never.

(** ** Events of a handler and the world they act on *)

Inductive HandlerE : Type → Type :=
| Db {R} (op : DbOp R) : HandlerE R
| Res {R} (op : ResOp R) : HandlerE R
| Next (err : JsError) : HandlerE unit
| ConsoleError (label : string) (err : JsError) : HandlerE unit.

Definition Handler : Type → Type := Prog HandlerE.

Definition db {R} (op : DbOp R) : Handler R := trigger (Db op).
Definition res_status (code : nat) : Handler unit := trigger (Res (Status code)).
Definition res_json (b : JsValue) : Handler unit := trigger (Res (Json b)).
Definition next (err : JsError) : Handler unit := trigger (Next err).
Definition console_error (label : string) (err : JsError) : Handler unit :=
  trigger (ConsoleError label err).

Record World (S : Type) : Type := mkWorld {
  store : S;
  res : Response;
  next_calls : list JsError;
  console : list (string * JsError);
}.
Arguments mkWorld {S} _ _ _ _.
Arguments store {S} _.
Arguments res {S} _.
Arguments next_calls {S} _.
Arguments console {S} _.

(** The world a request meets: the store as it is, a fresh response. *)
Definition world_of {S} (s : S) : World S :=
  {| store := s; res := fresh_response; next_calls := []; console := [] |}.

(** What the client receives. *)
Definition wire {S} (w : World S) : option (nat * JsValue) := sent (res w).

Section handle.
Context {S : Type} (dbi : Interp DbOp S).

Definition handle : Interp HandlerE (World S) := λ R ev,
  match ev in HandlerE R return World S → Completion R * World S with
  | Db op => λ w,
      let '(r, s') := dbi _ op (store w) in
      (r, {| store := s'; res := res w; next_calls := next_calls w; console := console w |})
  | Res op => λ w,
      let '(r, rs') := res_exec _ op (res w) in
      (r, {| store := store w; res := rs'; next_calls := next_calls w; console := console w |})
  | Next err => λ w,
      (Normal (), {| store := store w;
                     res := (run res_exec (errorMiddleware err) (res w)).2;
                     next_calls := next_calls w ++ [err];
                     console := console w |})
  | ConsoleError label err => λ w,
      (Normal (), {| store := store w; res := res w; next_calls := next_calls w;
                     console := console w ++ [(label, err)] |})
  end.

(** A request served from store [s]: the completion of the handler and
    the world it leaves. *)
Definition serve {A} (h : Handler A) (s : S) : Completion A * World S :=
  run handle h (world_of s).

End handle.

(** Every call on the store the handler can make, whatever the calls
    before it answered, satisfies [ok]. *)
Fixpoint db_only (ok : ∀ R, DbOp R → bool) {A} (h : Handler A) : Prop :=
  match h with
  | Vis ev k =>
      match ev with Db op => ok _ op | _ => true end = true ∧ ∀ r, db_only ok (k r)
  | _ => True
  end.

(** ** Lemmas *)

Lemma res_exec_sent_mono {R} (op : ResOp R) r :
  is_Some (sent r) → sent (res_exec R op r).2 = sent r.
Proof. intros [x Hx]. destruct op; simpl; by rewrite ?Hx. Qed.

Lemma errorMiddleware_sent err r :
  sent (run res_exec (errorMiddleware err) r).2 =
  match sent r with
  | Some x => Some x
  | None =>
      Some (match statusCode err with Some (S n) => S n | _ => 500 end,
            JObj [("success", JBool false);
                  ("statusCode", JNum (Z.of_nat
                     match statusCode err with Some (S n) => S n | _ => 500 end));
                  ("message", JStr (if decide (message err = "")
                                    then "Internal server error." else message err))])
  end.
Proof. unfold errorMiddleware. simpl. by destruct (sent r). Qed.

Lemma errorMiddleware_is_Some err r :
  is_Some (sent (run res_exec (errorMiddleware err) r).2).
Proof. rewrite errorMiddleware_sent. destruct (sent r); eauto. Qed.

Section handle_lemmas.
Context {S : Type} (dbi : Interp DbOp S).

(** Once a response is on the wire, no event changes it. *)
Lemma handle_wire_mono {R} (ev : HandlerE R) (w : World S) :
  is_Some (wire w) → wire (handle dbi R ev w).2 = wire w.
Proof.
  unfold wire. intros Hw. destruct ev as [R op|R op|err|l err]; [| | |done].
  - simpl. by destruct (dbi _ op (store w)).
  - simpl. destruct (res_exec _ op (res w)) as [r rs'] eqn:E. simpl.
    by rewrite <- (res_exec_sent_mono op (res w)), E.
  - change (sent (run res_exec (errorMiddleware err) (res w)).2 = sent (res w)).
    rewrite errorMiddleware_sent. by destruct Hw as [x ->].
Qed.

Lemma run_wire_mono {A} (h : Handler A) (w : World S) :
  is_Some (wire w) → wire (run (handle dbi) h w).2 = wire w.
Proof.
  revert w. induction h as [a|e|R ev k IH]; intros w Hw; simpl; [done..|].
  destruct (handle dbi R ev w) as [r w'] eqn:E.
  assert (wire w' = wire w) as Hw' by (by rewrite <- (handle_wire_mono ev w), E).
  rewrite IH; [done|]. by rewrite Hw'.
Qed.

(** A property of the store that the permitted calls preserve holds
    after a handler that makes only permitted calls. *)
Lemma run_db_only (P : S → Prop) ok {A} (h : Handler A) (w : World S) :
  (∀ R (op : DbOp R) s, ok R op = true → P s → P (dbi R op s).2) →
  db_only ok h → P (store w) → P (store (run (handle dbi) h w).2).
Proof.
  intros Hop. revert w. induction h as [a|e|R ev k IH]; intros w Hh Hw; simpl; [done..|].
  destruct Hh as [Hev Hk]. destruct (handle dbi R ev w) as [r w'] eqn:E.
  apply IH; [done|]. replace w' with (handle dbi R ev w).2 by (by rewrite E).
  destruct ev as [R op|R op|err|l err]; simpl; [|by destruct (res_exec _ op (res w))|done..].
  specialize (Hop _ op (store w) Hev Hw). by destruct (dbi _ op (store w)).
Qed.

Lemma db_only_any {A} (h : Handler A) : db_only (λ _ _, true) h.
Proof. induction h as [a|e|R ev k IH]; simpl; [done..|]. split; [by destruct ev|done]. Qed.

(** A property of the store that every call preserves holds after every
    handler. *)
Lemma run_store_invariant (P : S → Prop) {A} (h : Handler A) (w : World S) :
  (∀ R (op : DbOp R) s, P s → P (dbi R op s).2) →
  P (store w) → P (store (run (handle dbi) h w).2).
Proof. intros Hop. apply (run_db_only P (λ _ _, true)); [auto|apply db_only_any]. Qed.

Lemma serve_db_only (P : S → Prop) ok {A} (h : Handler A) (s : S) :
  (∀ R (op : DbOp R) s, ok R op = true → P s → P (dbi R op s).2) →
  db_only ok h → P s → P (store (serve dbi h s).2).
Proof. intros Hop Hh Hs. unfold serve. by apply (run_db_only P ok). Qed.

Lemma serve_store_invariant (P : S → Prop) {A} (h : Handler A) (s : S) :
  (∀ R (op : DbOp R) s, P s → P (dbi R op s).2) →
  P s → P (store (serve dbi h s).2).
Proof. intros Hop Hs. unfold serve. by apply run_store_invariant. Qed.

End handle_lemmas.

#[export] Hint Rewrite errorMiddleware_sent : prog_rw.
