(* ===== verification/Controller.v ===== *)
(** * The category controller

    [src/api/controllers/Category.controller.js], handler by handler.
    Each definition follows its source line by line: destructuring of
    the request, the guards with their early returns, the awaited calls
    on the model, the response, and the [catch] block.

    The theorems hold for every store, whatever its calls answer.  The
    first group says that each handler completes, after six calls at
    most, and leaves exactly one response on the wire.  The second gives, branch by branch, the
    response and the store a handler leaves, from what each awaited call
    resolved to; these are the equations the later files instantiate on
    the reference collection. *)

From S2P Require Import Prelude JsValue Effects ObjectId Store Http.

(** ** Response bodies *)

(** A document as [res.json] serialises it. *)
Definition category_json (c : Category) : JsValue :=
  JObj [("_id", JStr (hex24 (_id c)));
        ("name", JStr (name c));
        ("slug", JStr (slug c))].

(** A query result: the document, or [null]. *)
Definition doc_json (o : option Category) : JsValue :=
  from_option category_json JNull o.

Arguments category_json : simpl never.
Arguments doc_json : simpl never.

(** [const { k } = req.body] *)
Definition body_field (k : string) (req : Request) : Completion JsValue :=
  js_destructure k "req.body" (body req).

Arguments body_field : simpl never.

(** ** Handlers *)

Definition addCategory (req : Request) : Handler unit :=
  try
    name ← lift (body_field "name" req);
    slug ← lift (body_field "slug" req);
    if negb (truthy name) || negb (truthy slug) then
      res_status 400;;
      res_json (JObj [("message", JStr "Name and slug are required.")])
    else
      existingCategory ← db (FindOne slug);
      if truthy (doc_json existingCategory) then
        res_status 409;;
        res_json (JObj [("message", JStr "Category slug already exists.")])
      else
        category ← db (NewCategory name slug);
        db (Save category);;
        res_status 201;;
        res_json (JObj [("message", JStr "Category added successfully.");
                        ("category", category_json category)])
  catch error =>
    console_error "Add category error:" error;;
    res_status 500;;
    res_json (JObj [("message", JStr "Internal server error.");
                    ("error", JStr (message error))]).

Definition showCategory (req : Request) : Handler unit :=
  try
    let categoryid := param "categoryid" req in
    category ← db (FindById categoryid);
    (if negb (truthy (doc_json category))
     then next (handleError 404 "Data not found.")
     else mret ());;
    res_status 200;;
    res_json (JObj [("category", doc_json category)])
  catch error =>
    next (handleError 500 (message error)).

Definition updateCategory (req : Request) : Handler unit :=
  try
    name ← lift (body_field "name" req);
    slug ← lift (body_field "slug" req);
    let categoryid := param "categoryid" req in
    category ← db (FindByIdAndUpdate categoryid name slug);
    res_status 200;;
    res_json (JObj [("success", JBool true);
                    ("message", JStr "Category updated successfully.");
                    ("category", doc_json category)])
  catch error =>
    next (handleError 500 (message error)).

Definition deleteCategory (req : Request) : Handler unit :=
  try
    let categoryid := param "categoryid" req in
    db (FindByIdAndDelete categoryid);;
    res_status 200;;
    res_json (JObj [("success", JBool true);
                    ("message", JStr "Category Deleted successfully.")])
  catch error =>
    next (handleError 500 (message error)).

Definition getAllCategory (req : Request) : Handler unit :=
  try
    category ← db FindSortByName;
    res_status 200;;
    res_json (JObj [("category", JArr (category_json <$> category))])
  catch error =>
    next (handleError 500 (message error)).

(** The five handlers by name, for statements that range over all of
    them. *)
Inductive HandlerName : Type :=
| AddCategory | ShowCategory | UpdateCategory | DeleteCategory | GetAllCategory.

#[export] Instance HandlerName_eq_dec : EqDecision HandlerName.
Proof. solve_decision. Defined.

Definition handler_of (h : HandlerName) : Request → Handler unit :=
  match h with
  | AddCategory => addCategory
  | ShowCategory => showCategory
  | UpdateCategory => updateCategory
  | DeleteCategory => deleteCategory
  | GetAllCategory => getAllCategory
  end.

(** Requests as the client builds them. *)
Definition add_request (n s : string) : Request :=
  {| body := JObj [("name", JStr n); ("slug", JStr s)]; params := [] |}.

Definition id_request (id : string) : Request :=
  {| body := JObj []; params := [("categoryid", id)] |}.

Definition update_request (id n s : string) : Request :=
  {| body := JObj [("name", JStr n); ("slug", JStr s)];
     params := [("categoryid", id)] |}.

(** The status codes a handler can answer with. *)
Definition status_codes (h : HandlerName) : list nat :=
  match h with
  | AddCategory => [201; 400; 409; 500]
  | ShowCategory => [200; 404; 500]
  | UpdateCategory | DeleteCategory | GetAllCategory => [200; 500]
  end.

(** The world after a handler that answered once with [code] and [b],
    called [next] with [errs] and left the store as [s]. *)
Definition answered {S} (s : S) (code : nat) (b : JsValue) (errs : list JsError) : World S :=
  {| store := s;
     res := {| status_code := code; sent := Some (code, b) |};
     next_calls := errs;
     console := [] |}.

(** The body the error middleware sends for [handleError code msg]. *)
Definition error_body (code : nat) (msg : string) : JsValue :=
  JObj [("success", JBool false); ("statusCode", JNum (Z.of_nat code)); ("message", JStr msg)].

(** The bodies [addCategory] sends for a category that was saved, and
    for an error it caught. *)
Definition created_body (c : Category) : JsValue :=
  JObj [("message", JStr "Category added successfully."); ("category", category_json c)].

Definition failed_body (e : JsError) : JsValue :=
  JObj [("message", JStr "Internal server error."); ("error", JStr (message e))].

(** The body of a successful update. *)
Definition updated_body (o : option Category) : JsValue :=
  JObj [("success", JBool true);
        ("message", JStr "Category updated successfully.");
        ("category", doc_json o)].

(** A store whose every call fails with [e]: the database is down. *)
Definition failing_db {S} (e : JsError) : Interp DbOp S := λ R op s, (Abrupt e, s).

(** Whether the handler gets as far as its first call on the store. *)
Definition calls_store (h : HandlerName) (req : Request) : Prop :=
  match h with
  | AddCategory =>
      ∃ n sl, body_field "name" req = Normal n ∧ body_field "slug" req = Normal sl
              ∧ truthy n = true ∧ truthy sl = true
  | _ => True
  end.

(** A collection of two categories, for the examples. *)
Definition tech_news : Category := {| _id := 0%N; name := "Tech News"; slug := "tech-news" |}.
Definition sports : Category := {| _id := 1%N; name := "Sports"; slug := "sports" |}.

Definition travel : Category := {| _id := 2%N; name := "Travel"; slug := "travel" |}.

Definition two_categories (unique : bool) : Collection :=
  {| docs := [tech_news; sports]; next_id := 2%N; unique_slug := unique |}.

(** ** Tactics *)

Ltac unfold_handlers :=
  unfold serve, handler_of, addCategory, showCategory, updateCategory,
    deleteCategory, getAllCategory in *.

(** Case analysis on what the request holds and on what each call on
    the store [dbi] answers. *)
Ltac handler_case dbi :=
  match goal with
  | |- context [dbi ?R ?op ?s] => destruct (dbi R op s) as [[?|?] ?]
  | |- context [body_field ?k ?req] => destruct (body_field k req) as [?|?]
  | |- context [truthy ?v] => destruct (truthy v) eqn:?
  end.

Ltac handler_cases dbi :=
  cbn; repeat (handler_case dbi; cbn);
  repeat match goal with u : () |- _ => destruct u end.

(** Runs a handler along the answers the hypotheses give to its calls. *)
Ltac serve_along :=
  unfold_handlers;
  repeat (progress (cbn; autorewrite with blog_rw;
    repeat match goal with
    | H : body_field _ _ = _ |- _ => rewrite H
    | H : truthy _ = _ |- _ => rewrite H
    | H : ?dbi _ _ _ = _ |- _ => rewrite H
    end)).

(** ** Lemmas *)

Lemma truthy_doc_json_Some c : truthy (doc_json (Some c)) = true.
Proof. done. Qed.

Lemma truthy_doc_json_None : truthy (doc_json None) = false.
Proof. done. Qed.

#[export] Hint Rewrite truthy_doc_json_Some truthy_doc_json_None : blog_rw.

Lemma body_field_add_request n s :
  body_field "name" (add_request n s) = Normal (JStr n)
  ∧ body_field "slug" (add_request n s) = Normal (JStr s).
Proof. done. Qed.

Lemma body_field_update_request id n s :
  body_field "name" (update_request id n s) = Normal (JStr n)
  ∧ body_field "slug" (update_request id n s) = Normal (JStr s).
Proof. done. Qed.

Lemma category_json_inj c d :
  (_id c < oid_bound)%N → (_id d < oid_bound)%N →
  category_json c = category_json d → c = d.
Proof.
  destruct c as [i n s], d as [j m t]. unfold category_json. cbn [_id name slug].
  intros Hi Hj H.
  assert (hex24 i = hex24 j ∧ n = m ∧ s = t) as (Hh & -> & ->)
    by (split_and!; congruence).
  f_equal. by apply hex24_inj.
Qed.

(** ** Theorems that hold for every store *)

Section any_store.
Context {S : Type} (dbi : Interp DbOp S).

(** Every handler completes normally, whatever the request holds and
    whatever the store answers: no rejection escapes a handler. *)
Lemma handler_completes h req s :
  (serve dbi (handler_of h req) s).1 = Normal ().
Proof. destruct h; unfold_handlers; by handler_cases dbi. Qed.

(** Every handler makes at most six calls, whatever they answer. *)
Lemma handler_calls h req s :
  calls (handle dbi) (handler_of h req) (world_of s) ≤ 6.
Proof.
  destruct h; unfold_handlers; handler_cases dbi;
    rewrite ?errorMiddleware_sent; cbn; lia.
Qed.

(** Every handler leaves a response on the wire, with one of the
    status codes of its interface, for every request and every answer
    of the store. *)
Lemma handler_responds h req s :
  ∃ code b, wire (serve dbi (handler_of h req) s).2 = Some (code, b)
            ∧ code ∈ status_codes h.
Proof.
  destruct h; unfold_handlers; handler_cases dbi;
    do 2 eexists; (split; [reflexivity|]); apply (bool_decide_unpack _); by vm_compute.
Qed.

(** C5: [addCategory] answers 400 with its message when [name] or [slug]
    is missing or falsy, and does not call the store. *)
Theorem add_missing_fields req s n sl :
  body_field "name" req = Normal n → body_field "slug" req = Normal sl →
  truthy n && truthy sl = false →
  serve dbi (addCategory req) s =
  (Normal (), answered s 400 (JObj [("message", JStr "Name and slug are required.")]) []).
Proof.
  intros Hn Hs Hf. unfold_handlers. rewrite Hn, Hs. cbn.
  by rewrite <- negb_andb, Hf.
Qed.

(** Without a parsed body the destructuring throws, and the [catch]
    block answers 500 with the message of the [TypeError]. *)
Lemma add_without_body req s :
  body req = JUndefined →
  wire (serve dbi (addCategory req) s).2 =
  Some (500, JObj [("message", JStr "Internal server error.");
                   ("error", JStr "Cannot destructure property 'name' of 'req.body' as it is undefined.")]).
Proof. intros Hb. unfold_handlers. unfold body_field. by rewrite Hb. Qed.

Section add.
Context (req : Request) (s : S) (name slug : JsValue).
Context (Hn : body_field "name" req = Normal name).
Context (Hsl : body_field "slug" req = Normal slug).
Context (Htn : truthy name = true) (Hts : truthy slug = true).

(** C1: [addCategory] with a name and a slug, when [findOne] finds no
    category with the slug and [save] resolves, answers 201 with the
    message and the document that was saved. *)
Theorem add_created s1 s2 s3 category :
  dbi _ (FindOne slug) s = (Normal None, s1) →
  dbi _ (NewCategory name slug) s1 = (Normal category, s2) →
  dbi _ (Save category) s2 = (Normal (), s3) →
  serve dbi (addCategory req) s =
  (Normal (),
   answered s3 201 (JObj [("message", JStr "Category added successfully.");
                          ("category", category_json category)]) []).
Proof. intros Hf Hc Hs. by serve_along. Qed.

(** C2: [addCategory], when [findOne] finds a category with the slug,
    answers 409 with its message and makes no other call on the
    store. *)
Theorem add_conflict s1 existingCategory :
  dbi _ (FindOne slug) s = (Normal (Some existingCategory), s1) →
  serve dbi (addCategory req) s =
  (Normal (), answered s1 409 (JObj [("message", JStr "Category slug already exists.")]) []).
Proof. intros Hf. by serve_along. Qed.

(** C27: when [save] rejects, [addCategory] logs the error and answers
    500 with the message of the error in the body. *)
Theorem add_save_fails s1 s2 s3 category error :
  dbi _ (FindOne slug) s = (Normal None, s1) →
  dbi _ (NewCategory name slug) s1 = (Normal category, s2) →
  dbi _ (Save category) s2 = (Abrupt error, s3) →
  serve dbi (addCategory req) s =
  (Normal (),
   {| store := s3;
      res := {| status_code := 500;
                sent := Some (500, JObj [("message", JStr "Internal server error.");
                                         ("error", JStr (message error))]) |};
      next_calls := [];
      console := [("Add category error:", error)] |}).
Proof. intros Hf Hc Hs. by serve_along. Qed.
End add.

Section show.
Context (req : Request) (s s1 : S).

(** [showCategory], when [findById] finds the category, answers 200
    with the document and hands nothing to [next]. *)
Theorem show_found category :
  dbi _ (FindById (param "categoryid" req)) s = (Normal (Some category), s1) →
  serve dbi (showCategory req) s =
  (Normal (), answered s1 200 (JObj [("category", category_json category)]) []).
Proof. intros Hf. by serve_along. Qed.

(** C3: [showCategory], when [findById] finds nothing, hands the 404
    error to [next], which puts 404 on the wire, and then goes on: the
    guard has no [return], so the handler sets the status again,
    [res.json] throws because the response is sent, and the [catch]
    block hands a second error, with status 500, to [next]. *)
Theorem show_not_found :
  dbi _ (FindById (param "categoryid" req)) s = (Normal None, s1) →
  serve dbi (showCategory req) s =
  (Normal (),
   {| store := s1;
      res := {| status_code := 500;
                sent := Some (404, error_body 404 "Data not found.") |};
      next_calls := [handleError 404 "Data not found.";
                     handleError 500 "Cannot set headers after they are sent to the client"];
      console := [] |}).
Proof. intros Hf. by serve_along. Qed.

(** When [findById] rejects, [showCategory] hands an error with
    status 500 and the message of the rejection to [next], once. *)
Theorem show_fails error :
  dbi _ (FindById (param "categoryid" req)) s = (Abrupt error, s1) →
  serve dbi (showCategory req) s =
  (Normal (),
   {| store := s1;
      res := (run res_exec (errorMiddleware (handleError 500 (message error)))
                fresh_response).2;
      next_calls := [handleError 500 (message error)];
      console := [] |}).
Proof. intros Hf. by serve_along. Qed.
End show.

(** C4: [updateCategory] passes the identifier, the name and the slug
    to [findByIdAndUpdate] unchecked and answers 200 with whatever the
    call resolves to, a document or [null]. *)
Theorem update_answers req s s1 name slug category :
  body_field "name" req = Normal name → body_field "slug" req = Normal slug →
  dbi _ (FindByIdAndUpdate (param "categoryid" req) name slug) s = (Normal category, s1) →
  serve dbi (updateCategory req) s =
  (Normal (), answered s1 200 (updated_body category) []).
Proof. intros Hn Hsl Hf. by serve_along. Qed.

(** [deleteCategory] answers 200 with its message whenever
    [findByIdAndDelete] resolves, whether it removed a document or
    not. *)
Theorem delete_answers req s s1 deleted :
  dbi _ (FindByIdAndDelete (param "categoryid" req)) s = (Normal deleted, s1) →
  serve dbi (deleteCategory req) s =
  (Normal (),
   answered s1 200 (JObj [("success", JBool true);
                          ("message", JStr "Category Deleted successfully.")]) []).
Proof. intros Hf. by serve_along. Qed.

(** [getAllCategory] answers 200 with the documents in the order
    the sorted query returns them. *)
Theorem getAll_answers req s s1 category :
  dbi _ FindSortByName s = (Normal category, s1) →
  serve dbi (getAllCategory req) s =
  (Normal (), answered s1 200 (JObj [("category", JArr (category_json <$> category))]) []).
Proof. intros Hf. by serve_along. Qed.

(** C12: every handler terminates: it makes at most six calls, and six
    steps take it to its end, in the world that running it gives,
    whatever the request holds and whatever the store answers. *)
Theorem handler_terminates h req s :
  calls (handle dbi) (handler_of h req) (world_of s) ≤ 6
  ∧ steps (handle dbi) 6 (handler_of h req) (world_of s) =
    (Ret (), (serve dbi (handler_of h req) s).2).
Proof.
  pose proof (handler_calls h req s) as Hc. split; [done|].
  destruct (steps_enough (handle dbi) 6 _ _ Hc) as [Hr Hw].
  fold (serve dbi (handler_of h req) s) in Hr, Hw. rewrite handler_completes in Hr.
  destruct (steps _ _ _ _) as [m w]. simpl in *. subst w.
  destruct m as [[]| |]; by simplify_eq/=.
Qed.

End any_store.

(** When the database is down, every call failing with [e], a
    handler that reaches the store answers 500 and the store is as it
    was. *)
Theorem store_failure_500 {S} e h req (s : S) :
  calls_store h req →
  ∃ b, wire (serve (failing_db e) (handler_of h req) s).2 = Some (500, b)
       ∧ store (serve (failing_db e) (handler_of h req) s).2 = s.
Proof.
  destruct h; simpl; [intros (n & sl & Hn & Hsl & Htn & Hts)|intros _..];
    unfold_handlers.
  - rewrite Hn, Hsl. cbn. rewrite Htn, Hts. cbn. eauto.
  - cbn. eauto.
  - handler_cases (@failing_db S e); eauto.
  - cbn. eauto.
  - cbn. eauto.
Qed.


(** ** The theorems at concrete requests *)

Lemma add_missing_fields_example :
  serve coll_exec (addCategory (add_request "Travel" "")) (two_categories false) =
  (Normal (), answered (two_categories false) 400
                (JObj [("message", JStr "Name and slug are required.")]) []).
Proof. by apply (add_missing_fields coll_exec _ _ (JStr "Travel") (JStr "")). Defined.

Lemma store_failure_500_example :
  ∃ b, wire (serve (failing_db (S:=Collection) HeadersSent)
               (handler_of AddCategory (add_request "Travel" "travel"))
               (two_categories false)).2 = Some (500, b)
       ∧ store (serve (failing_db HeadersSent)
                  (handler_of AddCategory (add_request "Travel" "travel"))
                  (two_categories false)).2 = two_categories false.
Proof.
  apply (store_failure_500 HeadersSent AddCategory). by exists (JStr "Travel"), (JStr "travel").
Defined.

Lemma add_created_example :
  serve coll_exec (addCategory (add_request "Travel" "travel")) (two_categories false) =
  (Normal (),
   answered {| docs := [tech_news; sports; travel]; next_id := 3%N; unique_slug := false |}
     201 (JObj [("message", JStr "Category added successfully.");
                ("category", category_json travel)]) []).
Proof.
  apply (add_created coll_exec _ _ (JStr "Travel") (JStr "travel")) with
    (s1 := two_categories false)
    (s2 := {| docs := [tech_news; sports]; next_id := 3%N; unique_slug := false |});
    by_eval.
Defined.

Lemma add_conflict_example :
  serve coll_exec (addCategory (add_request "Athletics" "sports")) (two_categories false) =
  (Normal (), answered (two_categories false) 409
                (JObj [("message", JStr "Category slug already exists.")]) []).
Proof.
  apply (add_conflict coll_exec _ _ (JStr "Athletics") (JStr "sports"))
    with (existingCategory := sports); by_eval.
Defined.

Lemma add_save_fails_example :
  serve coll_exec (addCategory (add_request "Athletics" "athletics"))
    {| docs := [sports]; next_id := 1%N; unique_slug := true |} =
  (Normal (),
   {| store := {| docs := [sports]; next_id := 2%N; unique_slug := true |};
      res := {| status_code := 500;
                sent := Some (500, JObj [("message", JStr "Internal server error.");
                                         ("error", JStr (message (DuplicateKey "_id_")))]) |};
      next_calls := [];
      console := [("Add category error:", DuplicateKey "_id_")] |}).
Proof.
  apply (add_save_fails coll_exec _ _ (JStr "Athletics") (JStr "athletics")) with
    (s1 := {| docs := [sports]; next_id := 1%N; unique_slug := true |})
    (s2 := {| docs := [sports]; next_id := 2%N; unique_slug := true |})
    (category := {| _id := 1%N; name := "Athletics"; slug := "athletics" |}); by_eval.
Defined.

(** The bound of six calls is reached: an [addCategory] whose [save]
    rejects looks the slug up, builds and saves the document, logs the
    error and sets and sends the response. *)
Lemma handler_calls_reached :
  calls (handle coll_exec) (addCategory (add_request "Athletics" "athletics"))
    (world_of {| docs := [sports]; next_id := 1%N; unique_slug := true |}) = 6.
Proof. by vm_compute. Qed.

Lemma show_found_example :
  serve coll_exec (showCategory (id_request (hex24 1%N))) (two_categories false) =
  (Normal (), answered (two_categories false) 200
                (JObj [("category", category_json sports)]) []).
Proof. apply (show_found coll_exec); by_eval. Defined.

Lemma show_not_found_example :
  serve coll_exec (showCategory (id_request (hex24 7%N))) (two_categories false) =
  (Normal (),
   {| store := two_categories false;
      res := {| status_code := 500;
                sent := Some (404, error_body 404 "Data not found.") |};
      next_calls := [handleError 404 "Data not found.";
                     handleError 500 "Cannot set headers after they are sent to the client"];
      console := [] |}).
Proof. apply (show_not_found coll_exec); by_eval. Defined.

Lemma show_fails_example :
  serve coll_exec (showCategory (id_request "42")) (two_categories false) =
  (Normal (),
   {| store := two_categories false;
      res := (run res_exec
                (errorMiddleware (handleError 500 (message (CastError "ObjectId" "_id"))))
                fresh_response).2;
      next_calls := [handleError 500 (message (CastError "ObjectId" "_id"))];
      console := [] |}).
Proof. apply (show_fails coll_exec); by_eval. Defined.

Lemma update_answers_example :
  serve coll_exec (updateCategory (update_request (hex24 7%N) "Technology" "tech"))
    (two_categories false) =
  (Normal (), answered (two_categories false) 200 (updated_body None) []).
Proof.
  apply (update_answers coll_exec) with (name := JStr "Technology") (slug := JStr "tech");
    by_eval.
Defined.

Lemma delete_answers_example :
  serve coll_exec (deleteCategory (id_request (hex24 0%N))) (two_categories false) =
  (Normal (),
   answered {| docs := [sports]; next_id := 2%N; unique_slug := false |}
     200 (JObj [("success", JBool true);
                ("message", JStr "Category Deleted successfully.")]) []).
Proof. apply (delete_answers coll_exec) with (deleted := Some tech_news); by_eval. Defined.

Lemma getAll_answers_example :
  serve coll_exec (getAllCategory (id_request "")) (two_categories false) =
  (Normal (),
   answered (two_categories false) 200
     (JObj [("category", JArr (category_json <$> [sports; tech_news]))]) []).
Proof. apply (getAll_answers coll_exec); by_eval. Defined.
