(* ===== verification/Service.v ===== *)
(** * The category service on the reference collection

    The handlers of the controller run against the reference collection
    of [Store]: what a request does to the stored categories and what it
    answers, in terms of the categories themselves.  The first part
    gives the equation of every branch; the second states what the
    specification promises of the service (sections 4.1 and 8) and
    where the code departs from it. *)

From S2P Require Import Prelude JsValue Effects ObjectId Store Http Controller.

#[local] Open Scope N_scope.

(** ** Definitions *)

(** The status codes on the wire after each request of a sequence,
    served one after the other, and the collection at the end. *)
Fixpoint serve_trace (rs : list (HandlerName * Request)) (s : Collection)
    : list (option nat) * Collection :=
  match rs with
  | [] => ([], s)
  | (h, req) :: rs' =>
      let w := (serve coll_exec (handler_of h req) s).2 in
      let '(codes, s') := serve_trace rs' (store w) in
      ((fst <$> wire w) :: codes, s')
  end.

(** The example of the specification, section 8. *)
Definition spec_example : list (HandlerName * Request) :=
  [(AddCategory, add_request "Tech News" "tech-news");
   (GetAllCategory, id_request "");
   (AddCategory, add_request "Tech News" "tech-news");
   (UpdateCategory, update_request (hex24 0%N) "Technology" "tech-news");
   (DeleteCategory, id_request (hex24 0%N));
   (ShowCategory, id_request (hex24 0%N))].

(** Symbolic execution of a handler on the reference collection: run
    the program, rewriting each call by its equation and each guard by
    the hypotheses at hand. *)
Ltac serve_simpl :=
  unfold_handlers;
  repeat (progress (cbn; autorewrite with blog_rw;
    repeat match goal with
    | H : body_field _ _ = _ |- _ => rewrite H
    | H : param _ _ = _ |- _ => rewrite H
    | H : find _ _ = _ |- _ => rewrite H
    | H : parse_oid _ = _ |- _ => rewrite H
    | H : (_ `mod` oid_bound)%N = _ |- _ => rewrite H
    end)).


(** ** Every branch of every handler, on the reference collection *)

Section add.
Context (req : Request) (s : Collection) (n sl : string).
Context (Hn : body_field "name" req = Normal (JStr n)).
Context (Hsl : body_field "slug" req = Normal (JStr sl)).
Context (Hne : n ≠ "") (Hse : sl ≠ "").

(** [addCategory] with a name and a slug no category holds stores
    the category under the next identifier and answers 201 with the
    document. *)
Lemma coll_add_created :
  sl ∉ slugs s → coll_wf s → has_supply s →
  let c := {| _id := next_id s; name := n; slug := sl |} in
  serve coll_exec (addCategory req) s =
  (Normal (),
   answered {| docs := docs s ++ [c]; next_id := next_id s + 1;
               unique_slug := unique_slug s |}
     201 (JObj [("message", JStr "Category added successfully.");
                ("category", category_json c)]) []).
Proof.
  intros Hfresh Hwf Hsup c.
  destruct (coll_wf_fresh s Hwf Hsup) as [Hmod Hid].
  pose proof (proj2 (find_has_slug_None _ _) Hfresh) as Hfind.
  by serve_simpl.
Qed.

(** [addCategory] with a slug a category holds answers 409 and
    leaves the collection as it is. *)
Lemma coll_add_conflict :
  sl ∈ slugs s →
  serve coll_exec (addCategory req) s =
  (Normal (), answered s 409 (JObj [("message", JStr "Category slug already exists.")]) []).
Proof.
  intros Hin. destruct (find (has_slug sl) (docs s)) as [c|] eqn:Hfind.
  - by serve_simpl.
  - by apply find_has_slug_None in Hfind.
Qed.

End add.

Section by_id.
Context (req : Request) (s : Collection) (id : string) (i : ObjectId).
Context (Hid : param "categoryid" req = JStr id).
Context (Hi : parse_oid id = Some i).

(** [showCategory] with the identifier of a stored category answers
    200 with the document and hands nothing to [next]. *)
Lemma coll_show_found c :
  find (has_id i) (docs s) = Some c →
  serve coll_exec (showCategory req) s =
  (Normal (), answered s 200 (JObj [("category", category_json c)]) []).
Proof. intros Hc. by serve_simpl. Qed.

(** [showCategory] with a well-formed identifier no category holds
    puts 404 on the wire, and then goes on: the guard has no [return],
    so the handler sets the status again, [res.json] throws because the
    response is sent, and the [catch] block hands a second error, with
    status 500, to [next]. *)
Lemma coll_show_not_found :
  i ∉ ids s →
  serve coll_exec (showCategory req) s =
  (Normal (),
   {| store := s;
      res := {| status_code := 500;
                sent := Some (404%nat, error_body 404 "Data not found.") |};
      next_calls := [handleError 404 "Data not found.";
                     handleError 500 "Cannot set headers after they are sent to the client"];
      console := [] |}).
Proof. intros Hc%find_has_id_None. by serve_simpl. Qed.

(** [deleteCategory] removes the category with the identifier and
    answers 200. *)
Lemma coll_delete_existing c :
  find (has_id i) (docs s) = Some c →
  serve coll_exec (deleteCategory req) s =
  (Normal (),
   answered {| docs := remove_first (has_id i) (docs s); next_id := next_id s;
               unique_slug := unique_slug s |}
     200 (JObj [("success", JBool true);
                ("message", JStr "Category Deleted successfully.")]) []).
Proof.
  intros Hc. destruct (find_has_id_Some _ _ _ Hc) as [_ Hci]. serve_simpl.
  by rewrite Hci.
Qed.

(** [deleteCategory] with an identifier no category holds answers
    200 all the same and leaves the collection as it is. *)
Lemma coll_delete_missing :
  i ∉ ids s →
  serve coll_exec (deleteCategory req) s =
  (Normal (),
   answered s 200 (JObj [("success", JBool true);
                         ("message", JStr "Category Deleted successfully.")]) []).
Proof. intros Hc%find_has_id_None. by serve_simpl. Qed.

End by_id.

(** C34: a [categoryid] that is not 24 hexadecimal digits makes the cast
    throw: [showCategory] answers 500 with the message of the cast, not
    404. *)
Theorem show_malformed_id req s id :
  param "categoryid" req = JStr id → parse_oid id = None →
  serve coll_exec (showCategory req) s =
  (Normal (),
   answered s 500 (error_body 500 "Cast to ObjectId failed at path '_id'")
     [handleError 500 "Cast to ObjectId failed at path '_id'"]).
Proof. intros Hid Hp. by serve_simpl. Qed.

Section update.
Context (req : Request) (s : Collection) (id : string) (i : ObjectId) (n sl : string).
Context (Hid : param "categoryid" req = JStr id).
Context (Hi : parse_oid id = Some i).
Context (Hn : body_field "name" req = Normal (JStr n)).
Context (Hsl : body_field "slug" req = Normal (JStr sl)).

(** C7: on a collection without the unique index, an update to the slug
    of another category succeeds and leaves two categories with the same
    slug: the invariant of the data model is broken. *)
Theorem update_duplicates_slug c d :
  unique_slug s = false → find (has_id i) (docs s) = Some c →
  d ∈ docs s → _id d ≠ i → slug d = sl →
  wire (serve coll_exec (updateCategory req) s).2
    = Some (200%nat, updated_body (Some {| _id := i; name := n; slug := sl |}))
  ∧ ¬ slugs_unique (store (serve coll_exec (updateCategory req) s).2).
Proof.
  intros Hu Hc Hd Hne Hs. destruct (find_has_id_Some _ _ _ Hc) as [_ Hci].
  serve_simpl. rewrite Hci, Hu. split; [done|].
  apply (update_first_keys_dup slug _ _ _ c); [done|]. simpl. rewrite <- Hs.
  apply list_elem_of_fmap_2, remove_first_elem_of_other; [done|].
  by apply bool_decide_eq_false_2.
Qed.

(** [updateCategory] replaces name and slug of the category with the
    identifier and answers 200 with the document as it is after the
    update, unless a unique index rejects the slug. *)
Lemma coll_update_found c :
  find (has_id i) (docs s) = Some c →
  unique_slug s = false ∨ sl ∉ slug <$> remove_first (has_id i) (docs s) →
  serve coll_exec (updateCategory req) s =
  (Normal (),
   answered {| docs := update_first (has_id i) (set_fields (Some n) (Some sl)) (docs s);
               next_id := next_id s; unique_slug := unique_slug s |}
     200 (updated_body (Some {| _id := i; name := n; slug := sl |})) []).
Proof.
  intros Hc Hok. destruct (find_has_id_Some _ _ _ Hc) as [_ Hci]. serve_simpl.
  rewrite Hci. replace (_ && _) with false; [done|].
  destruct Hok as [->|Hout]; [done|]. by rewrite bool_decide_eq_false_2, andb_false_r.
Qed.

(** [updateCategory] with an identifier no category holds answers
    200 with [category: null], not 404, and changes nothing. *)
Lemma coll_update_missing :
  i ∉ ids s →
  serve coll_exec (updateCategory req) s =
  (Normal (), answered s 200 (updated_body None) []).
Proof. intros Hc%find_has_id_None. by serve_simpl. Qed.

(** On a collection with the unique index, an update to a slug
    another category holds is rejected by the store: the handler answers
    500 with the message of the driver and the collection is as it
    was. *)
Theorem update_indexed_conflict c :
  unique_slug s = true → find (has_id i) (docs s) = Some c →
  sl ∈ slug <$> remove_first (has_id i) (docs s) →
  serve coll_exec (updateCategory req) s =
  (Normal (),
   answered s 500 (error_body 500 (message (DuplicateKey "slug_1")))
     [handleError 500 (message (DuplicateKey "slug_1"))]).
Proof.
  intros Hu Hc Hin. destruct (find_has_id_Some _ _ _ Hc) as [_ Hci]. serve_simpl.
  by rewrite Hci, Hu, bool_decide_eq_true_2.
Qed.

End update.

(** ** What the specification promises of the service *)

Section add_then.
Context (req : Request) (s : Collection) (n sl : string).
Context (Hn : body_field "name" req = Normal (JStr n)).
Context (Hsl : body_field "slug" req = Normal (JStr sl)).
Context (Hne : n ≠ "") (Hse : sl ≠ "").
Context (Hfresh : sl ∉ slugs s) (Hwf : coll_wf s) (Hsup : has_supply s).

Let c : Category := {| _id := next_id s; name := n; slug := sl |}.
Let s' : Collection := store (serve coll_exec (addCategory req) s).2.

Lemma add_then_store : s' = {| docs := docs s ++ [c]; next_id := next_id s + 1;
                         unique_slug := unique_slug s |}.
Proof. subst s'. by rewrite (coll_add_created req s n sl). Qed.

(** C24: a category that was added is retrievable: after a successful
    [addCategory], [showCategory] with the identifier of the new
    document answers 200 with that document. *)
Theorem add_then_show :
  serve coll_exec (showCategory (id_request (hex24 (next_id s)))) s' =
  (Normal (), answered s' 200 (JObj [("category", category_json c)]) []).
Proof.
  apply (coll_show_found _ _ (hex24 (next_id s)) (next_id s)); [done|by apply parse_oid_hex24|].
  rewrite add_then_store. simpl. apply (find_has_id_app (docs s) c).
  by destruct (coll_wf_fresh s Hwf Hsup).
Qed.

(** A category that was added appears in the listing: after a
    successful [addCategory], [getAllCategory] answers 200 with a list
    sorted by name that holds the new document and the documents that
    were there, each once. *)
Theorem add_then_listed :
  ∃ l, serve coll_exec (getAllCategory req) s' =
       (Normal (), answered s' 200 (JObj [("category", JArr (category_json <$> l))]) [])
       ∧ Sorted name_le l ∧ l ≡ₚ c :: docs s.
Proof.
  exists (merge_sort name_le (docs s')). split; [by serve_simpl|]. split.
  - apply (Sorted_merge_sort name_le).
  - rewrite merge_sort_Permutation, add_then_store. simpl. by rewrite Permutation_app_comm.
Qed.
End add_then.

(** C25: [getAllCategory] answers 200 with the documents of the
    collection, each once, sorted by name, whatever the order of
    insertion, and leaves the collection as it is. *)
Theorem getAll_sorted req s :
  ∃ l, serve coll_exec (getAllCategory req) s =
         (Normal (), answered s 200 (JObj [("category", JArr (category_json <$> l))]) [])
       ∧ Sorted name_le l ∧ l ≡ₚ docs s.
Proof.
  exists (merge_sort name_le (docs s)). split; [by serve_simpl|]. split.
  - apply (Sorted_merge_sort name_le).
  - apply merge_sort_Permutation.
Qed.

Section delete_then.
Context (req : Request) (s : Collection) (id : string) (i : ObjectId).
Context (Hid : param "categoryid" req = JStr id).
Context (Hi : parse_oid id = Some i).
Context (Hok : ids_ok s).

Let s' : Collection := store (serve coll_exec (deleteCategory req) s).2.

Lemma delete_gone : i ∉ ids s'.
Proof.
  subst s'. destruct (find (has_id i) (docs s)) as [c|] eqn:Hc.
  - rewrite (coll_delete_existing req s id i Hid Hi c Hc). simpl. unfold ids. simpl.
    destruct (find_has_id_Some _ _ _ Hc) as [_ <-].
    by apply (remove_first_key_gone _id).
  - apply find_has_id_None in Hc. by rewrite (coll_delete_missing req s id i).
Qed.

(** C26: [deleteCategory] is idempotent: after a delete, a second delete
    of the same identifier answers 200 again and changes nothing. *)
Theorem delete_idempotent :
  serve coll_exec (deleteCategory req) s' =
  (Normal (),
   answered s' 200 (JObj [("success", JBool true);
                          ("message", JStr "Category Deleted successfully.")]) []).
Proof. apply (coll_delete_missing req s' id i); [done..|apply delete_gone]. Qed.

(** After a delete, [showCategory] of the same identifier puts 404
    on the wire and leaves the collection as it is. *)
Theorem delete_then_show :
  wire (serve coll_exec (showCategory req) s').2 = Some (404%nat, error_body 404 "Data not found.")
  ∧ store (serve coll_exec (showCategory req) s').2 = s'.
Proof. by rewrite (coll_show_not_found req s' id i Hid Hi delete_gone). Qed.
End delete_then.

(** The example of the specification: add answers 201, the listing
    200, a second add with the same slug 409, the update 200, the delete
    200 and the show after it 404. *)
Example spec_example_trace :
  (serve_trace spec_example (empty_collection true)).1
  = [Some 201; Some 200; Some 409; Some 200; Some 200; Some 404]%nat.
Proof. by vm_compute. Qed.

(** ** The theorems at concrete requests *)

Lemma show_malformed_id_example :
  serve coll_exec (showCategory (id_request "42")) (two_categories false) =
  (Normal (),
   answered (two_categories false) 500
     (error_body 500 "Cast to ObjectId failed at path '_id'")
     [handleError 500 "Cast to ObjectId failed at path '_id'"]).
Proof. apply (show_malformed_id _ _ "42"); by_eval. Defined.

Lemma update_indexed_conflict_example :
  serve coll_exec (updateCategory (update_request (hex24 1) "Sports" "tech-news"))
    (two_categories true) =
  (Normal (),
   answered (two_categories true) 500 (error_body 500 (message (DuplicateKey "slug_1")))
     [handleError 500 (message (DuplicateKey "slug_1"))]).
Proof.
  apply (update_indexed_conflict _ _ (hex24 1) 1 "Sports" "tech-news")
    with (c := sports); by_eval.
Defined.

Lemma update_duplicates_slug_example :
  wire (serve coll_exec (updateCategory (update_request (hex24 1) "Sports" "tech-news"))
          (two_categories false)).2
    = Some (200%nat, updated_body (Some {| _id := 1; name := "Sports"; slug := "tech-news" |}))
  ∧ ¬ slugs_unique
        (store (serve coll_exec
                  (updateCategory (update_request (hex24 1) "Sports" "tech-news"))
                  (two_categories false)).2).
Proof.
  apply (update_duplicates_slug _ _ (hex24 1) 1 "Sports" "tech-news")
    with (c := sports) (d := tech_news); by_eval.
Defined.

Lemma add_then_show_example :
  serve coll_exec (showCategory (id_request (hex24 2)))
    (store (serve coll_exec (addCategory (add_request "Travel" "travel"))
              (two_categories false)).2) =
  (Normal (),
   answered (store (serve coll_exec (addCategory (add_request "Travel" "travel"))
                      (two_categories false)).2)
     200 (JObj [("category", category_json travel)]) []).
Proof.
  apply (add_then_show (add_request "Travel" "travel") (two_categories false)
           "Travel" "travel"); by_eval.
Defined.

Lemma add_then_listed_example :
  ∃ l, serve coll_exec (getAllCategory (add_request "Travel" "travel"))
         (store (serve coll_exec (addCategory (add_request "Travel" "travel"))
                   (two_categories false)).2) =
       (Normal (),
        answered (store (serve coll_exec (addCategory (add_request "Travel" "travel"))
                           (two_categories false)).2)
          200 (JObj [("category", JArr (category_json <$> l))]) [])
       ∧ Sorted name_le l ∧ l ≡ₚ travel :: [tech_news; sports].
Proof.
  apply (add_then_listed (add_request "Travel" "travel") (two_categories false)
           "Travel" "travel"); by_eval.
Defined.

Lemma delete_idempotent_example :
  serve coll_exec (deleteCategory (id_request (hex24 0)))
    (store (serve coll_exec (deleteCategory (id_request (hex24 0))) (two_categories false)).2) =
  (Normal (),
   answered
     (store (serve coll_exec (deleteCategory (id_request (hex24 0))) (two_categories false)).2)
     200 (JObj [("success", JBool true);
                ("message", JStr "Category Deleted successfully.")]) []).
Proof. apply (delete_idempotent _ _ (hex24 0) 0); by_eval. Defined.

Lemma delete_then_show_example :
  wire (serve coll_exec (showCategory (id_request (hex24 0)))
          (store (serve coll_exec (deleteCategory (id_request (hex24 0)))
                    (two_categories false)).2)).2
  = Some (404%nat, error_body 404 "Data not found.")
  ∧ store (serve coll_exec (showCategory (id_request (hex24 0)))
             (store (serve coll_exec (deleteCategory (id_request (hex24 0)))
                       (two_categories false)).2)).2
    = store (serve coll_exec (deleteCategory (id_request (hex24 0))) (two_categories false)).2.
Proof. apply (delete_then_show _ _ (hex24 0) 0); by_eval. Defined.
