(* ===== verification/Router.v ===== *)
(** * The category router

    [src/api/routes/Category.route.js]: the five routes of the category
    API, each with its method, its path pattern and the functions Express
    runs for it.  The table is the source's; how Express matches a
    request against it ([matches], [dispatch]) follows the behaviour of
    [express.Router()] with its default options: literal segments
    compare without regard to case, one trailing slash is allowed, a
    parameter [:name] takes one non-empty segment, and a [HEAD] request
    is served by the [GET] routes.  Paths are taken as the router sees
    them, without query string and without percent-escapes. *)

From Stdlib Require Import Ascii.
From S2P Require Import Prelude JsValue Effects ObjectId Store Http Controller.

(** ** Definitions *)

(** A registration [router.METHOD(path, ...handlers)]. *)
Record Route : Type := mkRoute {
  route_method : Method;
  route_path : string;
  route_handlers : list HandlerName;
}.

#[export] Instance Route_eq_dec : EqDecision Route.
Proof. solve_decision. Defined.

(** The table, in the order of registration. *)
Definition CategoryRoute : list Route :=
  [ mkRoute POST "/add" [AddCategory];
    mkRoute PUT "/update/:categoryid" [UpdateCategory];
    mkRoute GET "/show/:categoryid" [ShowCategory];
    mkRoute DELETE "/delete/:categoryid" [DeleteCategory];
    mkRoute GET "/all-category" [GetAllCategory] ].

(** Whether [c] occurs in [s]. *)
Fixpoint has_char (c : ascii) (s : string) : bool :=
  match s with
  | EmptyString => false
  | String a s' => Ascii.eqb a c || has_char c s'
  end.

(** The pieces of [s] between the occurrences of [c]: at least one. *)
Fixpoint split_on (c : ascii) (s : string) : list string :=
  match s with
  | EmptyString => [EmptyString]
  | String a s' =>
      if Ascii.eqb a c then EmptyString :: split_on c s'
      else match split_on c s' with
           | seg :: rest => String a seg :: rest
           | [] => [String a EmptyString]
           end
  end.

Definition segments (path : string) : list string := split_on "/" path.

Definition lower_ascii (a : ascii) : ascii :=
  let n := nat_of_ascii a in
  if (65 <=? n)%nat && (n <=? 90)%nat then ascii_of_nat (n + 32) else a.

Fixpoint lower (s : string) : string :=
  match s with
  | EmptyString => EmptyString
  | String a s' => String (lower_ascii a) (lower s')
  end.

(** One segment of a pattern against one segment of a path: the
    parameter it binds, if any. *)
Definition match_segment (pat seg : string) : option (list (string * string)) :=
  match pat with
  | String ":" name => if decide (seg = "") then None else Some [(name, seg)]
  | _ => if String.eqb (lower pat) (lower seg) then Some [] else None
  end.

(** The segments of a pattern against those of a path; the path may end
    in one more, empty, segment: a trailing slash. *)
Fixpoint match_segments (pats segs : list string) : option (list (string * string)) :=
  match pats, segs with
  | [], [] | [], [""] => Some []
  | pat :: pats', seg :: segs' =>
      ps ← match_segment pat seg;
      ps' ← match_segments pats' segs';
      Some (ps ++ ps')
  | _, _ => None
  end.

Definition method_matches (route request : Method) : bool :=
  bool_decide (route = request) || bool_decide (route = GET ∧ request = HEAD).

(** The parameters a route binds on a request, when it matches. *)
Definition matches (r : Route) (m : Method) (path : string) : option (list (string * string)) :=
  if method_matches (route_method r) m
  then match_segments (segments (route_path r)) (segments path)
  else None.

(** The first route of the table that matches, with its parameters. *)
Fixpoint dispatch (rs : list Route) (m : Method) (path : string)
    : option (Route * list (string * string)) :=
  match rs with
  | [] => None
  | r :: rs' =>
      match matches r m path with
      | Some ps => Some (r, ps)
      | None => dispatch rs' m path
      end
  end.

(** The functions of a route run in order; each of the controller's
    functions ends the chain, since none calls [next()] without an
    error. *)
Definition run_route (r : Route) (req : Request) : Handler unit :=
  match route_handlers r with
  | [] => mret ()
  | h :: _ => handler_of h req
  end.

(** A request to the router: the response of the route that matches, or
    nothing when none does and the request falls through. *)
Definition route_request {S} (dbi : Interp DbOp S)
    (m : Method) (path : string) (b : JsValue) (s : S)
    : option (Completion unit * World S) :=
  '(r, ps) ← dispatch CategoryRoute m path;
  Some (serve dbi (run_route r {| body := b; params := ps |}) s).

(** The names of the parameters of a pattern. *)
Definition param_names (pats : list string) : list string :=
  omap (λ pat, match pat with String ":" name => Some name | _ => None end) pats.

(** The routes with a parameter: method, literal segment, handler. *)
Definition id_routes : list (Method * string * HandlerName) :=
  [(PUT, "update", UpdateCategory); (GET, "show", ShowCategory);
   (DELETE, "delete", DeleteCategory)].

(** Whether the route reads [req.params.categoryid]. *)
Definition takes_id (r : Route) : bool :=
  bool_decide (r ∈ [mkRoute PUT "/update/:categoryid" [UpdateCategory];
                    mkRoute GET "/show/:categoryid" [ShowCategory];
                    mkRoute DELETE "/delete/:categoryid" [DeleteCategory]]).

Arguments matches : simpl never.

(** Evaluates the segments of the patterns of the table. *)
Ltac eval_patterns :=
  repeat match goal with
  | H : context [segments (route_path ?r)] |- _ =>
      let v := eval vm_compute in (segments (route_path r)) in
      change (segments (route_path r)) with v in H
  end.

(** ** Lemmas *)

Lemma split_on_cons c s : ∃ seg rest, split_on c s = seg :: rest.
Proof.
  induction s as [|a s (seg & rest & IH)]; simpl; [by eauto|].
  destruct (Ascii.eqb a c); [by eauto|]. rewrite IH. eauto.
Qed.

(** A prefix without the separator stays in the first piece. *)
Lemma split_on_app c p s :
  has_char c p = false →
  split_on c (p +:+ s) =
  match split_on c s with seg :: rest => (p +:+ seg) :: rest | [] => [p] end.
Proof.
  induction p as [|a p IH]; rewrite ?string_app_nil_l, ?string_app_cons; simpl.
  - intros _. by destruct (split_on_cons c s) as (seg & rest & ->).
  - intros [Ha Hp]%orb_false_elim. rewrite Ha, (IH Hp).
    by destruct (split_on_cons c s) as (seg & rest & ->).
Qed.

Lemma split_on_none c p : has_char c p = false → split_on c p = [p].
Proof.
  intros Hp. pose proof (split_on_app c p EmptyString Hp) as H.
  simpl in H. by rewrite !string_app_nil_r in H.
Qed.

(** The segments of [/lit/id]. *)
Lemma segments_lit_id lit id :
  has_char "/" lit = false → has_char "/" id = false →
  segments ("/" +:+ lit +:+ "/" +:+ id) = [EmptyString; lit; id].
Proof.
  intros Hl Hi. unfold segments. rewrite string_app_cons, string_app_nil_l. simpl.
  rewrite (split_on_app _ lit) by done. rewrite string_app_cons, string_app_nil_l. simpl.
  by rewrite string_app_nil_r, (split_on_none _ id).
Qed.

Lemma match_segment_param name seg :
  seg ≠ EmptyString → match_segment (String ":" name) seg = Some [(name, seg)].
Proof. intros H. simpl. by rewrite decide_False. Qed.

(** Every piece is free of the separator. *)
Lemma split_on_has_char c s seg : seg ∈ split_on c s → has_char c seg = false.
Proof.
  revert seg. induction s as [|a s IH]; simpl; intros seg.
  - by intros ->%list_elem_of_singleton.
  - destruct (Ascii.eqb a c) eqn:Ha.
    + rewrite elem_of_cons. intros [->|?]; [done|auto].
    + destruct (split_on_cons c s) as (seg' & rest & Hs). rewrite Hs in *.
      rewrite elem_of_cons. intros [->|?]; simpl.
      * rewrite Ha. apply IH. by left.
      * apply IH. by right.
Qed.

Lemma matches_segments r m path segs :
  segments path = segs →
  matches r m path =
  if method_matches (route_method r) m
  then match_segments (segments (route_path r)) segs else None.
Proof. by intros <-. Qed.

Lemma dispatch_Some rs m path r ps :
  dispatch rs m path = Some (r, ps) → r ∈ rs ∧ matches r m path = Some ps.
Proof.
  induction rs as [|r' rs IH]; simpl; [done|].
  destruct (matches r' m path) as [ps'|] eqn:E.
  - intros [= <- <-]. split; [by left|done].
  - intros [? ?]%IH. split; [by right|done].
Qed.

Lemma match_segments_length pats segs ps :
  match_segments pats segs = Some ps →
  length segs = length pats
  ∨ (length segs = S (length pats) ∧ segs !! length pats = Some EmptyString).
Proof.
  revert segs ps. induction pats as [|pat pats IH]; intros [|seg segs] ps; simpl; try done.
  - by left.
  - destruct seg; [|done]. destruct segs; [|done]. by right.
  - destruct (match_segment pat seg); [|done]. simpl.
    destruct (match_segments pats segs) as [ps'|] eqn:E; [|done]. intros _.
    destruct (IH _ _ E) as [->|[-> ?]]; auto.
Qed.

Lemma match_segments_param pats segs ps i name seg :
  match_segments pats segs = Some ps →
  pats !! i = Some (String ":" name) → segs !! i = Some seg → seg ≠ EmptyString.
Proof.
  revert segs ps i. induction pats as [|pat pats IH]; intros [|seg' segs] ps [|i]; simpl;
    try done.
  - intros H [= ->] [= ->]. simpl in H. by case_decide.
  - destruct (match_segment pat seg'); [|done]. simpl.
    destruct (match_segments pats segs) as [ps'|] eqn:E; [|done]. intros _. by apply IH with ps'.
Qed.

Lemma method_matches_inj a b m :
  method_matches a m = true → method_matches b m = true → b ≠ HEAD → a ≠ HEAD → a = b.
Proof. destruct a, b, m; try done; by vm_compute. Qed.

(** Routes of the table that match the same request are the same route. *)
Lemma CategoryRoute_unambiguous r1 r2 m path ps1 ps2 :
  r1 ∈ CategoryRoute → r2 ∈ CategoryRoute →
  matches r1 m path = Some ps1 → matches r2 m path = Some ps2 → r1 = r2.
Proof.
  unfold matches. intros Hr1 Hr2.
  destruct (method_matches (route_method r1) m) eqn:Hm1; [|done].
  destruct (method_matches (route_method r2) m) eqn:Hm2; [|done].
  intros H1 H2.
  unfold CategoryRoute in *. rewrite !elem_of_cons, !elem_of_nil in Hr1, Hr2.
  destruct_or!; simplify_eq; try done; try (by destruct m).
  all: pose proof (match_segments_length _ _ _ H1) as Hl1.
  all: pose proof (match_segments_length _ _ _ H2) as Hl2.
  all: pose proof (λ i n seg, match_segments_param _ _ _ i n seg H1) as Hp1.
  all: pose proof (λ i n seg, match_segments_param _ _ _ i n seg H2) as Hp2.
  all: clear H1 H2; eval_patterns; simpl in Hl1, Hl2.
  all: destruct Hl1 as [Hl1|[Hl1 Hs1]], Hl2 as [Hl2|[Hl2 Hs2]]; try congruence.
  - by destruct (Hp2 2 "categoryid" _ eq_refl Hs1).
  - by destruct (Hp1 2 "categoryid" _ eq_refl Hs2).
Qed.

Lemma dispatch_complete rs m path r ps :
  (∀ r1 r2 ps1 ps2, r1 ∈ rs → r2 ∈ rs →
     matches r1 m path = Some ps1 → matches r2 m path = Some ps2 → r1 = r2) →
  r ∈ rs → matches r m path = Some ps → dispatch rs m path = Some (r, ps).
Proof.
  induction rs as [|r' rs IH]; [by intros _ ?%elem_of_nil|].
  intros Hun Hr Hm. simpl. destruct (matches r' m path) as [ps'|] eqn:E.
  - assert (r' = r) as -> by (eapply Hun; [by left|done..]). congruence.
  - apply elem_of_cons in Hr as [->|Hr]; [congruence|].
    apply IH; [|done..]. intros r1 r2 ps1 ps2 ??. apply Hun; by right.
Qed.

(** The parameters a match binds: the names of the pattern, each to a
    non-empty segment of the path. *)
Lemma match_segment_params pat seg ps :
  match_segment pat seg = Some ps →
  ps.*1 = param_names [pat] ∧ Forall (λ kv, kv.2 = seg ∧ seg ≠ "") ps.
Proof.
  unfold match_segment, param_names. intros H.
  repeat (case_match; simplify_eq/=; try done); by repeat constructor.
Qed.

Lemma match_segments_params pats segs ps :
  match_segments pats segs = Some ps →
  ps.*1 = param_names pats ∧ Forall (λ kv, kv.2 ∈ segs ∧ kv.2 ≠ "") ps.
Proof.
  revert segs ps. induction pats as [|pat pats IH]; intros [|seg segs] ps; simpl; try done.
  - by intros [= <-].
  - destruct seg; [|done]. destruct segs; [|done]. by intros [= <-].
  - destruct (match_segment pat seg) as [ps1|] eqn:E1; [|done]. simpl.
    destruct (match_segments pats segs) as [ps2|] eqn:E2; [|done]. simpl. intros [= <-].
    destruct (match_segment_params _ _ _ E1) as [Hn1 Hv1], (IH _ _ E2) as [Hn2 Hv2].
    split.
    + rewrite fmap_app, Hn1, Hn2. unfold param_names. simpl. by case_match.
    + apply Forall_app. split.
      * eapply Forall_impl; [done|]. intros kv [-> ?]. split; [by left|done].
      * eapply Forall_impl; [done|]. intros kv [? ?]. split; [by right|done].
Qed.

(** Every route of the table runs one function, a handler of the
    controller: nothing stands between the router and the handler. *)
Lemma CategoryRoute_handlers r :
  r ∈ CategoryRoute → ∃ h, route_handlers r = [h] ∧ run_route r = handler_of h.
Proof.
  unfold CategoryRoute. rewrite !elem_of_cons, elem_of_nil.
  intros H; destruct_or!; simplify_eq; try done; by eexists.
Qed.

(** ** Theorems *)

(** C28: a request is dispatched to a route exactly when the route is in
    the table and matches it: no request matches two routes, so the
    order of registration does not matter. *)
Theorem dispatch_unambiguous m path r ps :
  dispatch CategoryRoute m path = Some (r, ps)
  ↔ r ∈ CategoryRoute ∧ matches r m path = Some ps.
Proof.
  split; [apply dispatch_Some|]. intros [Hr Hm].
  apply dispatch_complete; [|done..]. intros r1 r2 ps1 ps2. apply CategoryRoute_unambiguous.
Qed.

(** [PUT /update/id], [GET /show/id] and [DELETE /delete/id] reach
    their handler with [id] as [req.params.categoryid], for every
    non-empty [id] without a slash. *)
Theorem dispatch_id_routes m lit h id :
  (m, lit, h) ∈ id_routes → id ≠ "" → has_char "/" id = false →
  dispatch CategoryRoute m ("/" +:+ lit +:+ "/" +:+ id) =
  Some (mkRoute m ("/" +:+ lit +:+ "/:categoryid") [h], [("categoryid", id)]).
Proof.
  unfold id_routes. rewrite !elem_of_cons, elem_of_nil. intros Hr Hid Hsl.
  destruct_or!; simplify_eq; try done; unfold CategoryRoute, dispatch;
    match goal with
    | |- context [matches _ _ ("/" +:+ ?l +:+ "/" +:+ id)] =>
        rewrite !(matches_segments _ _ _ _ (segments_lit_id l id eq_refl Hsl))
    end; cbn; by rewrite decide_False.
Qed.

(** C29: the parameters of a dispatched request are those of its route:
    one non-empty [categoryid] without a slash for the routes that read
    it, none for the others.  A handler behind the router never sees an
    undefined [categoryid]. *)
Theorem dispatch_params m path r ps :
  dispatch CategoryRoute m path = Some (r, ps) →
  if takes_id r
  then ∃ id, ps = [("categoryid", id)] ∧ id ≠ "" ∧ has_char "/" id = false
  else ps = [].
Proof.
  intros [Hr Hm]%dispatch_Some. unfold matches in Hm.
  destruct (method_matches _ _); [|done].
  apply match_segments_params in Hm as [Hn Hv].
  unfold CategoryRoute in Hr. rewrite !elem_of_cons, elem_of_nil in Hr.
  destruct_or!; simplify_eq; try done; vm_compute in Hn.
  all: try (by destruct ps).
  all: destruct ps as [|[k id] [|]]; simplify_eq/=.
  all: apply Forall_singleton in Hv as [Hin Hne]; exists id; split_and!; [done..|].
  all: by eapply split_on_has_char.
Qed.

(** C6: a request that matches a route is answered: the handler
    completes and leaves one response on the wire, with a status code of
    its interface, whatever the store answers.  A request that matches
    no route falls through. *)
Theorem route_request_answered {S} (dbi : Interp DbOp S) m path b s :
  match route_request dbi m path b s with
  | Some (c, w) =>
      c = Normal () ∧
      ∃ r ps h code body,
        dispatch CategoryRoute m path = Some (r, ps) ∧ route_handlers r = [h] ∧
        wire w = Some (code, body) ∧ code ∈ status_codes h
  | None => dispatch CategoryRoute m path = None
  end.
Proof.
  unfold route_request. destruct (dispatch CategoryRoute m path) as [[r ps]|] eqn:Hd; [|done].
  simpl. apply dispatch_Some in Hd as Hr. destruct Hr as [Hr _].
  destruct (CategoryRoute_handlers r Hr) as (h & Hh & ->).
  pose proof (handler_completes dbi h {| body := b; params := ps |} s) as Hc.
  destruct (handler_responds dbi h {| body := b; params := ps |} s) as (code & body & ? & ?).
  destruct (serve dbi _ s) as [c w]. split; [done|]. by exists r, ps, h, code, body.
Qed.

(** ** The theorems at concrete requests *)

Lemma dispatch_id_routes_example :
  dispatch CategoryRoute PUT ("/" +:+ "update" +:+ "/" +:+ "42") =
  Some (mkRoute PUT ("/" +:+ "update" +:+ "/:categoryid") [UpdateCategory],
        [("categoryid", "42")]).
Proof. apply dispatch_id_routes; by_eval. Defined.

Lemma dispatch_params_example :
  if takes_id (mkRoute GET "/show/:categoryid" [ShowCategory])
  then ∃ id, [("categoryid", "Abc")] = [("categoryid", id)] ∧ id ≠ ""
             ∧ has_char "/" id = false
  else [("categoryid", "Abc")] = [].
Proof. apply (dispatch_params HEAD "/SHOW/Abc/"). by_eval. Defined.
