(* ===== verification/Invariants.v ===== *)
(** * Invariants of the collection under the handlers

    What the handlers keep true of the collection, handler by handler and
    for every collection that can be reached from the empty one by
    serving requests.  Identifiers stay distinct under every handler.
    Slugs stay distinct under every handler but [updateCategory], which
    checks nothing; with the unique index the store itself refuses the
    duplicate, without it a sequence of three requests leaves two
    categories with one slug. *)

From S2P Require Import Prelude JsValue Effects ObjectId Store Http Controller.

#[local] Open Scope N_scope.

(** ** Definitions *)

(** What [addCategory] can do to the collection: nothing but use up an
    identifier, or append one document with a name, a slug no other
    document holds, and the identifier that was next. *)
Definition add_outcome (s s' : Collection) : Prop :=
  unique_slug s' = unique_slug s ∧
  ((docs s' = docs s ∧ (next_id s' = next_id s ∨ next_id s' = (next_id s + 1))) ∨
   ∃ n sl, n ≠ "" ∧ sl ≠ "" ∧ (sl ∉ slugs s) ∧ ((next_id s `mod` oid_bound) ∉ ids s) ∧
     docs s' = docs s ++ [{| _id := (next_id s `mod` oid_bound); name := n; slug := sl |}] ∧
     next_id s' = (next_id s + 1)).

(** The collections the handlers can reach from the empty one. *)
Inductive reachable (unique : bool) : Collection → Prop :=
| reach_empty : reachable unique (empty_collection unique)
| reach_serve s h req :
    reachable unique s →
    reachable unique (store (serve coll_exec (handler_of h req) s).2).

(** The collection after a sequence of requests, served one after the
    other. *)
Definition serve_all (rs : list (HandlerName * Request)) (s : Collection) : Collection :=
  foldl (λ s' r, store (serve coll_exec (handler_of r.1 r.2) s').2) s rs.

(** Three requests: two categories, then the second takes the slug of the first. *)
Definition duplicate_slug_requests : list (HandlerName * Request) :=
  [(AddCategory, add_request "Tech News" "tech-news");
   (AddCategory, add_request "Sports" "sports");
   (UpdateCategory, update_request (hex24 1) "Sports" "tech-news")].


(** The calls of a handler, path by path. *)
Ltac solve_db_only :=
  unfold_handlers; cbn;
  repeat first
    [ done | split | intros [?|?] | progress cbn | case_match
    | match goal with
      | |- context [body_field ?k ?req] => destruct (body_field k req)
      end ].

(** ** Handler by handler *)

Lemma removing_handlers h req :
  h ≠ AddCategory → h ≠ UpdateCategory → db_only (@removes_only) (handler_of h req).
Proof. destruct h; try done; intros _ _; solve_db_only. Qed.

Lemma reading_handlers h req :
  h = ShowCategory ∨ h = GetAllCategory → db_only (@read_only) (handler_of h req).
Proof. intros [-> | ->]; solve_db_only. Qed.

Lemma not_inserting_handlers h req :
  h ≠ AddCategory → db_only (@no_insert) (handler_of h req).
Proof. destruct h; try done; intros _; solve_db_only. Qed.

Lemma add_store_outcome req s :
  add_outcome s (store (serve coll_exec (addCategory req) s).2).
Proof.
  unfold_handlers. unfold add_outcome.
  destruct (body_field "name" req) as [nv|]; [|by auto].
  destruct (body_field "slug" req) as [sv|]; [|by auto]. cbn.
  destruct (truthy nv), (truthy sv); try by auto. cbn.
  destruct sv as [| | | |sv| |]; try by auto. autorewrite with blog_rw. cbn.
  destruct (find (has_slug sv) (docs s)) eqn:Hf; autorewrite with blog_rw; cbn; [by auto|].
  destruct nv as [| | | |nv| |]; try by auto. autorewrite with blog_rw. cbn.
  apply find_has_slug_None in Hf.
  match goal with |- context [save ?c ?s] =>
    destruct (save_outcome c s) as [-> | [-> | [-> | [-> | (?&?&?& ->)]]]] end;
    cbn; (split; [done|]); eauto 12.
Qed.

Lemma serve_shrinks h req s :
  h ≠ AddCategory → h ≠ UpdateCategory →
  shrinks_to s (store (serve coll_exec (handler_of h req) s).2).
Proof.
  intros H1 H2. apply (serve_db_only coll_exec (shrinks_to s) (@removes_only)).
  - intros R op s' Hop Hs. etrans; [done|]. by apply coll_exec_removes_only.
  - by apply removing_handlers.
  - done.
Qed.

(** [showCategory] and [getAllCategory] leave the collection as it was,
    whatever the request. *)
Theorem readers_keep_store h req s :
  h = ShowCategory ∨ h = GetAllCategory →
  store (serve coll_exec (handler_of h req) s).2 = s.
Proof.
  intros Hh. apply (serve_db_only coll_exec (λ s', s' = s) (@read_only)).
  - intros R op s' Hop ->. by apply coll_exec_read_only.
  - by apply reading_handlers.
  - done.
Qed.

Lemma add_slugs_unique req s :
  slugs_unique s → slugs_unique (store (serve coll_exec (addCategory req) s).2).
Proof.
  intros Hs. destruct (add_store_outcome req s) as [_ [[Hd _]|(n & sl & _ & _ & Hsl & _ & Hd & _)]];
    unfold slugs_unique, slugs; rewrite Hd; [done|].
  rewrite fmap_app. apply NoDup_app. split_and!; [done| |apply NoDup_singleton].
  by intros ? ? ->%list_elem_of_singleton.
Qed.

Lemma add_fields_present req s :
  fields_present s → fields_present (store (serve coll_exec (addCategory req) s).2).
Proof.
  intros Hs. destruct (add_store_outcome req s) as [_ [[Hd _]|(n & sl & ? & ? & _ & _ & Hd & _)]];
    unfold fields_present; rewrite Hd; [done|].
  apply Forall_app. split; [done|]. by apply Forall_singleton.
Qed.

Lemma add_coll_wf req s :
  coll_wf s → (next_id (store (serve coll_exec (addCategory req) s).2) ≤ oid_bound) →
  coll_wf (store (serve coll_exec (addCategory req) s).2).
Proof.
  intros Hwf. destruct (add_store_outcome req s) as [Hu [[Hd Hn]|(n & sl & _ & _ & _ & Hi & Hd & Hn)]];
    destruct (store _) as [d' n' u']; simpl in *; subst.
  - intros Hb. destruct Hwf as [Hi [Hlt Hb']]. split; [done|]. split; [|done]. simpl.
    eapply Forall_impl; [done|]. simpl. destruct Hn; lia.
  - intros Hb. assert (has_supply s) as Hsup by (unfold has_supply; lia).
    destruct (coll_wf_fresh s Hwf Hsup) as [Hmod _]. rewrite Hmod.
    by apply coll_wf_insert.
Qed.

(** C32: every handler other than [updateCategory] keeps the slugs pairwise
    distinct, with or without the unique index: [addCategory] inserts
    only a slug that [findOne] did not find, the others insert nothing. *)
Theorem handler_preserves_slugs_unique h req s :
  h ≠ UpdateCategory → slugs_unique s →
  slugs_unique (store (serve coll_exec (handler_of h req) s).2).
Proof.
  intros Hh Hs. destruct (decide (h = AddCategory)) as [->|Ha].
  - by apply add_slugs_unique.
  - eapply shrinks_to_slugs_unique; [by apply serve_shrinks|done].
Qed.

(** Every handler other than [updateCategory] keeps name and slug of
    every document non-empty. *)
Theorem handler_preserves_fields_present h req s :
  h ≠ UpdateCategory → fields_present s →
  fields_present (store (serve coll_exec (handler_of h req) s).2).
Proof.
  intros Hh Hs. destruct (decide (h = AddCategory)) as [->|Ha].
  - by apply add_fields_present.
  - eapply shrinks_to_fields_present; [by apply serve_shrinks|done].
Qed.

(** ** Reachable collections *)

Lemma serve_ids_ok h req s :
  ids_ok s → ids_ok (store (serve coll_exec (handler_of h req) s).2).
Proof. apply (serve_store_invariant coll_exec ids_ok). intros R. apply coll_exec_ids_ok. Qed.

Lemma serve_unique_slug h req s :
  unique_slug (store (serve coll_exec (handler_of h req) s).2) = unique_slug s.
Proof.
  apply (serve_store_invariant coll_exec (λ s', unique_slug s' = unique_slug s)); [|done].
  intros R op s' <-. apply coll_exec_unique_slug.
Qed.

Lemma serve_next_id_mono h req s :
  next_id s ≤ next_id (store (serve coll_exec (handler_of h req) s).2).
Proof.
  apply (serve_store_invariant coll_exec (λ s', next_id s ≤ next_id s')); [|done].
  intros R op s' Hs. etrans; [done|]. apply coll_exec_next_id_mono.
Qed.

Lemma serve_no_insert h req s :
  h ≠ AddCategory → coll_wf s →
  coll_wf (store (serve coll_exec (handler_of h req) s).2)
  ∧ next_id (store (serve coll_exec (handler_of h req) s).2) = next_id s.
Proof.
  intros Hh Hwf.
  apply (serve_db_only coll_exec (λ s', coll_wf s' ∧ next_id s' = next_id s) (@no_insert));
    [|by apply not_inserting_handlers|done].
  intros R op s' Hop [Hwf' <-]. by apply coll_exec_no_insert.
Qed.

Lemma serve_coll_wf h req s :
  coll_wf s → next_id (store (serve coll_exec (handler_of h req) s).2) ≤ oid_bound →
  coll_wf (store (serve coll_exec (handler_of h req) s).2).
Proof.
  intros Hwf Hb. destruct (decide (h = AddCategory)) as [->|Ha]; [by apply add_coll_wf|].
  by apply serve_no_insert.
Qed.

(** A request uses up one identifier at most. *)
Lemma serve_next_id_step h req s :
  coll_wf s → next_id (store (serve coll_exec (handler_of h req) s).2) ≤ next_id s + 1.
Proof.
  intros Hwf. destruct (decide (h = AddCategory)) as [->|Ha].
  - destruct (add_store_outcome req s) as [_ [[_ [Hn|Hn]]|(?&?&?&?&?&?&?& Hn)]];
      simpl in *; lia.
  - destruct (serve_no_insert h req s Ha Hwf) as [_ Hn]. lia.
Qed.

(** Every collection the handlers reach from the empty one has
    pairwise distinct identifiers. *)
Theorem reachable_ids_ok u s : reachable u s → ids_ok s.
Proof. induction 1; [apply NoDup_nil_2|by apply serve_ids_ok]. Qed.

Lemma reachable_unique_slug u s : reachable u s → unique_slug s = u.
Proof. induction 1; [done|by rewrite serve_unique_slug]. Qed.


(** Every reachable collection whose counter has not passed the bound
    of identifiers is well formed: identifiers distinct, below the
    counter and below the bound. *)
Theorem reachable_coll_wf u s : reachable u s → next_id s ≤ oid_bound → coll_wf s.
Proof.
  induction 1 as [|s h req H IH]; [intros _; apply coll_wf_empty|]. intros Hb.
  apply serve_coll_wf; [|done]. apply IH. etrans; [apply (serve_next_id_mono h req)|done].
Qed.

Lemma serve_all_reachable u rs s : reachable u s → reachable u (serve_all rs s).
Proof.
  revert s. induction rs as [|[h req] rs IH]; intros s Hs; [done|].
  simpl. apply IH. by constructor.
Qed.

(** Without the unique index, three requests (add, add, update) reach
    a collection in which two categories share the slug
    [tech-news]: [updateCategory] checks nothing. *)
Theorem plain_duplicate_reachable :
  reachable false (serve_all duplicate_slug_requests (empty_collection false))
  ∧ ¬ slugs_unique (serve_all duplicate_slug_requests (empty_collection false)).
Proof.
  split; [apply serve_all_reachable; constructor|]. unfold slugs_unique.
  assert (slugs (serve_all duplicate_slug_requests (empty_collection false))
          = ["tech-news"; "tech-news"]) as -> by (by vm_compute).
  rewrite NoDup_cons. intros [Hin _]. apply Hin. by left.
Qed.


(** ** The theorems at concrete requests *)

Lemma readers_keep_store_example :
  store (serve coll_exec (handler_of ShowCategory (id_request "42")) (two_categories true)).2
  = two_categories true.
Proof. apply readers_keep_store. by left. Defined.

Lemma handler_preserves_slugs_unique_example :
  slugs_unique (store (serve coll_exec (handler_of AddCategory (add_request "Athletics" "sports"))
                         (two_categories false)).2).
Proof. apply handler_preserves_slugs_unique; by_eval. Defined.

Lemma handler_preserves_fields_present_example :
  fields_present (store (serve coll_exec (handler_of DeleteCategory (id_request (hex24 0)))
                           (two_categories false)).2).
Proof. apply handler_preserves_fields_present; by_eval. Defined.

Lemma reachable_ids_ok_example :
  ids_ok (serve_all duplicate_slug_requests (empty_collection false)).
Proof. apply (reachable_ids_ok false), serve_all_reachable. constructor. Defined.


Lemma reachable_coll_wf_example :
  coll_wf (serve_all duplicate_slug_requests (empty_collection false)).
Proof.
  apply (reachable_coll_wf false); [apply serve_all_reachable; constructor|by_eval].
Defined.
