(* ===== verification/Catalog.v ===== *)
(** * The service as the specification states it

    Section 4.1 of the specification describes the category service by
    five operations on a set of categories, each identified by its [id]:
    add, get, update, delete and list.  This file states that
    description as a relation [spec_step] on finite maps from
    identifiers to name and slug, and proves that the controller on the
    reference collection refines it: for every call the specification
    covers, the response on the wire encodes a reply the specification
    allows, and the collection after the request represents the map the
    specification gives.

    The specification does not say what an update of an unknown
    identifier answers, and says of an update to a taken slug both that
    it is not checked (section 4.1) and that the store enforces unique
    slugs (section 3); [specified] leaves these calls out, and the
    theorems of [Service] say what the code does with them. *)

From stdpp Require Import gmap.
From S2P Require Import Prelude JsValue Effects ObjectId Store Http Controller.
From S2P Require Import Service Invariants.

#[local] Open Scope N_scope.

(** ** The abstract service *)

(** The categories: name and slug by identifier. *)
Abbreviation Catalog := (gmap ObjectId (string * string)).

Inductive Call : Type :=
| CallAdd (n sl : string)
| CallGet (i : ObjectId)
| CallUpdate (i : ObjectId) (n sl : string)
| CallDelete (i : ObjectId)
| CallList.

Inductive Reply : Type :=
| Created (c : Category)
| Invalid
| Conflict
| Found (c : Category)
| NotFound
| Updated (c : Category)
| Deleted
| Listed (cs : list Category).

Definition entry (c : Category) : ObjectId * (string * string) :=
  (_id c, (name c, slug c)).

(** The slug is held by a category of the catalog. *)
Definition slug_taken (sl : string) (m : Catalog) : Prop :=
  ∃ i n, m !! i = Some (n, sl).

(** The operations of section 4.1: the catalog before, the call, the
    reply and the catalog after.  The identifier of a new category is
    any identifier not in use. *)
Inductive spec_step : Catalog → Call → Reply → Catalog → Prop :=
| spec_add_invalid m n sl :
    n = "" ∨ sl = "" →
    spec_step m (CallAdd n sl) Invalid m
| spec_add_conflict m n sl :
    n ≠ "" → sl ≠ "" → slug_taken sl m →
    spec_step m (CallAdd n sl) Conflict m
| spec_add_created m n sl i :
    n ≠ "" → sl ≠ "" → ¬ slug_taken sl m → m !! i = None →
    spec_step m (CallAdd n sl) (Created {| _id := i; name := n; slug := sl |})
      (<[i := (n, sl)]> m)
| spec_get_found m i n sl :
    m !! i = Some (n, sl) →
    spec_step m (CallGet i) (Found {| _id := i; name := n; slug := sl |}) m
| spec_get_missing m i :
    m !! i = None →
    spec_step m (CallGet i) NotFound m
| spec_update m i n sl :
    is_Some (m !! i) →
    spec_step m (CallUpdate i n sl) (Updated {| _id := i; name := n; slug := sl |})
      (<[i := (n, sl)]> m)
| spec_delete m i :
    spec_step m (CallDelete i) Deleted (delete i m)
| spec_list m cs :
    entry <$> cs ≡ₚ map_to_list m → Sorted name_le cs →
    spec_step m CallList (Listed cs) m.

(** A sequence of calls with their replies. *)
Inductive spec_steps : Catalog → list (Call * Reply) → Catalog → Prop :=
| spec_steps_nil m : spec_steps m [] m
| spec_steps_cons m1 m2 m3 call reply rest :
    spec_step m1 call reply m2 → spec_steps m2 rest m3 →
    spec_steps m1 ((call, reply) :: rest) m3.

(** ** The implementation *)

(** The catalog a collection represents. *)
Definition catalog (s : Collection) : Catalog := list_to_map (entry <$> docs s).

(** The request that makes a call, as the route table and the client
    put it. *)
Definition call_request (call : Call) : HandlerName * Request :=
  match call with
  | CallAdd n sl => (AddCategory, add_request n sl)
  | CallGet i => (ShowCategory, id_request (hex24 i))
  | CallUpdate i n sl => (UpdateCategory, update_request (hex24 i) n sl)
  | CallDelete i => (DeleteCategory, id_request (hex24 i))
  | CallList => (GetAllCategory, {| body := JUndefined; params := [] |})
  end.

(** The status code and the body that carry a reply. *)
Definition encode_reply (r : Reply) : nat * JsValue :=
  match r with
  | Created c => (201, created_body c)
  | Invalid => (400, JObj [("message", JStr "Name and slug are required.")])
  | Conflict => (409, JObj [("message", JStr "Category slug already exists.")])
  | Found c => (200, JObj [("category", category_json c)])
  | NotFound => (404, error_body 404 "Data not found.")
  | Updated c => (200, updated_body (Some c))
  | Deleted => (200, JObj [("success", JBool true);
                           ("message", JStr "Category Deleted successfully.")])
  | Listed cs => (200, JObj [("category", JArr (category_json <$> cs))])
  end%nat.

(** The calls the specification covers, on a collection: identifiers
    are 96 bits wide, an update names a category that exists, and its
    slug is free where the store enforces unique slugs. *)
Definition specified (s : Collection) (call : Call) : Prop :=
  match call with
  | CallAdd _ _ | CallList => True
  | CallGet i | CallDelete i => i < oid_bound
  | CallUpdate i n sl =>
      i < oid_bound ∧ i ∈ ids s
      ∧ (unique_slug s = true → sl ∉ slug <$> remove_first (has_id i) (docs s))
  end.

#[export] Instance specified_dec s call : Decision (specified s call).
Proof. destruct call; simpl; apply _. Defined.

(** The collection after the request that makes the call. *)
Definition after_call (call : Call) (s : Collection) : World Collection :=
  (serve coll_exec (handler_of (call_request call).1 (call_request call).2) s).2.

(** The collection after a sequence of calls, with the replies on the
    wire. *)
Fixpoint run_calls (calls : list Call) (s : Collection)
    : list (option (nat * JsValue)) * Collection :=
  match calls with
  | [] => ([], s)
  | call :: rest =>
      let w := after_call call s in
      let '(rs, s') := run_calls rest (store w) in
      (wire w :: rs, s')
  end.

(** The calls are specified one after the other, each on the
    collection the calls before it leave. *)
Fixpoint all_specified (calls : list Call) (s : Collection) : Prop :=
  match calls with
  | [] => True
  | call :: rest => specified s call ∧ all_specified rest (store (after_call call s))
  end.

#[export] Instance all_specified_dec calls s : Decision (all_specified calls s).
Proof. revert s. induction calls as [|call calls IH]; intros s; simpl; apply _. Defined.

(** The example of the specification, section 8, as calls. *)
Definition spec_calls : list Call :=
  [CallAdd "Tech News" "tech-news"; CallList; CallAdd "Tech News" "tech-news";
   CallUpdate 0 "Technology" "tech-news"; CallDelete 0; CallGet 0].

(** ** The catalog of a collection *)

Lemma entry_keys (l : list Category) : (entry <$> l).*1 = _id <$> l.
Proof. by rewrite <- list_fmap_compose. Qed.

Lemma catalog_lookup s i :
  catalog s !! i = (λ c, (name c, slug c)) <$> find (has_id i) (docs s).
Proof.
  unfold catalog. induction (docs s) as [|c l IH]; [done|]. csimpl.
  unfold has_id at 1. case_bool_decide as Hc.
  - by rewrite <- Hc, lookup_insert_eq.
  - by rewrite lookup_insert_ne.
Qed.

Lemma catalog_lookup_Some s i n sl :
  catalog s !! i = Some (n, sl) ↔
  find (has_id i) (docs s) = Some {| _id := i; name := n; slug := sl |}.
Proof.
  rewrite catalog_lookup. destruct (find _ _) as [c|] eqn:Hc; simpl; [|done].
  apply find_has_id_Some in Hc as [_ <-]. destruct c as [j m t]. simpl. naive_solver.
Qed.

Lemma catalog_lookup_None s i : catalog s !! i = None ↔ i ∉ ids s.
Proof.
  unfold ids. rewrite catalog_lookup, <- find_has_id_None. by destruct (find _ _).
Qed.

Lemma slug_taken_catalog s sl : ids_ok s → slug_taken sl (catalog s) ↔ sl ∈ slugs s.
Proof.
  intros Hs. unfold slug_taken, slugs. rewrite list_elem_of_fmap. split.
  - intros (i & n & [Hc _]%catalog_lookup_Some%find_has_id_Some).
    eexists. by split; [|exact Hc].
  - intros (c & -> & Hc). exists (_id c), (name c).
    apply catalog_lookup_Some. rewrite (find_has_id_elem_of _ _ Hs Hc). by destruct c.
Qed.

(** The catalog after the three updates of the collection. *)
Section catalog_updates.
Context (s : Collection) (Hs : ids_ok s).

Lemma catalog_insert c :
  _id c ∉ ids s →
  list_to_map (entry <$> (docs s ++ [c])) = <[_id c := (name c, slug c)]> (catalog s).
Proof.
  intros Hc. rewrite fmap_app. apply list_to_map_snoc. by rewrite entry_keys.
Qed.

Lemma catalog_split i c :
  find (has_id i) (docs s) = Some c →
  catalog s = <[i := (name c, slug c)]> (list_to_map (entry <$> remove_first (has_id i) (docs s)))
  ∧ (list_to_map (entry <$> remove_first (has_id i) (docs s)) : Catalog) !! i = None.
Proof.
  intros Hc. destruct (find_has_id_Some _ _ _ Hc) as [_ <-]. split.
  - unfold catalog. rewrite <- (list_to_map_cons _ (_id c) (name c, slug c)).
    apply list_to_map_proper; [by rewrite entry_keys|].
    by rewrite (remove_first_Permutation _ _ _ Hc) at 1.
  - apply not_elem_of_list_to_map_1. rewrite entry_keys.
    by apply (remove_first_key_gone _id).
Qed.

Lemma catalog_delete i c :
  find (has_id i) (docs s) = Some c →
  list_to_map (entry <$> remove_first (has_id i) (docs s)) = delete i (catalog s).
Proof.
  intros Hc. destruct (catalog_split i c Hc) as [-> Hi].
  by rewrite delete_insert_eq, delete_id.
Qed.

Lemma catalog_update i c f :
  find (has_id i) (docs s) = Some c → _id (f c) = i →
  list_to_map (entry <$> update_first (has_id i) f (docs s))
  = <[i := (name (f c), slug (f c))]> (catalog s).
Proof.
  intros Hc Hf. destruct (catalog_split i c Hc) as [-> Hi]. rewrite insert_insert_eq.
  rewrite <- Hf at 2. rewrite <- (list_to_map_cons _ (_id (f c)) (name (f c), slug (f c))).
  apply list_to_map_proper.
  - rewrite entry_keys, (update_first_Permutation _ _ _ _ Hc), fmap_cons, Hf.
    apply NoDup_cons. split; [|by apply remove_first_keys_NoDup].
    apply not_elem_of_list_to_map_2 in Hi. by rewrite entry_keys in Hi.
  - by rewrite (update_first_Permutation _ _ _ _ Hc).
Qed.

Lemma catalog_to_list : entry <$> docs s ≡ₚ map_to_list (catalog s).
Proof. symmetry. apply map_to_list_to_map. by rewrite entry_keys. Qed.

End catalog_updates.

(** ** The controller refines the specification *)

(** What it is for the request of [call] to refine the specification
    on [s]. *)
Definition refines (s : Collection) (call : Call) : Prop :=
  ∃ reply, wire (after_call call s) = Some (encode_reply reply)
           ∧ spec_step (catalog s) call reply (catalog (store (after_call call s))).

Lemma id_request_parsed i b :
  i < oid_bound →
  param "categoryid" {| body := b; params := [("categoryid", hex24 i)] |} = JStr (hex24 i)
  ∧ parse_oid (hex24 i) = Some i.
Proof. intros Hi. split; [done|by apply parse_oid_hex24]. Qed.

Section refinement.
Context (s : Collection) (Hwf : coll_wf s) (Hsup : has_supply s).

(** [addCategory] with an empty name or slug answers 400 and leaves
    the collection as it is. *)
Lemma coll_add_invalid n sl :
  n = "" ∨ sl = "" →
  serve coll_exec (addCategory (add_request n sl)) s =
  (Normal (), answered s 400 (JObj [("message", JStr "Name and slug are required.")]) []).
Proof.
  intros [->| ->]; [by serve_simpl|]. unfold_handlers.
  rewrite (proj1 (body_field_add_request n "")), (proj2 (body_field_add_request n "")).
  cbn. by destruct (truthy (JStr n)).
Qed.

Lemma refines_add n sl : refines s (CallAdd n sl).
Proof.
  unfold refines, after_call. cbn [call_request fst snd handler_of].
  destruct (body_field_add_request n sl) as [Hn Hsl].
  destruct (decide (n = "" ∨ sl = "")) as [Hbad|[Hne Hse]%Decidable.not_or].
  - exists Invalid. rewrite coll_add_invalid by done. split; [done|]. by constructor.
  - destruct (decide (sl ∈ slugs s)) as [Hin|Hout].
    + exists Conflict. rewrite (coll_add_conflict _ _ n sl) by done.
      split; [done|]. constructor; [done..|]. apply slug_taken_catalog; [apply Hwf|done].
    + exists (Created {| _id := next_id s; name := n; slug := sl |}).
      destruct (coll_wf_fresh s Hwf Hsup) as [_ Hid].
      rewrite (coll_add_created _ _ n sl) by done. split; [done|]. simpl.
      unfold catalog at 2. simpl. rewrite (catalog_insert s) by done.
      constructor; [done..| |by apply catalog_lookup_None].
      by rewrite slug_taken_catalog by apply Hwf.
Qed.

Lemma refines_get i : i < oid_bound → refines s (CallGet i).
Proof.
  intros [Hid Hp]%(id_request_parsed i (JObj [])). unfold refines, after_call.
  cbn [call_request fst snd handler_of].
  destruct (find (has_id i) (docs s)) as [c|] eqn:Hc.
  - exists (Found c). rewrite (coll_show_found _ _ _ i Hid Hp c) by done.
    split; [done|]. destruct (find_has_id_Some _ _ _ Hc) as [_ <-].
    destruct c as [j n sl]. constructor. by apply catalog_lookup_Some.
  - apply find_has_id_None in Hc. exists NotFound.
    rewrite (coll_show_not_found _ _ _ i Hid Hp) by done.
    split; [done|]. constructor. by apply catalog_lookup_None.
Qed.

Lemma refines_update i n sl :
  specified s (CallUpdate i n sl) → refines s (CallUpdate i n sl).
Proof.
  intros (Hi & Hin & Hfree). unfold refines, after_call.
  cbn [call_request fst snd handler_of].
  destruct (id_request_parsed i (JObj [("name", JStr n); ("slug", JStr sl)]) Hi) as [Hid Hp].
  destruct (body_field_update_request (hex24 i) n sl) as [Hn Hsl]. unfold update_request in *.
  destruct (find (has_id i) (docs s)) as [c|] eqn:Hc;
    [|by apply find_has_id_None in Hc].
  exists (Updated {| _id := i; name := n; slug := sl |}).
  rewrite (coll_update_found _ _ _ i n sl Hid Hp Hn Hsl c Hc)
    by (destruct (unique_slug s); auto).
  split; [done|]. simpl. unfold catalog at 2. simpl.
  destruct (find_has_id_Some _ _ _ Hc) as [_ Hci].
  rewrite (catalog_update s (proj1 Hwf) i c) by done. constructor.
  rewrite catalog_lookup, Hc. by eexists.
Qed.

Lemma refines_delete i : i < oid_bound → refines s (CallDelete i).
Proof.
  intros [Hid Hp]%(id_request_parsed i (JObj [])). unfold refines, after_call.
  cbn [call_request fst snd handler_of]. exists Deleted.
  destruct (find (has_id i) (docs s)) as [c|] eqn:Hc.
  - rewrite (coll_delete_existing _ _ _ i Hid Hp c) by done. split; [done|]. simpl.
    unfold catalog at 2. simpl. rewrite (catalog_delete s (proj1 Hwf) i c) by done.
    constructor.
  - apply find_has_id_None in Hc. rewrite (coll_delete_missing _ _ _ i Hid Hp) by done.
    split; [done|]. simpl. rewrite <- (delete_id (catalog s) i) at 2; [constructor|].
    by apply catalog_lookup_None.
Qed.

Lemma refines_list : refines s CallList.
Proof.
  exists (Listed (merge_sort name_le (docs s))). unfold after_call.
  cbn [call_request fst snd handler_of]. split; [by serve_simpl|].
  replace (store _) with s by (by serve_simpl). constructor.
  - rewrite merge_sort_Permutation. apply catalog_to_list, Hwf.
  - apply (Sorted_merge_sort name_le).
Qed.

End refinement.

Lemma refines_call s call : coll_wf s → has_supply s → specified s call → refines s call.
Proof.
  intros Hwf Hsup Hc. destruct call; simpl in Hc.
  - by apply refines_add.
  - by apply refines_get.
  - by apply refines_update.
  - by apply refines_delete.
  - by apply refines_list.
Qed.

(** ** The theorems *)

(** Every call the specification covers is served as it says: the
    response encodes a reply of [spec_step] from the catalog of the
    collection, and the collection the request leaves represents the
    catalog after the step. *)
Theorem service_refines s call :
  coll_wf s → has_supply s → specified s call →
  ∃ reply, wire (after_call call s) = Some (encode_reply reply)
           ∧ spec_step (catalog s) call reply (catalog (store (after_call call s))).
Proof. apply refines_call. Qed.

Lemma after_call_wf s call :
  coll_wf s → has_supply s →
  coll_wf (store (after_call call s)) ∧ next_id (store (after_call call s)) ≤ next_id s + 1.
Proof.
  intros Hwf Hsup. unfold after_call.
  pose proof (serve_next_id_step (call_request call).1 (call_request call).2 s Hwf) as Hn.
  split; [|done]. apply serve_coll_wf; [done|]. unfold has_supply in Hsup. lia.
Qed.

(** C16: sequences of calls: as long as identifiers are left, the replies on
    the wire are replies the specification allows, one after the
    other, and the collection at the end represents the catalog at the
    end. *)
Theorem service_refines_trace calls s :
  coll_wf s → next_id s + N.of_nat (length calls) ≤ oid_bound → all_specified calls s →
  ∃ replies,
    (run_calls calls s).1 = (λ r, Some (encode_reply r)) <$> replies
    ∧ length replies = length calls
    ∧ spec_steps (catalog s) (zip calls replies) (catalog (run_calls calls s).2).
Proof.
  revert s. induction calls as [|call calls IH]; intros s Hwf Hn Hcs.
  - exists []. split_and!; [done..|constructor].
  - destruct Hcs as [Hc Hcs]. simpl in Hn.
    assert (has_supply s) as Hsup by (unfold has_supply; lia).
    destruct (refines_call s call Hwf Hsup Hc) as (reply & Hw & Hstep).
    destruct (after_call_wf s call Hwf Hsup) as [Hwf' Hn'].
    destruct (IH (store (after_call call s)) Hwf' ltac:(lia) Hcs) as (replies & Hws & Hl & Hsteps).
    exists (reply :: replies). simpl. destruct (run_calls calls _) as [rs s'].
    simpl in *. rewrite Hw, Hws, Hl. split_and!; [done..|]. by econstructor.
Qed.

(** ** The theorems at concrete calls *)

Lemma service_refines_example :
  ∃ reply,
    wire (after_call (CallUpdate 1 "Athletics" "tech-news") (two_categories false))
    = Some (encode_reply reply)
    ∧ spec_step (catalog (two_categories false)) (CallUpdate 1 "Athletics" "tech-news") reply
        (catalog (store (after_call (CallUpdate 1 "Athletics" "tech-news")
                           (two_categories false)))).
Proof. apply service_refines; by_eval. Defined.

Lemma service_refines_trace_example :
  ∃ replies,
    (run_calls spec_calls (empty_collection true)).1 = (λ r, Some (encode_reply r)) <$> replies
    ∧ length replies = length spec_calls
    ∧ spec_steps (catalog (empty_collection true)) (zip spec_calls replies)
        (catalog (run_calls spec_calls (empty_collection true)).2).
Proof. apply service_refines_trace; by_eval. Defined.
