(* ===== verification/Concurrent.v ===== *)
(** * Requests in flight together

    The server handles a request until its handler awaits a call on the
    model, and takes up other requests until that call settles.  Two
    handlers thus interleave at their [await]s, and only there: what a
    handler does between two awaits ([new Category], [res.status],
    [res.json], [next], [console.error]) runs without interruption.  The
    store is shared; the response, the errors given to [next] and the
    console belong to the request.

    [Server] is the state of the loop: the collection and the
    connections, each with what is left of its handler.  [Accept] takes
    up a request and runs it to its first await ([sync] of [Effects],
    with [awaited] for the calls that are awaited); [Settle i] lets the call
    connection [i] waits for take effect and runs the handler to its
    next await.  The loop itself is Node's and not among the sources; it
    follows section 5 of the specification: no operation blocks another
    and there is no locking.

    The theorems say what survives every interleaving (each request is
    answered after at most two calls, identifiers stay distinct, and
    slugs stay distinct when the store has the unique index) and what
    does not: [addCategory] looks the slug up and saves in two calls, so
    two requests for one slug can both find it free. *)

From S2P Require Import Prelude JsValue Effects ObjectId Store Http Controller.

(** ** Definitions *)

(** The calls a handler awaits: every call on the model but the
    constructor [new Category], which is synchronous. *)
Definition awaited {R} (ev : HandlerE R) : bool :=
  match ev with
  | Db op => match op with NewCategory _ _ => false | _ => true end
  | _ => false
  end.

(** One connection: what is left of the handler, and the part of the
    world that belongs to the request. *)
Record Conn : Type := mkConn {
  conn_prog : Handler unit;
  conn_res : Response;
  conn_next : list JsError;
  conn_console : list (string * JsError);
}.

Record Server (S : Type) : Type := mkServer {
  database : S;
  conns : list Conn;
}.
Arguments mkServer {S} _ _.
Arguments database {S} _.
Arguments conns {S} _.

(** What the loop does next. *)
Inductive ServerEvent : Type :=
| Accept (h : HandlerName) (req : Request)
| Settle (i : nat).

#[export] Instance ServerEvent_eq_dec : EqDecision ServerEvent.
Proof. solve_decision. Defined.

(** A server with no request in flight. *)
Definition idle {S} (s : S) : Server S := {| database := s; conns := [] |}.

(** The world of a connection, and back. *)
Definition conn_world {S} (s : S) (c : Conn) : World S :=
  {| store := s; res := conn_res c; next_calls := conn_next c; console := conn_console c |}.

Definition conn_of {S} (m : Handler unit) (w : World S) : Conn :=
  {| conn_prog := m; conn_res := res w; conn_next := next_calls w; conn_console := console w |}.

Section loop.
Context {S : Type} (dbi : Interp DbOp S).

Definition server_step (ev : ServerEvent) (srv : Server S) : Server S :=
  match ev with
  | Accept h req =>
      let '(m, w) := sync (handle dbi) (@awaited) (handler_of h req) (world_of (database srv)) in
      {| database := store w; conns := conns srv ++ [conn_of m w] |}
  | Settle i =>
      match conns srv !! i with
      | Some c =>
          let '(m, w) :=
            resume (handle dbi) (@awaited) (conn_prog c) (conn_world (database srv) c) in
          {| database := store w; conns := <[i := conn_of m w]> (conns srv) |}
      | None => srv
      end
  end.

Definition server_run (evs : list ServerEvent) (srv : Server S) : Server S :=
  foldl (λ srv' ev, server_step ev srv') srv evs.

End loop.

(** What a connection has answered. *)
Definition conn_wire (c : Conn) : option (nat * JsValue) := sent (conn_res c).

(** The handler answers with one of [codes] within [n] awaited calls,
    from the response [r], whatever the calls on the store answer. *)
Fixpoint answers_within (codes : list nat) (n : nat) (m : Handler unit) (r : Response)
    : Prop :=
  match m with
  | Ret _ => ∃ code b, sent r = Some (code, b) ∧ code ∈ codes
  | Throw _ => False
  | Vis ev k =>
      match ev in HandlerE R return (Completion R → Handler unit) → Prop with
      | Db op => λ k,
          if awaited (Db op)
          then match n with
               | O => False
               | Datatypes.S n' => ∀ c, answers_within codes n' (k c) r
               end
          else ∀ c, answers_within codes n (k c) r
      | Res op => λ k,
          answers_within codes n (k (res_exec _ op r).1) (res_exec _ op r).2
      | Next err => λ k,
          answers_within codes n (k (Normal ())) (run res_exec (errorMiddleware err) r).2
      | ConsoleError _ _ => λ k, answers_within codes n (k (Normal ())) r
      end k
  end.

(** Two requests to add a category under one slug, each taken up before
    the other has saved. *)
Definition add_race (r1 r2 : Request) : list ServerEvent :=
  [Accept AddCategory r1; Accept AddCategory r2;
   Settle 0; Settle 1; Settle 0; Settle 1].

Arguments server_step : simpl never.

(** The requests of a schedule that let connection [i] go on. *)
Definition settles (i : nat) (evs : list ServerEvent) : nat :=
  length (filter (λ ev, ev = Settle i) evs).

(** What every connection keeps: it is parked, and answers within [n]
    more calls. *)
Definition conn_ok (codes : list nat) (n : nat) (c : Conn) : Prop :=
  parked (@awaited) (conn_prog c) ∧ answers_within codes n (conn_prog c) (conn_res c).

(** ** Tactics *)

(** Case analysis on what the request holds and on what each call
    answers, for [answers_within]. *)
Ltac answer_case :=
  match goal with
  | |- ∀ c : Completion _, _ => intros [?|?]
  | |- context [sent (run res_exec (errorMiddleware _) _).2] => rewrite errorMiddleware_sent
  | |- context [body_field ?k ?req] => destruct (body_field k req) as [?|?]
  | |- context [truthy ?v] => destruct (truthy v) eqn:?
  | |- ∃ code b, Some _ = Some (code, b) ∧ _ =>
      do 2 eexists; (split; [reflexivity|]); apply (bool_decide_unpack _); by vm_compute
  end.

(** Evaluates the steps of the loop one after the other, from the
    first, with [tac] for the guards and the calls on the store. *)
Ltac loop_eval tac :=
  repeat match goal with
  | |- context [server_step ?dbi ?ev (mkServer ?d ?cs)] =>
      let x := fresh "srv" in
      let H := fresh "Hsrv" in
      remember (server_step dbi ev (mkServer d cs)) as x eqn:H;
      unfold server_step, resume in H;
      repeat (progress (cbn in H; unfold addCategory in H;
                        rewrite ?findOne_JStr, ?newCategory_JStr, ?truthy_doc_json_None,
                          ?truthy_doc_json_Some in H; tac H));
      subst x
  end.

(** An identifier or a slug is not among those of a collection that
    was extended. *)
Ltac fresh_in :=
  unfold ids, slugs in *; cbn;
  rewrite ?fmap_app, ?elem_of_app; cbn; rewrite ?list_elem_of_singleton;
  intuition lia.

(** ** The loop and the sequential semantics *)

Lemma conn_world_of {S} (m : Handler unit) (w : World S) :
  conn_world (store w) (conn_of m w) = w.
Proof. by destruct w. Qed.

Section loop_lemmas.
Context {S : Type} (dbi : Interp DbOp S).

(** ** Invariants of the store under every interleaving *)

Section store_invariant.
Context (P : S → Prop) (HP : ∀ R (op : DbOp R) s, P s → P (dbi R op s).2).

Lemma handle_store_invariant {R} (ev : HandlerE R) w :
  P (store w) → P (store (handle dbi R ev w).2).
Proof.
  intros Hw. destruct ev as [R op|R op|err|l err]; simpl; [|by destruct (res_exec _ op _)|done..].
  specialize (HP _ op (store w) Hw). by destruct (dbi _ op (store w)).
Qed.

Lemma sync_store_invariant {A} (m : Handler A) w :
  P (store w) → P (store (sync (handle dbi) (@awaited) m w).2).
Proof.
  revert w. induction m as [a|e|R ev k IH]; intros w Hw; simpl; [done..|].
  destruct (awaited ev); [done|]. pose proof (handle_store_invariant ev w Hw) as Hw'.
  destruct (handle dbi R ev w) as [r w']. by apply IH.
Qed.

Lemma resume_store_invariant {A} (m : Handler A) w :
  P (store w) → P (store (resume (handle dbi) (@awaited) m w).2).
Proof.
  intros Hw. unfold resume. destruct m as [a|e|R ev k]; simpl; [done..|].
  pose proof (handle_store_invariant ev w Hw) as Hw'.
  destruct (handle dbi R ev w) as [r w']. by apply sync_store_invariant.
Qed.

Lemma server_step_invariant ev srv :
  P (database srv) → P (database (server_step dbi ev srv)).
Proof.
  intros Hs. unfold server_step. destruct ev as [h req|i].
  - pose proof (sync_store_invariant (handler_of h req) (world_of (database srv)) Hs) as H.
    by destruct (sync _ _ _).
  - destruct (conns srv !! i) as [c|]; [|done].
    pose proof (resume_store_invariant (conn_prog c) (conn_world (database srv) c) Hs) as H.
    by destruct (resume _ _ _).
Qed.

Lemma server_run_invariant evs srv :
  P (database srv) → P (database (server_run dbi evs srv)).
Proof.
  revert srv. induction evs as [|ev evs IH]; intros srv Hs; [done|].
  simpl. by apply IH, server_step_invariant.
Qed.

End store_invariant.
End loop_lemmas.

(** ** Every request is answered *)

Section answered.
Context {S : Type} (dbi : Interp DbOp S) (codes : list nat).

Lemma sync_answers n (m : Handler unit) w :
  answers_within codes n m (res w) →
  answers_within codes n (sync (handle dbi) (@awaited) m w).1
    (res (sync (handle dbi) (@awaited) m w).2).
Proof.
  revert w. induction m as [a|e|R ev k IH]; intros w Hm; [done..|].
  cbn [sync]. destruct (awaited ev) eqn:Hev; [done|]. cbn [answers_within] in Hm.
  destruct ev as [R op|R op|err|l err]; cbn [handle].
  - rewrite Hev in Hm. destruct (dbi R op (store w)) as [r s']. by apply IH.
  - destruct (res_exec R op (res w)) as [r rs']. by apply IH.
  - by apply IH.
  - by apply IH.
Qed.

Lemma resume_answers n (m : Handler unit) w :
  parked (@awaited) m → answers_within codes (Datatypes.S n) m (res w) →
  answers_within codes n (resume (handle dbi) (@awaited) m w).1
    (res (resume (handle dbi) (@awaited) m w).2).
Proof.
  unfold resume. destruct m as [a|e|R ev k]; [done..|].
  cbn [parked answers_within]. intros Hev Hm.
  destruct ev as [R op|R op|err|l err]; try done. rewrite Hev in Hm. simpl.
  destruct (dbi R op (store w)) as [r s']. by apply sync_answers.
Qed.

(** A parked handler that needs no further call has answered. *)
Lemma answers_within_0 (m : Handler unit) r :
  parked (@awaited) m → answers_within codes 0 m r →
  m = Ret () ∧ ∃ code b, sent r = Some (code, b) ∧ code ∈ codes.
Proof.
  destruct m as [[]|e|R ev k]; [done..|]. cbn [parked answers_within]. intros Hev.
  destruct ev as [R op|R op|err|l err]; try done. by rewrite Hev.
Qed.

Lemma answers_within_S n (m : Handler unit) r :
  answers_within codes n m r → answers_within codes (Datatypes.S n) m r.
Proof.
  revert n r. induction m as [a|e|R ev k IH]; intros n r; [done..|].
  cbn [answers_within]. destruct ev as [R op|R op|err|l err]; [|by apply IH..].
  destruct (awaited (Db op)); [destruct n; [done|]|]; intros Hm c; by apply IH.
Qed.

Lemma answers_within_le n n' (m : Handler unit) r :
  n ≤ n' → answers_within codes n m r → answers_within codes n' m r.
Proof. induction 1; [done|]. intros. by apply answers_within_S, IHle. Qed.

Lemma resume_ok n (m : Handler unit) w :
  parked (@awaited) m → answers_within codes n m (res w) →
  parked (@awaited) (resume (handle dbi) (@awaited) m w).1
  ∧ answers_within codes (pred n) (resume (handle dbi) (@awaited) m w).1
      (res (resume (handle dbi) (@awaited) m w).2).
Proof.
  intros Hp Hm. split; [apply resume_parked|]. destruct n as [|n].
  - by destruct (answers_within_0 _ _ Hp Hm) as [-> ?].
  - by apply resume_answers.
Qed.

Lemma accept_conn_ok n m (w : World S) :
  answers_within codes n m (res w) →
  conn_ok codes n
    (conn_of (sync (handle dbi) (@awaited) m w).1 (sync (handle dbi) (@awaited) m w).2).
Proof. intros Hm. split; [apply sync_parked|by apply sync_answers]. Qed.

Lemma resume_conn_ok n c (s : S) :
  conn_ok codes n c →
  conn_ok codes (pred n) (conn_of (resume (handle dbi) (@awaited) (conn_prog c) (conn_world s c)).1
                                  (resume (handle dbi) (@awaited) (conn_prog c) (conn_world s c)).2).
Proof. intros [Hp Hm]. by apply resume_ok. Qed.

(** A connection stays as it is, or comes closer to its answer, whatever
    the loop does. *)
Lemma server_step_conn_ok n ev i c (srv : Server S) :
  conns srv !! i = Some c → conn_ok codes n c →
  ∃ c', conns (server_step dbi ev srv) !! i = Some c'
        ∧ conn_ok codes (n - settles i [ev]) c'.
Proof.
  intros Hi Hc. unfold server_step. destruct ev as [h req|j].
  - destruct (sync _ _ _) as [m w]. exists c. simpl.
    rewrite lookup_app_l by (by eapply lookup_lt_Some).
    split; [done|]. by rewrite Nat.sub_0_r.
  - unfold settles. rewrite filter_cons, filter_nil.
    destruct (decide (j = i)) as [->|Hj].
    + rewrite decide_True by done. rewrite Hi.
      pose proof (resume_conn_ok n c (database srv) Hc) as Hc'.
      destruct (resume _ _ _) as [m w]. eexists. simpl.
      rewrite list_lookup_insert_eq by (by eapply lookup_lt_Some).
      split; [done|]. by replace (n - 1)%nat with (pred n) by lia.
    + rewrite decide_False by congruence. simpl. rewrite Nat.sub_0_r.
      destruct (conns srv !! j) as [d|]; [|by eauto].
      destruct (resume _ _ _) as [m w]. exists c. simpl.
      by rewrite list_lookup_insert_ne.
Qed.

Lemma server_run_conn_ok n evs i c (srv : Server S) :
  conns srv !! i = Some c → conn_ok codes n c →
  ∃ c', conns (server_run dbi evs srv) !! i = Some c'
        ∧ conn_ok codes (n - settles i evs) c'.
Proof.
  revert n c srv. induction evs as [|ev evs IH]; intros n c srv Hi Hc.
  - exists c. split; [done|]. unfold settles. simpl. by rewrite Nat.sub_0_r.
  - destruct (server_step_conn_ok n ev i c srv Hi Hc) as (c' & Hi' & Hc').
    destruct (IH _ _ _ Hi' Hc') as (c'' & Hi'' & Hc''). exists c''. split; [done|].
    replace (n - settles i (ev :: evs))%nat with (n - settles i [ev] - settles i evs)%nat;
      [done|].
    unfold settles. rewrite (filter_cons _ ev evs), filter_cons, filter_nil.
    case_decide; simpl; lia.
Qed.

End answered.

(** ** The theorems *)

Section any_loop.
Context {S : Type} (dbi : Interp DbOp S).

(** Every handler answers within two awaited calls, with a status code
    of its interface. *)
Lemma handler_answers_within h req :
  answers_within (status_codes h) 2 (handler_of h req) fresh_response.
Proof. destruct h; unfold_handlers; cbn; repeat (answer_case; cbn). Qed.

Lemma accept_last h req (srv : Server S) :
  ∃ c, conns (server_step dbi (Accept h req) srv) !! length (conns srv) = Some c
       ∧ conn_ok (status_codes h) 2 c.
Proof.
  unfold server_step.
  pose proof (accept_conn_ok dbi (status_codes h) 2 (handler_of h req)
                (world_of (database srv)) (handler_answers_within h req)) as Hc.
  destruct (sync _ _ _) as [m w]. eexists. split; [|done]. simpl.
  by rewrite lookup_app_r, Nat.sub_diag by done.
Qed.

(** C20: every request is answered, whatever else the server does: once the
    loop has let its connection go on twice, the handler is at its end
    and one response with a status code of its interface is on the
    wire. *)
Theorem request_answered h req evs (srv : Server S) :
  2 ≤ settles (length (conns srv)) evs →
  ∃ c code b,
    conns (server_run dbi (Accept h req :: evs) srv) !! length (conns srv) = Some c
    ∧ conn_prog c = Ret () ∧ conn_wire c = Some (code, b) ∧ code ∈ status_codes h.
Proof.
  intros Hn. destruct (accept_last h req srv) as (c & Hi & Hc).
  destruct (server_run_conn_ok dbi _ 2 evs _ c _ Hi Hc) as (c' & Hi' & Hp & Hm).
  replace (2 - _)%nat with 0%nat in Hm by lia.
  destruct (answers_within_0 _ _ _ Hp Hm) as (Hret & code & b & Hsent & Hcode).
  by exists c', code, b.
Qed.

Lemma settle_last cs m (w : World S) :
  server_step dbi (Settle (length cs)) {| database := store w; conns := cs ++ [conn_of m w] |}
  = {| database := store (resume (handle dbi) (@awaited) m w).2;
       conns := cs ++ [conn_of (resume (handle dbi) (@awaited) m w).1
                         (resume (handle dbi) (@awaited) m w).2] |}.
Proof.
  unfold server_step. simpl. rewrite lookup_app_r, Nat.sub_diag by done. simpl.
  rewrite conn_world_of. destruct (resume (handle dbi) (@awaited) m w) as [m' w']. simpl.
  by rewrite insert_app_r_alt, Nat.sub_diag by done.
Qed.

(** C33: A request the server handles alone is served as [serve] says: the
    loop refines the sequential semantics of the handlers. *)
Theorem alone_serves h req (srv : Server S) :
  server_run dbi [Accept h req; Settle (length (conns srv)); Settle (length (conns srv))] srv
  = {| database := store (serve dbi (handler_of h req) (database srv)).2;
       conns := conns srv ++ [conn_of (Ret ()) (serve dbi (handler_of h req) (database srv)).2] |}.
Proof.
  destruct (accept_conn_ok dbi _ 2 _ (world_of (database srv))
              (handler_answers_within h req)) as [Hp Hm].
  unfold serve. rewrite (run_sync (handle dbi) (@awaited) (handler_of h req)).
  unfold server_run. cbn [foldl]. unfold server_step at 3.
  destruct (sync (handle dbi) (@awaited) _ _) as [m0 w0].
  cbn [fst snd conn_of conn_prog conn_res] in *.
  apply (resume_ok dbi _ _ _ w0) in Hm as [Hp1 Hm]; [|done].
  rewrite settle_last, (run_resume (handle dbi) (@awaited) m0).
  destruct (resume (handle dbi) (@awaited) m0 w0) as [m1 w1].
  cbn [fst snd pred] in *.
  apply (resume_ok dbi _ _ _ w1) in Hm as [Hp2 Hm]; [|done].
  rewrite settle_last, (run_resume (handle dbi) (@awaited) m1).
  destruct (resume (handle dbi) (@awaited) m1 w1) as [m2 w2].
  cbn [fst snd pred] in *.
  by destruct (answers_within_0 _ _ _ Hp2 Hm) as [-> _].
Qed.

End any_loop.

(** ** On the reference collection *)

(** Identifiers stay pairwise distinct under every interleaving of
    every sequence of requests. *)
Theorem interleaved_ids_ok evs s :
  ids_ok s → ids_ok (database (server_run coll_exec evs (idle s))).
Proof.
  intros Hs. apply (server_run_invariant coll_exec ids_ok); [|done].
  intros R. apply coll_exec_ids_ok.
Qed.


#[local] Open Scope N_scope.

Section race.
Context (r1 r2 : Request) (s : Collection) (n1 n2 sl : string).
Context (Hn1 : body_field "name" r1 = Normal (JStr n1)).
Context (Hs1 : body_field "slug" r1 = Normal (JStr sl)).
Context (Hn2 : body_field "name" r2 = Normal (JStr n2)).
Context (Hs2 : body_field "slug" r2 = Normal (JStr sl)).
Context (Hne1 : n1 ≠ "") (Hne2 : n2 ≠ "") (Hse : sl ≠ "").
Context (Hfree : sl ∉ slugs s) (Hwf : coll_wf s) (Hsup : next_id s + 1 < oid_bound).

(** The facts the evaluation of the race needs of the collection. *)
Lemma race_facts :
  find (has_slug sl) (docs s) = None
  ∧ next_id s `mod` oid_bound = next_id s
  ∧ (next_id s + 1) `mod` oid_bound = next_id s + 1
  ∧ (next_id s ∉ ids s) ∧ (next_id s + 1 ∉ ids s).
Proof.
  split_and!; [by apply find_has_slug_None|apply N.mod_small; lia|by apply N.mod_small|..];
    (apply coll_wf_above; [done|lia]).
Qed.

(** C17: two requests for one free slug, each looked up before the other is
    saved, are both answered 201 on a collection without the unique
    index, and both categories are stored: the lookup and the save of
    [addCategory] are two calls, and nothing holds the slug between
    them. *)
Theorem add_race_duplicates :
  unique_slug s = false →
  let c1 := {| _id := next_id s; name := n1; slug := sl |} in
  let c2 := {| _id := next_id s + 1; name := n2; slug := sl |} in
  let srv := server_run coll_exec (add_race r1 r2) (idle s) in
  conn_wire <$> conns srv = [Some (201%nat, created_body c1); Some (201%nat, created_body c2)]
  ∧ docs (database srv) = docs s ++ [c1; c2]
  ∧ ¬ slugs_unique (database srv).
Proof.
  intros Hu c1 c2 srv. subst srv. destruct race_facts as (Hfind & Hm1 & Hm2 & Hi1 & Hi2).
  unfold add_race, server_run, idle. cbn [foldl].
  loop_eval ltac:(fun H =>
    rewrite ?Hn1, ?Hs1, ?Hn2, ?Hs2, ?Hfind, ?Hm1, ?Hm2 in H;
    rewrite ?truthy_JStr_true in H by done;
    rewrite ?save_unindexed in H by first [done | fresh_in]).
  cbn. rewrite <- app_assoc. split_and!; [done..|].
  unfold slugs_unique, slugs. cbn. rewrite fmap_app. cbn.
  intros [_ [_ Hd]]%NoDup_app. apply NoDup_cons in Hd as [Hd _]. apply Hd. by left.
Qed.

(** With the unique index the second save is rejected, and the request
    that lost is answered 500 with the message of the driver, not 409:
    the conflict was found by the index, not by the lookup. *)
Theorem add_race_indexed :
  unique_slug s = true →
  let c1 := {| _id := next_id s; name := n1; slug := sl |} in
  let srv := server_run coll_exec (add_race r1 r2) (idle s) in
  conn_wire <$> conns srv
    = [Some (201%nat, created_body c1); Some (500%nat, failed_body (DuplicateKey "slug_1"))]
  ∧ docs (database srv) = docs s ++ [c1].
Proof.
  intros Hu c1 srv. subst srv. destruct race_facts as (Hfind & Hm1 & Hm2 & Hi1 & Hi2).
  unfold add_race, server_run, idle. cbn [foldl].
  loop_eval ltac:(fun H =>
    rewrite ?Hn1, ?Hs1, ?Hn2, ?Hs2, ?Hfind, ?Hm1, ?Hm2 in H;
    rewrite ?truthy_JStr_true in H by done;
    rewrite ?save_fresh in H by first [done | fresh_in];
    rewrite ?save_duplicate_slug in H by first [done | fresh_in]).
  done.
Qed.

End race.

(** ** The theorems at concrete requests *)

Lemma request_answered_example :
  ∃ c code b,
    conns (server_run coll_exec
             (Accept AddCategory (add_request "Travel" "travel")
              :: [Settle 1; Settle 0; Settle 1; Settle 0; Settle 0])
             (server_step coll_exec (Accept ShowCategory (id_request "42"))
                (idle (two_categories false))))
      !! length (conns (server_step coll_exec (Accept ShowCategory (id_request "42"))
                          (idle (two_categories false)))) = Some c
    ∧ conn_prog c = Ret () ∧ conn_wire c = Some (code, b) ∧ code ∈ status_codes AddCategory.
Proof. apply (request_answered coll_exec). by_eval. Defined.

Lemma interleaved_ids_ok_example :
  ids_ok (database (server_run coll_exec
                      (add_race (add_request "Tech" "news") (add_request "Technology" "news"))
                      (idle (two_categories false)))).
Proof. apply interleaved_ids_ok. by_eval. Defined.


Lemma add_race_duplicates_example :
  conn_wire <$> conns (server_run coll_exec
                         (add_race (add_request "Tech" "news") (add_request "Technology" "news"))
                         (idle (two_categories false)))
  = [Some (201%nat, created_body {| _id := next_id (two_categories false);
                                name := "Tech"; slug := "news" |});
     Some (201%nat, created_body {| _id := (next_id (two_categories false) + 1)%N;
                                name := "Technology"; slug := "news" |})]
  ∧ docs (database (server_run coll_exec
                      (add_race (add_request "Tech" "news") (add_request "Technology" "news"))
                      (idle (two_categories false))))
    = docs (two_categories false)
      ++ [{| _id := next_id (two_categories false); name := "Tech"; slug := "news" |};
          {| _id := (next_id (two_categories false) + 1)%N;
             name := "Technology"; slug := "news" |}]
  ∧ ¬ slugs_unique (database (server_run coll_exec
                                (add_race (add_request "Tech" "news")
                                   (add_request "Technology" "news"))
                                (idle (two_categories false)))).
Proof.
  apply (add_race_duplicates (add_request "Tech" "news") (add_request "Technology" "news")
           (two_categories false) "Tech" "Technology" "news"); by_eval.
Defined.

Lemma add_race_indexed_example :
  conn_wire <$> conns (server_run coll_exec
                         (add_race (add_request "Tech" "news") (add_request "Technology" "news"))
                         (idle (two_categories true)))
  = [Some (201%nat, created_body {| _id := next_id (two_categories true);
                                name := "Tech"; slug := "news" |});
     Some (500%nat, failed_body (DuplicateKey "slug_1"))]
  ∧ docs (database (server_run coll_exec
                      (add_race (add_request "Tech" "news") (add_request "Technology" "news"))
                      (idle (two_categories true))))
    = docs (two_categories true)
      ++ [{| _id := next_id (two_categories true); name := "Tech"; slug := "news" |}].
Proof.
  apply (add_race_indexed (add_request "Tech" "news") (add_request "Technology" "news")
           (two_categories true) "Tech" "Technology" "news"); by_eval.
Defined.
