(* ===== verification/Config.v ===== *)
(** * Configuration of the external services

    [src/api/config/cloudinary.js] and
    [src/client/src/helpers/firebase.js]: the two modules that configure
    the image host and the identity provider.  The first reads three
    variables of the environment and refuses to load when one is missing
    or empty; the second builds the configuration of the Firebase
    application and initialises the SDK.  The SDKs themselves are
    events: what they do with a configuration is outside the model. *)

From S2P Require Import Prelude JsValue Effects.

(** ** Definitions *)

(** [process.env] and [import.meta.env]: variables with string values. *)
Definition Env : Type := list (string * string).

Fixpoint env_lookup (k : string) (env : Env) : option string :=
  match env with
  | [] => None
  | (k', v) :: env' => if String.eqb k k' then Some v else env_lookup k env'
  end.

(** [env.k]: the value, or [undefined]. *)
Definition env_get (k : string) (env : Env) : JsValue :=
  from_option JStr JUndefined (env_lookup k env).

(** [getEvn(k)] of [helpers/getEnv.js]: the variable of
    [import.meta.env]. *)
Definition getEvn (env : Env) (k : string) : JsValue := env_get k env.

Definition CloudinaryNotSet : JsError :=
  {| err_name := "Error";
     message := "Cloudinary environment variables are not set properly.";
     statusCode := None |}.

(** The module [cloudinary.js]: the configuration it hands to
    [cloudinary.config], or the error it throws while loading. *)
Definition cloudinary_config (env : Env) : Completion JsValue :=
  let CLOUDINARY_APP_NAME := env_get "CLOUDINARY_APP_NAME" env in
  let CLOUDINARY_API_KEY := env_get "CLOUDINARY_API_KEY" env in
  let CLOUDINARY_API_SECRET := env_get "CLOUDINARY_API_SECRET" env in
  if negb (truthy CLOUDINARY_APP_NAME) || negb (truthy CLOUDINARY_API_KEY)
     || negb (truthy CLOUDINARY_API_SECRET)
  then Abrupt CloudinaryNotSet
  else Normal (JObj [("cloud_name", CLOUDINARY_APP_NAME);
                     ("api_key", CLOUDINARY_API_KEY);
                     ("api_secret", CLOUDINARY_API_SECRET)]).

(** [dotenv.config()]: the variables of the file [.env] join those of
    the process; a variable the process has keeps its value, also an
    empty one. *)
Definition dotenv_config (file process_env : Env) : Env := process_env ++ file.

(** Loading [cloudinary.js] in a process with the environment
    [process_env] and the file [file]. *)
Definition cloudinary_module (file process_env : Env) : Completion JsValue :=
  cloudinary_config (dotenv_config file process_env).

(** A variable is set when it has a value other than the empty string. *)
Definition is_set (k : string) (env : Env) : Prop :=
  ∃ v, env_lookup k env = Some v ∧ v ≠ "".

#[export] Instance is_set_dec k env : Decision (is_set k env).
Proof.
  unfold is_set. destruct (env_lookup k env) as [v|].
  - destruct (decide (v = "")) as [->|Hv].
    + right. by intros (v & [= <-] & ?).
    + left. eauto.
  - right. by intros (v & ? & _).
Defined.

(** The configuration of the Firebase application. *)
Definition firebaseConfig (env : Env) : JsValue :=
  JObj [("apiKey", getEvn env "VITE_FIREBASE_API");
        ("authDomain", JStr "digisoch-blog.firebaseapp.com");
        ("projectId", JStr "digisoch-blog");
        ("storageBucket", JStr "digisoch-blog.firebasestorage.app");
        ("messagingSenderId", JStr "140660941569");
        ("appId", JStr "1:140660941569:web:ef5fb12ca989a11c8f3100")].

(** The calls on the Firebase SDK; applications, authentication
    services and providers are handles the SDK returns. *)
Inductive FirebaseE : Type → Type :=
| InitializeApp (config : JsValue) : FirebaseE nat
| GetAuth (app : nat) : FirebaseE nat
| NewGoogleAuthProvider : FirebaseE nat.

(** The module [firebase.js]: what it exports. *)
Definition firebase_module (env : Env) : Prog FirebaseE (nat * nat) :=
  app ← trigger (InitializeApp (firebaseConfig env));
  auth ← trigger (GetAuth app);
  provider ← trigger NewGoogleAuthProvider;
  mret (auth, provider).

(** An SDK that records its calls: the configurations of the
    applications it initialised, the application of each authentication
    service, and the number of providers. *)
Record Firebase : Type := mkFirebase {
  apps : list JsValue;
  auths : list nat;
  providers : nat;
}.

Definition firebase_exec : Interp FirebaseE Firebase := λ R ev,
  match ev in FirebaseE R return Firebase → Completion R * Firebase with
  | InitializeApp config => λ f,
      (Normal (length (apps f)),
       {| apps := apps f ++ [config]; auths := auths f; providers := providers f |})
  | GetAuth app => λ f,
      (Normal (length (auths f)),
       {| apps := apps f; auths := auths f ++ [app]; providers := providers f |})
  | NewGoogleAuthProvider => λ f,
      (Normal (providers f),
       {| apps := apps f; auths := auths f; providers := Datatypes.S (providers f) |})
  end.

(** ** Lemmas *)

Lemma env_get_truthy k env : truthy (env_get k env) = true ↔ is_set k env.
Proof.
  unfold env_get, is_set. destruct (env_lookup k env) as [v|]; simpl.
  - rewrite truthy_JStr. split.
    + intros Hv. exists v. split; [done|]. by intros ->.
    + intros (? & [= <-] & Hv). by destruct v.
  - rewrite truthy_JUndefined. split; [done|]. by intros (? & ? & _).
Qed.

Lemma env_get_is_set k env : is_set k env → ∃ v, env_get k env = JStr v ∧ v ≠ "".
Proof. unfold env_get. intros (v & -> & Hv). eauto. Qed.

Lemma env_lookup_dotenv k file process_env :
  env_lookup k (dotenv_config file process_env) =
  match env_lookup k process_env with
  | Some v => Some v
  | None => env_lookup k file
  end.
Proof.
  unfold dotenv_config. induction process_env as [|[k' v] env IH]; simpl; [done|].
  by destruct (String.eqb k k').
Qed.

Lemma is_set_dotenv k file process_env :
  is_set k (dotenv_config file process_env) ↔
  is_set k process_env ∨ (env_lookup k process_env = None ∧ is_set k file).
Proof.
  unfold is_set. rewrite env_lookup_dotenv.
  destruct (env_lookup k process_env) as [v|].
  - split; [by left|]. by intros [?|[? _]].
  - split; [by right|]. by intros [(? & ? & _)|[_ ?]].
Qed.

(** ** Theorems *)

Lemma cloudinary_config_loads_iff env :
  is_normal (cloudinary_config env) = true ↔
  is_set "CLOUDINARY_APP_NAME" env ∧ is_set "CLOUDINARY_API_KEY" env
  ∧ is_set "CLOUDINARY_API_SECRET" env.
Proof.
  rewrite <- !env_get_truthy. unfold cloudinary_config.
  destruct (truthy (env_get "CLOUDINARY_APP_NAME" env)),
    (truthy (env_get "CLOUDINARY_API_KEY" env)),
    (truthy (env_get "CLOUDINARY_API_SECRET" env)); simpl; intuition discriminate.
Qed.

(** When the three variables are set, the configuration handed to
    the SDK holds their values, each under its key. *)
Theorem cloudinary_config_values env :
  is_set "CLOUDINARY_APP_NAME" env → is_set "CLOUDINARY_API_KEY" env →
  is_set "CLOUDINARY_API_SECRET" env →
  cloudinary_config env =
  Normal (JObj [("cloud_name", env_get "CLOUDINARY_APP_NAME" env);
                ("api_key", env_get "CLOUDINARY_API_KEY" env);
                ("api_secret", env_get "CLOUDINARY_API_SECRET" env)]).
Proof.
  intros H1%env_get_truthy H2%env_get_truthy H3%env_get_truthy.
  unfold cloudinary_config. by rewrite H1, H2, H3.
Qed.

(** When one of the three variables is missing or empty, loading the
    module throws the error of the guard. *)
Theorem cloudinary_config_refuses env :
  ¬ (is_set "CLOUDINARY_APP_NAME" env ∧ is_set "CLOUDINARY_API_KEY" env
     ∧ is_set "CLOUDINARY_API_SECRET" env) →
  cloudinary_config env = Abrupt CloudinaryNotSet.
Proof.
  rewrite <- !env_get_truthy. unfold cloudinary_config.
  destruct (truthy (env_get "CLOUDINARY_APP_NAME" env)),
    (truthy (env_get "CLOUDINARY_API_KEY" env)),
    (truthy (env_get "CLOUDINARY_API_SECRET" env)); simpl; intuition discriminate.
Qed.

(** C40: the module loads exactly when each of the three variables is set
    in the process, or is absent from it and set in the file; a variable
    the process holds empty is not taken from the file. *)
Theorem cloudinary_module_loads file process_env :
  is_normal (cloudinary_module file process_env) = true ↔
  Forall (λ k, is_set k process_env ∨ (env_lookup k process_env = None ∧ is_set k file))
    ["CLOUDINARY_APP_NAME"; "CLOUDINARY_API_KEY"; "CLOUDINARY_API_SECRET"].
Proof.
  unfold cloudinary_module. rewrite cloudinary_config_loads_iff, !Forall_cons, Forall_nil.
  rewrite !is_set_dotenv. tauto.
Qed.

(** Loading the Firebase module on a fresh SDK initialises one
    application, with the configuration of the project, one
    authentication service, of that application, and one provider, and
    exports the service and the provider. *)
Theorem firebase_module_run env :
  run firebase_exec (firebase_module env) (mkFirebase [] [] 0) =
  (Normal (0, 0), mkFirebase [firebaseConfig env] [0] 1).
Proof. done. Qed.

(** The configuration names one project throughout. *)
Lemma firebaseConfig_project env :
  ∃ project sender,
    js_get "projectId" (firebaseConfig env) = Normal (JStr project)
    ∧ js_get "authDomain" (firebaseConfig env) = Normal (JStr (project +:+ ".firebaseapp.com"))
    ∧ js_get "storageBucket" (firebaseConfig env)
      = Normal (JStr (project +:+ ".firebasestorage.app"))
    ∧ js_get "messagingSenderId" (firebaseConfig env) = Normal (JStr sender)
    ∧ js_get "appId" (firebaseConfig env)
      = Normal (JStr ("1:" +:+ sender +:+ ":web:ef5fb12ca989a11c8f3100")).
Proof. by exists "digisoch-blog", "140660941569". Qed.

(** ** The theorems at a concrete environment *)

(** An empty variable of the process hides the value of the file: the
    module does not load. *)
Lemma cloudinary_module_shadowed :
  cloudinary_module
    [("CLOUDINARY_APP_NAME", "blog"); ("CLOUDINARY_API_KEY", "k");
     ("CLOUDINARY_API_SECRET", "s")]
    [("CLOUDINARY_API_KEY", "")]
  = Abrupt CloudinaryNotSet.
Proof. done. Qed.

Lemma cloudinary_config_values_example :
  cloudinary_config [("CLOUDINARY_APP_NAME", "blog"); ("CLOUDINARY_API_KEY", "k");
                     ("CLOUDINARY_API_SECRET", "s")] =
  Normal (JObj [("cloud_name", JStr "blog"); ("api_key", JStr "k"); ("api_secret", JStr "s")]).
Proof. apply cloudinary_config_values; by_eval. Defined.

Lemma cloudinary_config_refuses_example :
  cloudinary_config [("CLOUDINARY_APP_NAME", "blog"); ("CLOUDINARY_API_KEY", "")]
  = Abrupt CloudinaryNotSet.
Proof.
  apply cloudinary_config_refuses. intros (_ & H & _). by apply (bool_decide_pack _) in H.
Defined.
