(* ===== verification/Client.v ===== *)
(** * The client runtime

    What the two admin pages of the client do to the world around them:
    requests to the API ([fetch]), notifications ([showToast]), the
    session store ([dispatch(setUser(...))]), navigation, and the state
    of the category form and list.  Each is an event of [ClientE]; a
    page's callback is a program over these events, as a handler of the
    server is a program over its own.

    [client_exec] interprets the events in a [Browser]: the state of the
    page, and the network behind [fetch], which is a parameter.  The
    toast helper, the session slice and the form library are not among
    the sources; their events do what the specification says of them
    (sections 4.4 and 9).

    A form is validated against its schema on submit ([validate],
    [handleSubmit]); [validate_lookup] gives the message a field shows
    for the first rule it breaks.  [useForm] is the state of a new form,
    and [render_field] what one field of a form shows. *)

From S2P Require Import Prelude JsValue Effects Http Config.

(** ** Definitions *)

(** The second argument of [fetch]. *)
Record FetchInit : Type := mkFetchInit {
  fetch_method : Method;
  fetch_headers : list (string * string);
  fetch_credentials : option string;
  fetch_body : JsValue;
}.

(** A response: the status, and what [res.json()] resolves to or
    rejects with. *)
Record FetchResponse : Type := mkFetchResponse {
  resp_status : nat;
  resp_json : Completion JsValue;
}.

(** [res.ok]: a status in the range 200 to 299. *)
Definition resp_ok (r : FetchResponse) : bool :=
  (200 <=? resp_status r) && (resp_status r <=? 299).

(** [`${getEvn('VITE_API_BASE_URL')}path`] *)
Definition api_url (env : Env) (path : string) : string :=
  default "undefined" (env_lookup "VITE_API_BASE_URL" env) +:+ path.

Inductive ClientE : Type → Type :=
| Fetch (url : string) (init : FetchInit) : ClientE FetchResponse
| ShowToast (kind : string) (msg : JsValue) : ClientE unit
| SetUser (user : JsValue) : ClientE unit
| Navigate (to : string) : ClientE unit
| FormReset : ClientE unit
| FormSetValue (field value : string) : ClientE unit
| FormSetErrors (errors : list (string * string)) : ClientE unit
| SetCategories (v : JsValue) : ClientE unit.

Definition Client : Type → Type := Prog ClientE.

Definition fetch (url : string) (init : FetchInit) : Client FetchResponse :=
  trigger (Fetch url init).
Definition showToast (kind : string) (msg : JsValue) : Client unit :=
  trigger (ShowToast kind msg).
Definition dispatch_setUser (user : JsValue) : Client unit := trigger (SetUser user).
Definition navigate (to : string) : Client unit := trigger (Navigate to).
Definition form_reset : Client unit := trigger FormReset.
Definition form_setValue (field value : string) : Client unit :=
  trigger (FormSetValue field value).
Definition form_setErrors (errors : list (string * string)) : Client unit :=
  trigger (FormSetErrors errors).
Definition setCategories (v : JsValue) : Client unit := trigger (SetCategories v).

(** The session slice of the store: [state.user]. *)
Record Session : Type := mkSession {
  isLoggedIn : bool;
  session_user : JsValue;
}.

Definition logged_out : Session := {| isLoggedIn := false; session_user := JUndefined |}.

(** The reducer of [setUser]. *)
Definition setUser (user : JsValue) (_ : Session) : Session :=
  {| isLoggedIn := true; session_user := user |}.

(** The values of a form, field by field, its default values, and the
    messages it shows. *)
Record Form : Type := mkForm {
  form_values : list (string * string);
  form_defaults : list (string * string);
  form_errors : list (string * string);
}.

Fixpoint set_value (field value : string) (vs : list (string * string))
    : list (string * string) :=
  match vs with
  | [] => [(field, value)]
  | (k, v) :: vs' =>
      if String.eqb k field then (k, value) :: vs' else (k, v) :: set_value field value vs'
  end.

(** [form.watch(field)] *)
Definition form_watch (field : string) (f : Form) : string :=
  default "" (env_lookup field (form_values f)).

(** The values as [handleSubmit] passes them on. *)
Definition values_json (f : Form) : JsValue :=
  JObj (prod_map id JStr <$> form_values f).

(** The state of the page. *)
Record Page : Type := mkPage {
  session : Session;
  location : string;
  toasts : list (string * JsValue);
  form : Form;
  categories : JsValue;
}.

(** The browser: the page and the network. *)
Record Browser (N : Type) : Type := mkBrowser {
  page : Page;
  network : N;
}.
Arguments mkBrowser {N} _ _.
Arguments page {N} _.
Arguments network {N} _.

(** What answers a request: the interpretation of [fetch] in the state
    of the network. *)
Definition Network (N : Type) : Type :=
  string → FetchInit → N → Completion FetchResponse * N.

Definition on_page {N} (f : Page → Page) (b : Browser N) : Completion unit * Browser N :=
  (Normal (), {| page := f (page b); network := network b |}).

Definition client_exec {N} (net : Network N) : Interp ClientE (Browser N) := λ R ev,
  match ev in ClientE R return Browser N → Completion R * Browser N with
  | Fetch url init => λ b,
      let '(r, n') := net url init (network b) in
      (r, {| page := page b; network := n' |})
  | ShowToast kind msg =>
      on_page (λ p, {| session := session p; location := location p;
                       toasts := toasts p ++ [(kind, msg)]; form := form p;
                       categories := categories p |})
  | SetUser user =>
      on_page (λ p, {| session := setUser user (session p); location := location p;
                       toasts := toasts p; form := form p; categories := categories p |})
  | Navigate to =>
      on_page (λ p, {| session := session p; location := to; toasts := toasts p;
                       form := form p; categories := categories p |})
  | FormReset =>
      on_page (λ p, {| session := session p; location := location p; toasts := toasts p;
                       form := {| form_values := form_defaults (form p);
                                  form_defaults := form_defaults (form p);
                                  form_errors := [] |};
                       categories := categories p |})
  | FormSetValue field value =>
      on_page (λ p, {| session := session p; location := location p; toasts := toasts p;
                       form := {| form_values := set_value field value (form_values (form p));
                                  form_defaults := form_defaults (form p);
                                  form_errors := form_errors (form p) |};
                       categories := categories p |})
  | FormSetErrors errors =>
      on_page (λ p, {| session := session p; location := location p; toasts := toasts p;
                       form := {| form_values := form_values (form p);
                                  form_defaults := form_defaults (form p);
                                  form_errors := errors |};
                       categories := categories p |})
  | SetCategories v =>
      on_page (λ p, {| session := session p; location := location p; toasts := toasts p;
                       form := form p; categories := v |})
  end.

(** The page with one more notification. *)
Definition with_toast (kind : string) (msg : JsValue) (p : Page) : Page :=
  {| session := session p; location := location p; toasts := toasts p ++ [(kind, msg)];
     form := form p; categories := categories p |}.

Definition reset_form (p : Page) : Page :=
  {| session := session p; location := location p; toasts := toasts p;
     form := {| form_values := form_defaults (form p);
                form_defaults := form_defaults (form p); form_errors := [] |};
     categories := categories p |}.

Definition with_categories (v : JsValue) (p : Page) : Page :=
  {| session := session p; location := location p; toasts := toasts p;
     form := form p; categories := v |}.

Definition with_value (field value : string) (p : Page) : Page :=
  {| session := session p; location := location p; toasts := toasts p;
     form := {| form_values := set_value field value (form_values (form p));
                form_defaults := form_defaults (form p);
                form_errors := form_errors (form p) |};
     categories := categories p |}.

(** A callback run in a browser. *)
Definition perform {N A} (net : Network N) (m : Client A) (b : Browser N)
    : Completion A * Browser N :=
  run (client_exec net) m b.

(** ** What a form shows

    A [FormField] of the component library is given the name of the
    field, a label and an input; it shows the input with the value of
    the field in the form, and the message of the field under it. *)
Record Field : Type := mkField {
  field_name : string;
  field_label : string;
  field_type : option string;
  field_placeholder : string;
}.

Record FieldView : Type := mkFieldView {
  shown_label : string;
  shown_type : option string;
  shown_placeholder : string;
  shown_value : string;
  shown_message : option string;
}.

(** [<FormItem> <FormLabel/> <FormControl> <Input {...field}/>
    </FormControl> <FormMessage/> </FormItem>] *)
Definition render_field (f : Form) (fd : Field) : FieldView :=
  {| shown_label := field_label fd;
     shown_type := field_type fd;
     shown_placeholder := field_placeholder fd;
     shown_value := form_watch (field_name fd) f;
     shown_message := env_lookup (field_name fd) (form_errors f) |}.

(** A form on the page: the heading, the fields and the button that
    submits. *)
Record FormView : Type := mkFormView {
  shown_heading : string;
  shown_fields : list FieldView;
  shown_button : string;
}.

(** [useForm({ resolver, defaultValues })]: the form as the component
    creates it. *)
Definition useForm (defaultValues : list (string * string)) : Form :=
  {| form_values := defaultValues; form_defaults := defaultValues; form_errors := [] |}.

(** Case analysis on the answer of the network and on what the response
    holds. *)
Ltac client_case :=
  match goal with
  | H : js_get ?k ?v = _ |- context [js_get ?k ?v] => rewrite H
  | H : js_is_str ?v ?s = _ |- context [js_is_str ?v ?s] => rewrite H
  | H : truthy ?v = _ |- context [truthy ?v] => rewrite H
  | |- context [resp_json ?r] => destruct (resp_json r) as [?|?] eqn:?
  | |- context [resp_ok ?r] => destruct (resp_ok r) eqn:?
  | |- context [js_get ?k ?v] => destruct (js_get k v) as [?|?] eqn:?
  | |- context [js_is_str ?v ?s] => destruct (js_is_str v s) eqn:?
  | |- context [truthy ?v] => destruct (truthy v) eqn:?
  end.

Ltac client_cases :=
  cbn;
  repeat match goal with
  | |- context [?net ?url ?init (network ?b)] =>
      destruct (net url init (network b)) as [[?|?] ?]; cbn
  end;
  repeat (first [progress autorewrite with blog_rw | client_case]; cbn);
  intros; simplify_eq/=; eauto; try congruence.

(** ** Validation of a form

    A schema gives each field its rules; [handleSubmit] calls the
    callback with the values when every rule holds and shows the
    messages otherwise.  The test of an e-mail address is a parameter. *)

Inductive Rule : Type :=
| MinLength (n : nat) (msg : string)
| Email.

Definition Schema : Type := list (string * list Rule).

Section validation.
Context (is_email : string → bool).

Definition check_rule (r : Rule) (v : string) : option string :=
  match r with
  | MinLength n msg => if (n <=? String.length v) then None else Some msg
  | Email => if is_email v then None else Some "Invalid email"
  end.

(** The messages of the rules a field breaks. *)
Definition check_field (vs : list (string * string)) (f : string * list Rule)
    : list (string * string) :=
  match env_lookup f.1 vs with
  | None => [(f.1, "Required")]
  | Some v => omap (λ r, pair f.1 <$> check_rule r v) f.2
  end.

Definition validate (schema : Schema) (vs : list (string * string))
    : list (string * string) :=
  schema ≫= check_field vs.

(** [form.handleSubmit(onSubmit)]: the callback runs only on valid
    values. *)
Definition handleSubmit (schema : Schema) (onSubmit : JsValue → Client unit) (f : Form)
    : Client unit :=
  match validate schema (form_values f) with
  | [] => form_setErrors [];; onSubmit (values_json f)
  | errors => form_setErrors errors
  end.

(** The page with the messages [errors] in its form. *)
Definition with_errors (errors : list (string * string)) (p : Page) : Page :=
  {| session := session p; location := location p; toasts := toasts p;
     form := {| form_values := form_values (form p);
                form_defaults := form_defaults (form p);
                form_errors := errors |};
     categories := categories p |}.

(** ** Lemmas *)

Lemma env_lookup_set_value k v vs : env_lookup k (set_value k v vs) = Some v.
Proof.
  induction vs as [|[k' v'] vs IH]; simpl; [by rewrite String.eqb_refl|].
  destruct (String.eqb k' k) eqn:E; simpl.
  - apply String.eqb_eq in E as ->. by rewrite String.eqb_refl.
  - rewrite String.eqb_sym, E. apply IH.
Qed.

Lemma env_lookup_set_value_ne k k' v vs :
  k ≠ k' → env_lookup k' (set_value k v vs) = env_lookup k' vs.
Proof.
  intros Hne. induction vs as [|[k0 v0] vs IH]; simpl.
  - by rewrite (proj2 (String.eqb_neq k' k)).
  - destruct (String.eqb k0 k) eqn:E; simpl; [|by rewrite IH].
    apply String.eqb_eq in E as ->. by rewrite (proj2 (String.eqb_neq k' k)).
Qed.

Lemma check_rule_MinLength n msg v :
  check_rule (MinLength n msg) v = None ↔ n ≤ String.length v.
Proof. simpl. case_match eqn:E; [apply Nat.leb_le in E|apply Nat.leb_gt in E]; split; (done || lia). Qed.

Lemma check_rule_Email v : check_rule Email v = None ↔ is_email v = true.
Proof. simpl. by destruct (is_email v). Qed.

(** A field passes when it has a value and no rule objects. *)
Lemma check_field_nil vs k rules :
  check_field vs (k, rules) = [] ↔
  ∃ v, env_lookup k vs = Some v ∧ Forall (λ r, check_rule r v = None) rules.
Proof.
  unfold check_field. simpl. destruct (env_lookup k vs) as [v|].
  - split.
    + intros H. exists v. split; [done|]. induction rules as [|r rules IH]; [done|].
      csimpl in H. destruct (check_rule r v) eqn:E; simplify_eq/=. constructor; auto.
    + intros (? & [= <-] & H). induction H as [|r rules Hr _ IH]; [done|].
      csimpl. by rewrite Hr.
  - split; [done|]. by intros (? & ? & _).
Qed.

Lemma validate_nil schema vs :
  validate schema vs = [] ↔ Forall (λ f, check_field vs f = []) schema.
Proof.
  unfold validate. induction schema as [|f schema IH]; [done|].
  rewrite bind_cons, Forall_cons, <- IH. split.
  - by intros [-> ->]%app_eq_nil.
  - by intros [-> ->].
Qed.

Lemma env_lookup_app k (l l' : list (string * string)) :
  env_lookup k (l ++ l') =
  match env_lookup k l with Some v => Some v | None => env_lookup k l' end.
Proof.
  induction l as [|[k' v] l IH]; simpl; [done|]. by destruct (String.eqb k k').
Qed.

(** The messages of a field are filed under its name. *)
Lemma check_field_keys vs f : Forall (λ e, e.1 = f.1) (check_field vs f).
Proof.
  unfold check_field. destruct (env_lookup f.1 vs) as [v|]; [|by repeat constructor].
  induction f.2 as [|r rules IH]; csimpl; [done|].
  destruct (check_rule r v); simpl; [constructor|]; done.
Qed.

Lemma env_lookup_other k (l : list (string * string)) :
  Forall (λ e, e.1 ≠ k) l → env_lookup k l = None.
Proof.
  induction 1 as [|[k' v] l Hk _ IH]; simpl; [done|].
  by rewrite (proj2 (String.eqb_neq k k')).
Qed.

Lemma env_lookup_head k (l : list (string * string)) :
  Forall (λ e, e.1 = k) l → env_lookup k l = head l.*2.
Proof. intros [|[k' v] l' Hk _]; simpl in *; [done|]. by rewrite Hk, String.eqb_refl. Qed.

(** The message a form shows for a field of its schema is the message
    of the first rule the value of the field breaks. *)
Lemma validate_lookup schema vs k rules :
  NoDup schema.*1 → (k, rules) ∈ schema →
  env_lookup k (validate schema vs) = head (check_field vs (k, rules)).*2.
Proof.
  unfold validate. induction schema as [|[k' rules'] schema IH]; [by intros _ ?%elem_of_nil|].
  rewrite fmap_cons, NoDup_cons, elem_of_cons, bind_cons, env_lookup_app.
  intros [Hk Hnd] [[= <- <-]|Hin].
  - rewrite (env_lookup_head k) by apply (check_field_keys vs (k, rules)).
    destruct (check_field vs (k, rules)) as [|[? m] ?] eqn:E; simpl; [|done].
    apply env_lookup_other, Forall_forall. intros e [f [He Hf]]%list_elem_of_bind Hek.
    pose proof (check_field_keys vs f) as Hks. rewrite Forall_forall in Hks.
    apply Hk. simpl. rewrite <- Hek, (Hks e He). by apply (list_elem_of_fmap_2 fst _ f).
  - rewrite env_lookup_other; [by apply IH|].
    eapply Forall_impl; [apply (check_field_keys vs (k', rules'))|]. simpl.
    intros e -> ->. apply Hk. by apply (list_elem_of_fmap_2 fst _ (k, rules)).
Qed.

(** On values that break a rule, [handleSubmit] shows the messages and
    does not call the callback: no request leaves the page. *)
Lemma handleSubmit_invalid {N} (net : Network N) schema onSubmit (b : Browser N) :
  validate schema (form_values (form (page b))) ≠ [] →
  perform net (handleSubmit schema onSubmit (form (page b))) b =
  (Normal (),
   {| page := with_errors (validate schema (form_values (form (page b)))) (page b);
      network := network b |}).
Proof. unfold handleSubmit. by destruct (validate _ _). Qed.

Lemma handleSubmit_valid {N} (net : Network N) schema onSubmit (b : Browser N) :
  validate schema (form_values (form (page b))) = [] →
  perform net (handleSubmit schema onSubmit (form (page b))) b =
  perform net (onSubmit (values_json (form (page b))))
    {| page := with_errors [] (page b); network := network b |}.
Proof. unfold handleSubmit. by intros ->. Qed.

End validation.
