(* ===== verification/Pending.v ===== *)
(** * Callbacks in flight together

    A callback of a page runs until it awaits the response to a request.
    Until the response arrives the page takes up other events, a second
    click among them, so that two callbacks interleave at their
    [await fetch(...)], and only there: what a callback does between two
    requests (notifications, the calls on the form, the session, the
    list) runs without interruption.  The state of the page and the
    network behind [fetch] are shared by all callbacks.

    [Tab] is the state of the loop: the browser, and what is left of
    each callback that was started.  [Start] runs a callback, which
    reads the state of the page as it is then, to its first request;
    [Arrive i] lets the request callback [i] waits for take effect and
    runs the callback to its next request.  The loop is the browser's
    and not among the sources; a request takes effect at the moment its
    response arrives, and the body of a response arrives with it.

    The lemmas say that a callback that runs alone does what the
    sequential semantics ([perform]) says, with as many arrivals as it
    awaits requests. *)

From S2P Require Import Prelude JsValue Effects Config Client.

(** ** Definitions *)

(** The calls a callback awaits: the requests. *)
Definition fetched {R} (ev : ClientE R) : bool :=
  match ev with Fetch _ _ => true | _ => false end.

(** What happens on the page next. *)
Inductive PageEvent : Type :=
| Start (task : Page → Client unit)
| Arrive (i : nat).

Record Tab (N : Type) : Type := mkTab {
  browser : Browser N;
  tasks : list (Client unit);
}.
Arguments mkTab {N} _ _.
Arguments browser {N} _.
Arguments tasks {N} _.

(** A page on which no callback has run. *)
Definition tab_of {N} (b : Browser N) : Tab N := {| browser := b; tasks := [] |}.

Section loop.
Context {N : Type} (net : Network N).

Definition page_step (ev : PageEvent) (t : Tab N) : Tab N :=
  match ev with
  | Start task =>
      let '(m', b) :=
        sync (client_exec net) (@fetched) (task (page (browser t))) (browser t) in
      {| browser := b; tasks := tasks t ++ [m'] |}
  | Arrive i =>
      match tasks t !! i with
      | Some m =>
          let '(m', b) := resume (client_exec net) (@fetched) m (browser t) in
          {| browser := b; tasks := <[i := m']> (tasks t) |}
      | None => t
      end
  end.

Definition page_run (evs : list PageEvent) (t : Tab N) : Tab N :=
  foldl (λ t' ev, page_step ev t') t evs.

End loop.

Arguments page_step : simpl never.

(** Every callback the schedule starts makes only calls that [ok]
    admits, whatever the page holds when it starts. *)
Definition starts_only (ok : ∀ R, ClientE R → bool) (evs : list PageEvent) : Prop :=
  Forall (λ ev, match ev with
                | Start task => ∀ p, only ok (task p)
                | Arrive _ => True
                end) evs.

(** The requests in flight: the callbacks that wait for a response. *)
Definition waiting (m : Client unit) : nat := if finished m then 0 else 1.

Definition in_flight {N} (t : Tab N) : nat := sum_list_with waiting (tasks t).

(** ** Tactics *)

(** Case analysis on what a response holds, for [only]. *)
Ltac only_cases :=
  cbn; repeat first
    [ done
    | client_case; cbn
    | match goal with
      | |- _ ∧ _ => split
      | |- ∀ _ : Completion _, _ => intros [?|?]; cbn
      | H : only _ (Vis ?ev ?k) |- only _ (?k' _) => apply H
      end ].

(** ** Lemmas *)

Lemma in_flight_app {N} (b : Browser N) ts m :
  in_flight {| browser := b; tasks := ts ++ [m] |}
  = in_flight {| browser := b; tasks := ts |} + waiting m.
Proof. unfold in_flight. cbn. rewrite sum_list_with_app. simpl. lia. Qed.

(** Replacing a callback by what is left of it. *)
Lemma in_flight_insert {N} (b b' : Browser N) ts i m m' :
  ts !! i = Some m →
  in_flight {| browser := b'; tasks := <[i := m']> ts |} + waiting m
  = in_flight {| browser := b; tasks := ts |} + waiting m'.
Proof.
  unfold in_flight, Client in *. cbn. revert i.
  induction ts as [|m0 ts IH]; intros [|i] Hi; simplify_eq/=; [lia|].
  specialize (IH i Hi). lia.
Qed.

Section loop_lemmas.
Context {N : Type} (net : Network N).

Lemma page_run_app evs evs' (t : Tab N) :
  page_run net (evs ++ evs') t = page_run net evs' (page_run net evs t).
Proof. apply foldl_app. Qed.

Lemma page_run_cons ev evs (t : Tab N) :
  page_run net (ev :: evs) t = page_run net evs (page_step net ev t).
Proof. done. Qed.

(** Every callback of the page waits for a response, or is at its
    end. *)
Lemma page_step_parked ev (t : Tab N) :
  Forall (parked (@fetched)) (tasks t) →
  Forall (parked (@fetched)) (tasks (page_step net ev t)).
Proof.
  intros Ht. unfold page_step. destruct ev as [task|i].
  - pose proof (sync_parked (client_exec net) (@fetched) (task (page (browser t)))
                  (browser t)) as Hp.
    destruct (sync _ _ _ _) as [m' b]. apply Forall_app. by repeat constructor.
  - destruct (tasks t !! i) as [m|] eqn:Hi; [|done].
    pose proof (resume_parked (client_exec net) (@fetched) m (browser t)) as Hp.
    destruct (resume _ _ m _) as [m' b]. by apply Forall_insert.
Qed.

Lemma page_run_parked evs (t : Tab N) :
  Forall (parked (@fetched)) (tasks t) →
  Forall (parked (@fetched)) (tasks (page_run net evs t)).
Proof.
  revert t. induction evs as [|ev evs IH]; intros t Ht; [done|].
  apply IH. by apply page_step_parked.
Qed.

(** What the calls of the callbacks keep true of the browser holds
    after every schedule, however the callbacks interleave. *)
Section invariant.
Context (ok : ∀ R, ClientE R → bool) (P : Browser N → Prop).
Context (HP : ∀ R (ev : ClientE R) b, ok R ev = true → P b → P (client_exec net R ev b).2).

Lemma page_step_invariant ev (t : Tab N) :
  starts_only ok [ev] → Forall (only ok) (tasks t) → P (browser t) →
  Forall (only ok) (tasks (page_step net ev t)) ∧ P (browser (page_step net ev t)).
Proof.
  unfold starts_only. rewrite Forall_singleton. intros Hev Ht Hb.
  unfold page_step. destruct ev as [task|i].
  - destruct (sync_only (client_exec net) (@fetched) ok P HP
                (task (page (browser t))) (browser t) (Hev _) Hb) as [Hm Hb'].
    destruct (sync _ _ _ _) as [m' b']. split; [|done].
    apply Forall_app. by repeat constructor.
  - destruct (tasks t !! i) as [m|] eqn:Hi; [|done].
    destruct (resume_only (client_exec net) (@fetched) ok P HP m (browser t)) as [Hm Hb'];
      [by eapply Forall_lookup_1|done|].
    destruct (resume _ _ m _) as [m' b']. split; [|done]. by apply Forall_insert.
Qed.

Lemma page_run_invariant evs (t : Tab N) :
  starts_only ok evs → Forall (only ok) (tasks t) → P (browser t) →
  P (browser (page_run net evs t)).
Proof.
  revert t. induction evs as [|ev evs IH]; intros t Hevs Ht Hb; [done|].
  apply Forall_cons in Hevs as [Hev Hevs].
  destruct (page_step_invariant ev t) as [Ht' Hb']; [by apply Forall_singleton|done..|].
  by apply IH.
Qed.

End invariant.

(** The response to the request of callback [i] arrives. *)
Lemma arrive_at i (m : Client unit) (t : Tab N) :
  tasks t !! i = Some m →
  page_step net (Arrive i) t
  = {| browser := (resume (client_exec net) (@fetched) m (browser t)).2;
       tasks := <[i := (resume (client_exec net) (@fetched) m (browser t)).1]> (tasks t) |}.
Proof.
  unfold page_step, Client in *. intros Hi. rewrite Hi. by destruct (resume _ _ m _).
Qed.

(** The response to the request of the callback started last arrives. *)
Lemma arrive_last ts (m : Client unit) (b : Browser N) :
  page_step net (Arrive (length ts)) {| browser := b; tasks := ts ++ [m] |}
  = {| browser := (resume (client_exec net) (@fetched) m b).2;
       tasks := ts ++ [(resume (client_exec net) (@fetched) m b).1] |}.
Proof.
  unfold page_step. cbn [tasks browser].
  rewrite lookup_app_r, Nat.sub_diag by done. cbn [lookup list_lookup].
  destruct (resume _ _ m b) as [m' b']. cbn [fst snd]. f_equal.
  by rewrite insert_app_r_alt, Nat.sub_diag by done.
Qed.

Lemma arrive_last_iter n ts (m : Client unit) (b : Browser N) :
  page_run net (replicate n (Arrive (length ts))) {| browser := b; tasks := ts ++ [m] |}
  = {| browser := (resumes (client_exec net) (@fetched) n m b).2;
       tasks := ts ++ [(resumes (client_exec net) (@fetched) n m b).1] |}.
Proof.
  revert m b. induction n as [|n IH]; intros m b; [done|].
  cbn [replicate resumes]. rewrite page_run_cons, arrive_last.
  destruct (resume _ _ m b) as [m' b']. apply IH.
Qed.

(** A callback that runs alone does what [perform] says: once as many
    responses have arrived as it awaits requests, it is at its end and
    the browser is the one the sequential semantics gives. *)
Lemma callback_alone n (task : Page → Client unit) (t : Tab N) :
  waits (client_exec net) (@fetched) (task (page (browser t))) (browser t) ≤ n →
  ∃ m',
    page_run net (Start task :: replicate n (Arrive (length (tasks t)))) t
    = {| browser := (perform net (task (page (browser t))) (browser t)).2;
         tasks := tasks t ++ [m'] |}
    ∧ result m' = Some (perform net (task (page (browser t))) (browser t)).1.
Proof.
  intros Hn. rewrite page_run_cons. unfold page_step at 1, perform.
  generalize dependent (task (page (browser t))). intros m Hn.
  rewrite (run_sync (client_exec net) (@fetched) m).
  pose proof (waits_sync (client_exec net) (@fetched) m (browser t)) as Hw.
  pose proof (sync_parked (client_exec net) (@fetched) m (browser t)) as Hp.
  destruct (sync _ _ m _) as [m0 b0]. cbn [fst snd] in *.
  rewrite arrive_last_iter.
  destruct (resumes_enough (client_exec net) (@fetched) n m0 b0 Hp) as [Hr Hb]; [lia|].
  eexists. split; [|exact Hr]. by rewrite Hb.
Qed.

End loop_lemmas.
