(* ===== verification/AdminLogin.v ===== *)
(** * The admin login page

    [src/client/src/pages/AdminLogin.jsx]: the schema of the form, the
    callback [onSubmit], the submit handler of the form ([submit]) and
    what the component returns ([render]).  The callback posts the credentials to
    [/auth/login]; the session is stored and the page navigates to the
    category management only when the response is successful and the
    user it returns has the role [admin].  The authentication endpoint
    is not among the sources: the theorems hold for every network. *)

From S2P Require Import Prelude JsValue Effects Http Config Client.

(** ** Definitions *)

Module AdminLogin.

Definition schema : Schema :=
  [("email", [Email]);
   ("password", [MinLength 3 "Password is required"])].

Definition defaultValues : list (string * string) :=
  [("email", ""); ("password", "")].

Definition onSubmit (env : Env) (values : JsValue) : Client unit :=
  try
    response ← fetch (api_url env "/auth/login")
                 {| fetch_method := POST;
                    fetch_headers := [("Content-Type", "application/json")];
                    fetch_credentials := Some "include";
                    fetch_body := values |};
    data ← lift (resp_json response);
    if negb (resp_ok response) then
      msg ← lift (js_get "message" data);
      showToast "error" msg
    else
      user ← lift (js_get "user" data);
      role ← lift (js_get "role" user);
      if negb (js_is_str role "admin") then
        showToast "error" (JStr "Access denied: Admins only")
      else
        dispatch_setUser user;;
        showToast "success" (JStr "Admin login successful");;
        navigate "/admin/categories"
  catch error =>
    showToast "error" (JStr (message error)).

(** What a login response says: a user with the role [admin], or
    anything else. *)
Definition admin_of (r : FetchResponse) : option JsValue :=
  if resp_ok r then
    match resp_json r with
    | Normal data =>
        match js_get "user" data with
        | Normal user =>
            match js_get "role" user with
            | Normal role => if js_is_str role "admin" then Some user else None
            | Abrupt _ => None
            end
        | Abrupt _ => None
        end
    | Abrupt _ => None
    end
  else None.

(** What the network's answer grants: the user to store, or nothing
    when the request failed. *)
Definition grants (c : Completion FetchResponse) : option JsValue :=
  match c with Normal r => admin_of r | Abrupt _ => None end.

(** The request [onSubmit] sends. *)
Definition login_init (values : JsValue) : FetchInit :=
  {| fetch_method := POST;
     fetch_headers := [("Content-Type", "application/json")];
     fetch_credentials := Some "include";
     fetch_body := values |}.

(** [useForm({ resolver: zodResolver(schema), defaultValues })] *)
Definition initial_form : Form := useForm defaultValues.

(** The two [FormField]s of the form. *)
Definition fields : list Field :=
  [ {| field_name := "email"; field_label := "Email"; field_type := None;
       field_placeholder := "Enter your email" |};
    {| field_name := "password"; field_label := "Password"; field_type := Some "password";
       field_placeholder := "Enter your password" |} ].

(** What the component returns: the heading, the two fields bound to
    the form, and the button. *)
Definition render (f : Form) : FormView :=
  {| shown_heading := "Admin Login";
     shown_fields := render_field f <$> fields;
     shown_button := "Login" |}.

(** [<form onSubmit={form.handleSubmit(onSubmit)}>] *)
Definition submit (is_email : string → bool) (env : Env) (f : Form) : Client unit :=
  handleSubmit is_email schema (onSubmit env) f.

(** A form with the two values. *)
Definition form_of (email password : string) : Form :=
  {| form_values := [("email", email); ("password", password)];
     form_defaults := defaultValues; form_errors := [] |}.

(** A network that answers every request with [r]. *)
Definition answering (r : Completion FetchResponse) : Network unit := λ _ _ n, (r, n).

(** The response to a login of a user with the role [role]. *)
Definition login_response (role : string) : FetchResponse :=
  {| resp_status := 200;
     resp_json := Normal (JObj [("success", JBool true);
                                ("user", JObj [("name", JStr "Asha"); ("role", JStr role)])]) |}.

Definition credentials : JsValue :=
  JObj [("email", JStr "asha@example.com"); ("password", JStr "secret")].

(** A browser on the login page, logged out. *)
Definition login_page : Browser unit :=
  {| page := {| session := logged_out; location := "/admin/login"; toasts := [];
                form := {| form_values := defaultValues; form_defaults := defaultValues;
                           form_errors := [] |};
                categories := JArr [] |};
     network := () |}.

(** The login page with the two values typed in. *)
Definition typed_login (email password : string) : Browser unit :=
  {| page := {| session := logged_out; location := "/admin/login"; toasts := [];
                form := form_of email password; categories := JArr [] |};
     network := () |}.

Ltac login_cases :=
  unfold grants, admin_of, perform, onSubmit, login_init; client_cases.

(** ** Theorems *)

Section login.
Context {N : Type} (net : Network N) (env : Env) (values : JsValue) (b : Browser N).

Let answer := net (api_url env "/auth/login") (login_init values) (network b).

(** C22: when the response is successful and its user has the role
    [admin], [onSubmit] stores the user in the session, confirms, and
    navigates to the category management. *)
Theorem login_admin user :
  grants answer.1 = Some user →
  perform net (onSubmit env values) b =
  (Normal (),
   {| page := {| session := {| isLoggedIn := true; session_user := user |};
                 location := "/admin/categories";
                 toasts := toasts (page b) ++ [("success", JStr "Admin login successful")];
                 form := form (page b); categories := categories (page b) |};
      network := answer.2 |}).
Proof. subst answer. login_cases. Qed.

(** C23: in every other case, a failed request, a response that is not
    successful, a user with another role or none, [onSubmit] leaves the
    session and the location as they are and shows one error. *)
Theorem login_refused :
  grants answer.1 = None →
  ∃ msg, perform net (onSubmit env values) b =
         (Normal (), {| page := with_toast "error" msg (page b); network := answer.2 |}).
Proof.
  subst answer. login_cases.
Qed.

(** A successful response whose user has another role is answered
    with the notification that access is for admins only. *)
Theorem login_non_admin resp data user role :
  answer.1 = Normal resp → resp_ok resp = true → resp_json resp = Normal data →
  js_get "user" data = Normal user → js_get "role" user = Normal role →
  js_is_str role "admin" = false →
  perform net (onSubmit env values) b =
  (Normal (),
   {| page := with_toast "error" (JStr "Access denied: Admins only") (page b);
      network := answer.2 |}).
Proof.
  subst answer. unfold perform, onSubmit, login_init. cbn.
  destruct (net _ _ _) as [r n']. simpl. intros -> Hok Hd Hu Hr Ha.
  repeat (cbn; first [rewrite Hd | rewrite Hok | rewrite Hu | rewrite Hr | rewrite Ha]).
  done.
Qed.

(** A response that is not successful is answered with the message
    of its body. *)
Theorem login_rejected resp data msg :
  answer.1 = Normal resp → resp_ok resp = false → resp_json resp = Normal data →
  js_get "message" data = Normal msg →
  perform net (onSubmit env values) b =
  (Normal (), {| page := with_toast "error" msg (page b); network := answer.2 |}).
Proof.
  subst answer. unfold perform, onSubmit, login_init. cbn.
  destruct (net _ _ _) as [r n']. simpl. intros -> Hok Hd Hm.
  repeat (cbn; first [rewrite Hd | rewrite Hok | rewrite Hm]). done.
Qed.

End login.

(** ** The form *)

(** The component renders one field for each key of the schema, under
    the name of the key, and each has a default value. *)
Lemma login_fields_of_schema :
  field_name <$> fields = schema.*1 ∧ field_name <$> fields = defaultValues.*1.
Proof. done. Qed.

(** The schema accepts the values exactly when the address passes the
    test and the password has three characters or more. *)
Lemma login_schema_valid is_email e p :
  validate is_email schema [("email", e); ("password", p)] = [] ↔
  is_email e = true ∧ 3 ≤ String.length p.
Proof.
  rewrite validate_nil. unfold schema. rewrite !Forall_cons, Forall_nil, !check_field_nil.
  cbn. split.
  - intros ((? & [= <-] & He) & (? & [= <-] & Hp) & _).
    apply Forall_singleton, check_rule_Email in He.
    by apply Forall_singleton, check_rule_MinLength in Hp.
  - intros [He Hp]. split_and!; [| |done]; eexists; (split; [done|]); apply Forall_singleton;
      [by apply check_rule_Email|by apply check_rule_MinLength].
Qed.

Section form.
Context {N : Type} (net : Network N) (is_email : string → bool) (env : Env).
Context (b : Browser N) (e p : string).
Context (Hform : form (page b) = form_of e p).

(** C38: A password of fewer than three characters is not sent: the form
    shows [Password is required] under the password field, nothing under
    the address, and the network is not touched. *)
Theorem submit_short_password :
  is_email e = true → String.length p < 3 →
  perform net (submit is_email env (form (page b))) b =
  (Normal (),
   {| page := with_errors [("password", "Password is required")] (page b);
      network := network b |})
  ∧ shown_message <$> shown_fields
      (render (form (with_errors [("password", "Password is required")] (page b))))
    = [None; Some "Password is required"].
Proof.
  intros He Hp. split; [|done].
  assert (validate is_email schema (form_values (form (page b)))
          = [("password", "Password is required")]) as Hv.
  { rewrite Hform. unfold validate. cbn. rewrite He.
    destruct (String.length p) as [|[|[|?]]]; cbn; (done || lia). }
  unfold submit. rewrite handleSubmit_invalid; by rewrite Hv.
Qed.

(** Values the schema accepts are posted as they stand, as the object
    [{ email, password }]. *)
Theorem submit_valid_posts :
  is_email e = true → 3 ≤ String.length p →
  perform net (submit is_email env (form (page b))) b =
  perform net (onSubmit env (JObj [("email", JStr e); ("password", JStr p)]))
    {| page := with_errors [] (page b); network := network b |}.
Proof.
  intros He Hp. unfold submit. rewrite handleSubmit_valid; [by rewrite Hform|].
  rewrite Hform. by apply login_schema_valid.
Qed.

End form.

(** ** The theorems at concrete responses *)

Lemma login_admin_example :
  perform (answering (Normal (login_response "admin"))) (onSubmit [] credentials) login_page =
  (Normal (),
   {| page := {| session := {| isLoggedIn := true;
                               session_user := JObj [("name", JStr "Asha");
                                                     ("role", JStr "admin")] |};
                 location := "/admin/categories";
                 toasts := [("success", JStr "Admin login successful")];
                 form := form (page login_page); categories := JArr [] |};
      network := () |}).
Proof. by apply (login_admin (answering (Normal (login_response "admin")))). Defined.

Lemma submit_short_password_example :
  perform (answering (Abrupt (TypeError "Failed to fetch")))
    (submit (λ _, true) [] (form (page (typed_login "asha@example.org" "pw"))))
    (typed_login "asha@example.org" "pw") =
  (Normal (),
   {| page := with_errors [("password", "Password is required")]
                (page (typed_login "asha@example.org" "pw"));
      network := () |})
  ∧ shown_message <$> shown_fields
      (render (form (with_errors [("password", "Password is required")]
                       (page (typed_login "asha@example.org" "pw")))))
    = [None; Some "Password is required"].
Proof.
  apply (submit_short_password (answering (Abrupt (TypeError "Failed to fetch")))
           (λ _, true) [] (typed_login "asha@example.org" "pw") "asha@example.org" "pw");
    [done|done|simpl; lia].
Defined.

Lemma login_refused_example :
  ∃ msg, perform (answering (Normal (login_response "user"))) (onSubmit [] credentials)
           login_page =
         (Normal (), {| page := with_toast "error" msg (page login_page); network := () |}).
Proof. by apply (login_refused (answering (Normal (login_response "user")))). Defined.

Lemma login_non_admin_example :
  perform (answering (Normal (login_response "user"))) (onSubmit [] credentials) login_page =
  (Normal (),
   {| page := with_toast "error" (JStr "Access denied: Admins only") (page login_page);
      network := () |}).
Proof.
  by eapply (login_non_admin (answering (Normal (login_response "user"))) [] credentials
               login_page (login_response "user")).
Defined.

End AdminLogin.
