(* ===== verification/AdminCategories.v ===== *)
(** * The category management page

    [src/client/src/pages/AdminCategories.jsx]: the schema of the form,
    the guard that sends everyone but an admin away, the effect that
    derives the slug from the name, the two callbacks that talk to the
    API ([fetchCategories], [onSubmit]), the hooks a render calls
    ([hooks]) and what the component returns ([component]): the
    redirection, or the form and the list of categories.  [slugify] is a
    library; the page is modelled for every
    function in its place. *)

From Stdlib Require Import Ascii.
From S2P Require Import Prelude JsValue Effects Http Config Client.

(** ** Definitions *)

Module AdminCategories.

Definition schema : Schema :=
  [("name", [MinLength 3 "Name must be at least 3 characters long"]);
   ("slug", [MinLength 3 "Slug must be at least 3 characters long"])].

Definition defaultValues : list (string * string) :=
  [("name", ""); ("slug", "")].

(** What the component returns: the redirection, or the page. *)
Inductive View : Type :=
| Redirect (to : string)
| Manage.

(** [state.user] as the component reads it. *)
Definition session_json (s : Session) : JsValue :=
  JObj [("isLoggedIn", JBool (isLoggedIn s)); ("user", session_user s)].

(** The guard at the top of the component. *)
Definition guard (user : JsValue) : Completion View :=
  isLoggedIn ← js_get "isLoggedIn" user;
  if negb (truthy isLoggedIn) then Normal (Redirect "/")
  else
    u ← js_get "user" user;
    role ← js_get "role" u;
    if negb (js_is_str role "admin") then Normal (Redirect "/")
    else Normal Manage.

(** The effect on [categoryName]: a name that is not empty sets the
    slug. *)
Definition slug_effect (slugify : string → string) (f : Form) : Client unit :=
  let categoryName := form_watch "name" f in
  if truthy (JStr categoryName) then
    let slug := slugify categoryName in
    form_setValue "slug" slug
  else mret ().

(** [fetch(url)] without options. *)
Definition get_init : FetchInit :=
  {| fetch_method := GET; fetch_headers := []; fetch_credentials := None;
     fetch_body := JUndefined |}.

Definition fetchCategories (env : Env) : Client unit :=
  try
    res ← fetch (api_url env "/category/all-category") get_init;
    data ← lift (resp_json res);
    if resp_ok res then
      category ← lift (js_get "category" data);
      list ← (if truthy category then mret category
              else categories ← lift (js_get "categories" data);
                   mret (js_or categories (JArr [])));
      setCategories list
    else
      msg ← lift (js_get "message" data);
      showToast "error" (js_or msg (JStr "Failed to load categories"))
  catch error =>
    showToast "error" (JStr (message error)).

Definition onSubmit (env : Env) (values : JsValue) : Client unit :=
  try
    res ← fetch (api_url env "/category/add")
            {| fetch_method := POST;
               fetch_headers := [("Content-Type", "application/json")];
               fetch_credentials := None;
               fetch_body := values |};
    data ← lift (resp_json res);
    if negb (resp_ok res) then
      msg ← lift (js_get "message" data);
      showToast "error" msg
    else
      msg ← lift (js_get "message" data);
      showToast "success" msg;;
      form_reset;;
      fetchCategories env
  catch error =>
    showToast "error" (JStr (message error)).

(** One item of the list: its key and the two values it shows. *)
Record Item : Type := mkItem {
  item_key : JsValue;
  item_name : JsValue;
  item_slug : JsValue;
}.

Definition render_item (cat : JsValue) : Completion Item :=
  k ← js_get "_id" cat;
  n ← js_get "name" cat;
  s ← js_get "slug" cat;
  Normal {| item_key := k; item_name := n; item_slug := s |}.

(** The list under "Existing Categories": the note that there are none,
    or one item per category. *)
Definition render_list (categories : JsValue) : Completion (bool * list Item) :=
  match categories with
  | JArr l =>
      items ← mapM render_item l;
      Normal (bool_decide (length l = 0), items)
  | _ => Abrupt (TypeError "categories.map is not a function")
  end.

(** [useState([])]: the list before the first fetch. *)
Definition initial_categories : JsValue := JArr [].

(** [useForm({ resolver: zodResolver(schema), defaultValues })] *)
Definition initial_form : Form := useForm defaultValues.

(** The effect that runs once, when the component is mounted. *)
Definition mount (env : Env) : Client unit := fetchCategories env.

(** The two [FormField]s of the form. *)
Definition fields : list Field :=
  [ {| field_name := "name"; field_label := "Name"; field_type := None;
       field_placeholder := "Category name" |};
    {| field_name := "slug"; field_label := "Slug"; field_type := None;
       field_placeholder := "Slug" |} ].

(** [<form onSubmit={form.handleSubmit(onSubmit)}>] *)
Definition submit (is_email : string → bool) (env : Env) (f : Form) : Client unit :=
  handleSubmit is_email schema (onSubmit env) f.

(** The page as the component finds it when it mounts: [useState] and
    [useForm] give the list and the form their first state. *)
Definition mounted (p : Page) : Page :=
  {| session := session p; location := location p; toasts := toasts p;
     form := initial_form; categories := initial_categories |}.

(** What the component returns: the redirection, or the form and,
    under the heading [Existing Categories], the note that there are
    none and the items. *)
Inductive Rendered : Type :=
| Navigated (to : string)
| Managed (form : FormView) (none_found : bool) (items : list Item).

Definition component (user : JsValue) (f : Form) (categories : JsValue)
    : Completion Rendered :=
  v ← guard user;
  match v with
  | Redirect to => Normal (Navigated to)
  | Manage =>
      '(none_found, items) ← render_list categories;
      Normal (Managed {| shown_heading := "Manage Categories";
                         shown_fields := render_field f <$> fields;
                         shown_button := "Add Category" |}
                none_found items)
  end.

(** The component on the state of a page. *)
Definition component_of (p : Page) : Completion Rendered :=
  component (session_json (session p)) (form p) (categories p).



(** The user types [value] into [field]; when the name changed, the
    effect runs on the new values. *)
Definition type_in (slugify : string → string) (field value : string) (f : Form)
    : Client unit :=
  form_setValue field value;;
  if String.eqb field "name" && negb (String.eqb value (form_watch "name" f))
  then slug_effect slugify
         {| form_values := set_value field value (form_values f);
            form_defaults := form_defaults f; form_errors := form_errors f |}
  else mret ().

(** The request [onSubmit] sends. *)
Definition add_init (values : JsValue) : FetchInit :=
  {| fetch_method := POST;
     fetch_headers := [("Content-Type", "application/json")];
     fetch_credentials := None;
     fetch_body := values |}.

(** A form with the two values. *)
Definition form_of (n sl : string) : Form :=
  {| form_values := [("name", n); ("slug", sl)]; form_defaults := defaultValues;
     form_errors := [] |}.

(** A browser on the category page with the two values in the form,
    in front of a network that answers every request with [r]. *)
Definition page_with (n sl : string) : Browser unit :=
  {| page := {| session := {| isLoggedIn := true;
                              session_user := JObj [("role", JStr "admin")] |};
                location := "/admin/categories"; toasts := [];
                form := form_of n sl; categories := JArr [] |};
     network := () |}.

Definition answering (r : Completion FetchResponse) : Network unit := λ _ _ n, (r, n).

(** A stand-in for [slugify] in the examples: spaces become hyphens. *)
Fixpoint hyphenate (s : string) : string :=
  match s with
  | EmptyString => EmptyString
  | String a s' => String (if Ascii.eqb a " " then "-"%char else a) (hyphenate s')
  end.

(** ** Theorems *)

(** The guard lets the page render exactly when the session is
    logged in and its user has the role [admin]. *)
Theorem guard_manage s :
  guard (session_json s) = Normal Manage ↔
  isLoggedIn s = true ∧ js_get "role" (session_user s) = Normal (JStr "admin").
Proof.
  unfold guard, session_json. rewrite !js_get_obj. cbn. rewrite truthy_JBool.
  destruct (isLoggedIn s); cbn; [|by intuition].
  destruct (js_get "role" (session_user s)) as [role|] eqn:E; cbn; [|by intuition].
  destruct role; cbn; try (by intuition). case_bool_decide; cbn; intuition congruence.
Qed.

(** A session that is not logged in is redirected to [/], whatever
    user it holds: the user is not read. *)
Theorem guard_logged_out user :
  guard (session_json {| isLoggedIn := false; session_user := user |}) = Normal (Redirect "/").
Proof. done. Qed.

Section slug.
Context {N : Type} (net : Network N) (slugify : string → string) (b : Browser N).

(** Typing a new, non-empty name sets the name and derives the slug
    from it. *)
Theorem type_name_sets_slug n :
  n ≠ "" → n ≠ form_watch "name" (form (page b)) →
  perform net (type_in slugify "name" n (form (page b))) b =
  (Normal (),
   {| page := with_value "slug" (slugify n) (with_value "name" n (page b));
      network := network b |}).
Proof.
  intros Hn Hold. unfold perform, type_in, slug_effect, form_watch in *. cbn.
  rewrite (proj2 (String.eqb_neq _ _) Hold), env_lookup_set_value. cbn.
  by rewrite truthy_JStr_true.
Qed.

(** Typing into the slug sets the slug and nothing else: the slug
    stays editable on its own. *)
Theorem type_slug_keeps_name v :
  perform net (type_in slugify "slug" v (form (page b))) b =
  (Normal (), {| page := with_value "slug" v (page b); network := network b |}).
Proof. done. Qed.

(** C39: clearing the name leaves the slug as it was: the effect only
    runs on a name that is not empty. *)
Theorem clear_name_keeps_slug :
  perform net (type_in slugify "name" "" (form (page b))) b =
  (Normal (), {| page := with_value "name" "" (page b); network := network b |}).
Proof.
  unfold perform, type_in, slug_effect, form_watch. cbn.
  destruct (negb _); cbn; [|done]. by rewrite env_lookup_set_value.
Qed.

End slug.

Section fetch.
Context {N : Type} (net : Network N) (env : Env) (b : Browser N).

Let answer := net (api_url env "/category/all-category") get_init (network b).

(** On a successful response whose [category] is truthy,
    [fetchCategories] puts it in the list and shows nothing. *)
Lemma fetchCategories_ok resp data list :
  answer.1 = Normal resp → resp_ok resp = true → resp_json resp = Normal data →
  js_get "category" data = Normal list → truthy list = true →
  perform net (fetchCategories env) b =
  (Normal (), {| page := with_categories list (page b); network := answer.2 |}).
Proof.
  subst answer. unfold perform, fetchCategories. cbn.
  destruct (net _ _ _) as [r n']. simpl. intros -> Hok Hd Hc Ht.
  repeat (cbn; first [rewrite Hd | rewrite Hok | rewrite Hc | rewrite Ht]). done.
Qed.

(** On a response that is not successful, [fetchCategories] shows
    the message of the body, or its own when there is none, and leaves
    the list as it is. *)
Theorem fetchCategories_failed resp data msg :
  answer.1 = Normal resp → resp_ok resp = false → resp_json resp = Normal data →
  js_get "message" data = Normal msg →
  perform net (fetchCategories env) b =
  (Normal (),
   {| page := with_toast "error" (js_or msg (JStr "Failed to load categories")) (page b);
      network := answer.2 |}).
Proof.
  subst answer. unfold perform, fetchCategories. cbn.
  destruct (net _ _ _) as [r n']. simpl. intros -> Hok Hd Hm.
  repeat (cbn; first [rewrite Hd | rewrite Hok | rewrite Hm]). done.
Qed.

Lemma fetchCategories_completes : (perform net (fetchCategories env) b).1 = Normal ().
Proof. unfold perform, fetchCategories. client_cases. Qed.

(** Whatever the network answers, [fetchCategories] completes,
    touches neither the session, the location nor the form, and either
    replaces the list or shows one notification, never both. *)
Theorem fetchCategories_keeps :
  ∃ p, perform net (fetchCategories env) b = (Normal (), {| page := p; network := answer.2 |})
       ∧ session p = session (page b) ∧ location p = location (page b)
       ∧ form p = form (page b)
       ∧ ((∃ v, p = with_categories v (page b)) ∨ (∃ msg, p = with_toast "error" msg (page b))).
Proof.
  subst answer. unfold perform, fetchCategories. client_cases;
    eexists; (split; [done|]); cbn; split_and!; try done; unfold with_categories, with_toast;
    eauto.
Qed.

End fetch.

Section submit.
Context {N : Type} (net : Network N) (env : Env) (values : JsValue) (b : Browser N).

Let answer := net (api_url env "/category/add") (add_init values) (network b).

(** When the API accepts the category, [onSubmit] shows the message of
    the response, resets the form to its defaults, and fetches the list
    again. *)
Lemma submit_ok resp data msg :
  answer.1 = Normal resp → resp_ok resp = true → resp_json resp = Normal data →
  js_get "message" data = Normal msg →
  perform net (onSubmit env values) b =
  perform net (fetchCategories env)
    {| page := reset_form (with_toast "success" msg (page b)); network := answer.2 |}.
Proof.
  subst answer. unfold perform, onSubmit, add_init.
  pose proof (fetchCategories_completes net env) as Hc. unfold perform in Hc.
  revert Hc. generalize (fetchCategories env). intros fc Hc. cbn.
  destruct (net _ _ _) as [r n']. simpl. intros -> Hok Hd Hm.
  repeat (cbn; first [rewrite Hd | rewrite Hok | rewrite Hm]). cbn.
  rewrite run_try_catch. unfold reset_form, with_toast. cbn.
  match goal with |- context [run _ fc ?w] =>
    specialize (Hc w); destruct (run (client_exec net) fc w) as [[[]|?] ?]
  end; done.
Qed.

(** When the API refuses, [onSubmit] shows the message of the response
    as an error and leaves the form and the list as they are: the values
    the user typed are kept. *)
Lemma submit_refused resp data msg :
  answer.1 = Normal resp → resp_ok resp = false → resp_json resp = Normal data →
  js_get "message" data = Normal msg →
  perform net (onSubmit env values) b =
  (Normal (), {| page := with_toast "error" msg (page b); network := answer.2 |}).
Proof.
  subst answer. unfold perform, onSubmit, add_init. cbn.
  destruct (net _ _ _) as [r n']. simpl. intros -> Hok Hd Hm.
  repeat (cbn; first [rewrite Hd | rewrite Hok | rewrite Hm]). done.
Qed.

End submit.

(** The schema accepts the values exactly when name and slug are both
    at least three characters long. *)
Lemma schema_valid is_email n sl :
  validate is_email schema [("name", n); ("slug", sl)] = [] ↔
  3 ≤ String.length n ∧ 3 ≤ String.length sl.
Proof.
  rewrite validate_nil. unfold schema. rewrite !Forall_cons, Forall_nil, !check_field_nil.
  cbn. split.
  - intros ((? & [= <-] & Hn) & (? & [= <-] & Hs) & _).
    apply Forall_singleton, check_rule_MinLength in Hn, Hs. done.
  - intros [Hn Hs]. split_and!; [| |done]; eexists; (split; [done|]);
      by apply Forall_singleton, check_rule_MinLength.
Qed.

(** C37: the schema draws the line at three characters: each of the two
    values is accepted exactly from length three on, and a shorter one
    yields the message of its own field, the name first. *)
Theorem schema_length_bounds is_email n sl :
  validate is_email schema [("name", n); ("slug", sl)] =
  (if decide (3 ≤ String.length n) then []
   else [("name", "Name must be at least 3 characters long")])
  ++ (if decide (3 ≤ String.length sl) then []
      else [("slug", "Slug must be at least 3 characters long")]).
Proof.
  unfold validate, schema, check_field. cbn -[Nat.leb].
  by do 2 (case_decide as H; [apply Nat.leb_le in H|apply Nat.leb_nle in H];
           rewrite H; clear H).
Qed.

(** Submitting a name or a slug shorter than three characters sends
    no request: the form shows the messages of the schema and the
    network is not touched. *)
Theorem submit_invalid {N} (net : Network N) is_email env n sl (b : Browser N) :
  form (page b) = form_of n sl →
  String.length n < 3 ∨ String.length sl < 3 →
  ∃ errors, errors ≠ [] ∧
    perform net (handleSubmit is_email schema (onSubmit env) (form (page b))) b =
    (Normal (), {| page := with_errors errors (page b); network := network b |}).
Proof.
  intros Hf Hshort. exists (validate is_email schema (form_values (form (page b)))).
  assert (validate is_email schema (form_values (form (page b))) ≠ []) as Hv.
  { rewrite Hf. simpl form_values. rewrite schema_valid. lia. }
  split; [done|]. by apply handleSubmit_invalid.
Qed.

(** ** The component *)

(** The component renders one field for each key of the schema, under
    the name of the key, and each has a default value. *)
Lemma categories_fields_of_schema :
  field_name <$> fields = schema.*1 ∧ field_name <$> fields = defaultValues.*1.
Proof. done. Qed.

(** A session the guard sends away sees nothing of the page: neither
    the form nor the list, whatever the list holds. *)
Lemma component_redirects user f categories to :
  guard user = Normal (Redirect to) → component user f categories = Normal (Navigated to).
Proof. unfold component. by intros ->. Qed.

(** For an admin the component shows the form with the values and the
    messages of its fields, and the list. *)
Lemma component_manages user f categories none_found items :
  guard user = Normal Manage → render_list categories = Normal (none_found, items) →
  component user f categories =
  Normal (Managed {| shown_heading := "Manage Categories";
                     shown_fields := render_field f <$> fields;
                     shown_button := "Add Category" |} none_found items).
Proof. unfold component. by intros -> ->. Qed.

(** A list that is not an array makes the component throw: the page
    does not render. *)
Lemma component_throws user f categories :
  guard user = Normal Manage → (∀ l, categories ≠ JArr l) →
  component user f categories = Abrupt (TypeError "categories.map is not a function").
Proof.
  unfold component. intros -> Hc. destruct categories as [| | | | |l|]; try done.
  by destruct (Hc l).
Qed.


(** The note [No categories found.] is shown exactly when the list is
    empty. *)
Lemma render_list_note l none_found items :
  render_list (JArr l) = Normal (none_found, items) →
  (none_found = true ↔ l = []) ∧ length items = length l.
Proof.
  unfold render_list. destruct (mapM render_item l) as [its|] eqn:E; [|done].
  intros [= <- <-]. split.
  - rewrite bool_decide_eq_true. by destruct l.
  - revert its E. induction l as [|c l IH]; intros its; csimpl; [by intros [= <-]|].
    destruct (render_item c); [|done]. csimpl.
    destruct (mapM render_item l) as [its'|]; [|done]. csimpl. intros [= <-].
    simpl. f_equal. by apply IH.
Qed.

(** ** The theorems at concrete pages *)


Lemma type_name_sets_slug_example :
  perform (answering (Abrupt (TypeError "Failed to fetch")))
    (type_in hyphenate "name" "tech news" (form (page (page_with "" "")))) (page_with "" "")
  = (Normal (),
     {| page := with_value "slug" "tech-news" (with_value "name" "tech news"
                                                   (page (page_with "" "")));
        network := () |}).
Proof.
  by apply (type_name_sets_slug (answering (Abrupt (TypeError "Failed to fetch"))) hyphenate
              (page_with "" "") "tech news").
Defined.

Lemma fetchCategories_failed_example :
  perform (answering (Normal {| resp_status := 500;
                                resp_json := Normal (JObj [("success", JBool false)]) |}))
    (fetchCategories []) (page_with "" "")
  = (Normal (),
     {| page := with_toast "error" (JStr "Failed to load categories") (page (page_with "" ""));
        network := () |}).
Proof.
  by apply (fetchCategories_failed
              (answering (Normal {| resp_status := 500;
                                    resp_json := Normal (JObj [("success", JBool false)]) |}))
              [] (page_with "" "")
              {| resp_status := 500; resp_json := Normal (JObj [("success", JBool false)]) |}
              (JObj [("success", JBool false)]) JUndefined).
Defined.

Lemma submit_invalid_example :
  ∃ errors, errors ≠ [] ∧
    perform (answering (Abrupt (TypeError "Failed to fetch")))
      (handleSubmit (λ _, true) schema (onSubmit []) (form (page (page_with "AI" "ai"))))
      (page_with "AI" "ai") =
    (Normal (), {| page := with_errors errors (page (page_with "AI" "ai")); network := () |}).
Proof.
  apply (submit_invalid (answering (Abrupt (TypeError "Failed to fetch"))) (λ _, true) []
           "AI" "ai"); [done|left; simpl; lia].
Defined.

End AdminCategories.
