(* ===== verification/System.v ===== *)
(** * The client and the server together

    The category page talks to the category API through [fetch].  The
    class [CategoryApi] states what the page relies on: what the two
    endpoints it calls answer, in terms of the categories behind them.
    The theorems of the page are proved for every network that
    satisfies the class; [server_api] shows that the router, the
    controller and the reference collection together satisfy it, so the
    theorems hold of the system. *)

From Stdlib Require Import Ascii.
From S2P Require Import Prelude JsValue Effects ObjectId Store Http Controller Service.
From S2P Require Import Router Config Client AdminLogin AdminCategories.

(** ** Definitions *)

(** The body of a request to add the category [(n, sl)]. *)
Definition category_values (n sl : string) : JsValue :=
  JObj [("name", JStr n); ("slug", JStr sl)].

Definition json_response (code : nat) (b : JsValue) : FetchResponse :=
  {| resp_status := code; resp_json := Normal b |}.

(** What the category page relies on. *)
Class CategoryApi (T : Type) : Type := {
  api_net : Env → Network T;
  api_categories : T → list Category;
  api_ready : T → Prop;
  api_list env n :
    api_net env (api_url env "/category/all-category") AdminCategories.get_init n =
    (Normal (json_response 200
               (JObj [("category",
                       JArr (category_json <$> merge_sort name_le (api_categories n)))])),
     n);
  api_add_conflict env n name sl :
    name ≠ "" → sl ≠ "" → sl ∈ slug <$> api_categories n →
    api_net env (api_url env "/category/add")
      (AdminCategories.add_init (category_values name sl)) n =
    (Normal (json_response 409 (JObj [("message", JStr "Category slug already exists.")])),
     n);
  api_add_created env n name sl :
    name ≠ "" → sl ≠ "" → sl ∉ slug <$> api_categories n → api_ready n →
    ∃ c n',
      api_net env (api_url env "/category/add")
        (AdminCategories.add_init (category_values name sl)) n =
      (Normal (json_response 201
                 (JObj [("message", JStr "Category added successfully.");
                        ("category", category_json c)])),
       n')
      ∧ Store.name c = name ∧ slug c = sl
      ∧ api_categories n' = api_categories n ++ [c];
}.

(** *** The server behind [fetch] *)

(** [s] without the prefix [p]. *)
Fixpoint strip_prefix (p s : string) : option string :=
  match p, s with
  | EmptyString, _ => Some s
  | String a p', String b s' => if Ascii.eqb a b then strip_prefix p' s' else None
  | String _ _, EmptyString => None
  end.

(** [req.body] as [express.json()] leaves it: the parsed body of a
    request that says it is JSON. *)
Definition request_body (init : FetchInit) : JsValue :=
  match env_lookup "Content-Type" (fetch_headers init) with
  | Some "application/json" => fetch_body init
  | _ => JUndefined
  end.

(** The answer to a request that matches no route: 404 with a body that
    is not JSON. *)
Definition not_found : FetchResponse :=
  {| resp_status := 404;
     resp_json := Abrupt {| err_name := "SyntaxError";
                            message := "Unexpected token '<'";
                            statusCode := None |} |}.

Definition response_of (w : option (nat * JsValue)) : Completion FetchResponse :=
  match w with
  | Some (code, b) => Normal (json_response code b)
  | None => Abrupt (TypeError "Failed to fetch")
  end.

(** The category router mounted under [/category] of the API. *)
Definition server_net (env : Env) : Network Collection := λ url init s,
  match strip_prefix (api_url env "/category") url with
  | Some path =>
      match route_request coll_exec (fetch_method init) path (request_body init) s with
      | Some (_, w) => (response_of (wire w), store w)
      | None => (Normal not_found, s)
      end
  | None => (Normal not_found, s)
  end.

(** The page with an empty form and the categories [v], no
    notification. *)
Definition category_page (v : JsValue) (n sl : string) : Page :=
  {| session := {| isLoggedIn := true;
                   session_user := JObj [("role", JStr "admin")] |};
     location := "/admin/categories";
     toasts := [];
     form := AdminCategories.form_of n sl;
     categories := v |}.

(** The category page of an admin in front of the server. *)
Definition admin_browser (n sl : string) (s : Collection) : Browser Collection :=
  {| page := category_page (JArr []) n sl; network := s |}.

(** The list of the categories behind the API, as the page holds it. *)
Definition listing {T : Type} `{!CategoryApi T} (n : T) : JsValue :=
  JArr (category_json <$> merge_sort name_le (api_categories n)).

(** The item the list shows for a category. *)
Definition item_of (c : Category) : AdminCategories.Item :=
  {| AdminCategories.item_key := JStr (hex24 (_id c));
     AdminCategories.item_name := JStr (name c);
     AdminCategories.item_slug := JStr (slug c) |}.

(** ** The server implements the API *)

Lemma strip_prefix_app p s : strip_prefix p (p +:+ s) = Some s.
Proof.
  induction p as [|a p IH]; [by destruct s|].
  rewrite string_app_cons. simpl. by rewrite Ascii.eqb_refl.
Qed.

Lemma api_url_category env path full :
  full = "/category" +:+ path →
  strip_prefix (api_url env "/category") (api_url env full) = Some path.
Proof. intros ->. unfold api_url. by rewrite string_app_assoc, strip_prefix_app. Qed.

Lemma server_list env s :
  server_net env (api_url env "/category/all-category") AdminCategories.get_init s =
  (Normal (json_response 200
             (JObj [("category", JArr (category_json <$> merge_sort name_le (docs s)))])),
   s).
Proof.
  unfold server_net. rewrite (api_url_category env "/all-category") by done.
  unfold route_request.
  replace (dispatch CategoryRoute _ _) with
    (Some (mkRoute GET "/all-category" [GetAllCategory], @nil (string * string)))
    by (by vm_compute).
  cbn. by serve_simpl.
Qed.

Lemma server_add_conflict env s n sl :
  n ≠ "" → sl ≠ "" → sl ∈ slug <$> docs s →
  server_net env (api_url env "/category/add")
    (AdminCategories.add_init (category_values n sl)) s =
  (Normal (json_response 409 (JObj [("message", JStr "Category slug already exists.")])), s).
Proof.
  intros Hn Hsl Hin. unfold server_net. rewrite (api_url_category env "/add") by done.
  unfold route_request.
  replace (dispatch CategoryRoute _ _) with
    (Some (mkRoute POST "/add" [AddCategory], @nil (string * string)))
    by (by vm_compute).
  cbn -[serve]. unfold run_route. cbn -[serve].
  by rewrite (coll_add_conflict _ s n sl).
Qed.

Lemma server_add_created env s n sl :
  n ≠ "" → sl ≠ "" → sl ∉ slug <$> docs s → coll_wf s ∧ has_supply s →
  ∃ c s',
    server_net env (api_url env "/category/add")
      (AdminCategories.add_init (category_values n sl)) s =
    (Normal (json_response 201
               (JObj [("message", JStr "Category added successfully.");
                      ("category", category_json c)])),
     s')
    ∧ Store.name c = n ∧ slug c = sl ∧ docs s' = docs s ++ [c].
Proof.
  intros Hn Hsl Hout [Hwf Hsup]. eexists _, _. unfold server_net.
  rewrite (api_url_category env "/add") by done. unfold route_request.
  replace (dispatch CategoryRoute _ _) with
    (Some (mkRoute POST "/add" [AddCategory], @nil (string * string)))
    by (by vm_compute).
  cbn -[serve]. unfold run_route. cbn -[serve].
  rewrite (coll_add_created _ s n sl) by done. cbn. done.
Qed.

#[export] Instance server_api : CategoryApi Collection := {|
  api_net := server_net;
  api_categories := docs;
  api_ready s := coll_wf s ∧ has_supply s;
  api_list := server_list;
  api_add_conflict := server_add_conflict;
  api_add_created := server_add_created;
|}.

(** ** The category page against the API *)

Import AdminCategories.

Section page.
Context {T : Type} `{!CategoryApi T} (is_email : string → bool) (env : Env).

(** Fetching puts the categories behind the API in the page, sorted by
    name. *)
Lemma page_lists_categories b :
  perform (api_net env) (fetchCategories env) b =
  (Normal (), {| page := with_categories (listing (network b)) (page b);
                 network := network b |}).
Proof.
  erewrite fetchCategories_ok; rewrite ?api_list; done.
Qed.

(** The list renders one item per category, in the order of the
    array. *)
Lemma render_items_categories (cs : list Category) :
  mapM render_item (category_json <$> cs) = Normal (item_of <$> cs).
Proof.
  induction cs as [|c cs IH]; [done|].
  change (mapM render_item (category_json <$> c :: cs))
    with (x ← render_item (category_json c);
          k ← mapM render_item (category_json <$> cs); mret (x :: k)).
  by rewrite IH.
Qed.

Lemma render_list_categories (cs : list Category) :
  render_list (JArr (category_json <$> cs)) =
  Normal (bool_decide (cs = []), item_of <$> cs).
Proof.
  unfold render_list. rewrite render_items_categories. csimpl.
  do 2 f_equal. by destruct cs.
Qed.

(** For an admin the component of a page that holds the listing of the
    API shows the form and the items of the categories behind the API,
    sorted by name. *)
Lemma component_of_listing (p : Page) (n : T) :
  guard (session_json (session p)) = Normal Manage →
  component_of (with_categories (listing n) p) =
  Normal (Managed {| shown_heading := "Manage Categories";
                     shown_fields := render_field (form p) <$> fields;
                     shown_button := "Add Category" |}
            (bool_decide (api_categories n = []))
            (item_of <$> merge_sort name_le (api_categories n))).
Proof.
  intros Hg. unfold component_of, listing. cbn [with_categories session form categories].
  erewrite component_manages; [|done|apply render_list_categories].
  do 2 f_equal. apply bool_decide_ext.
  split; [intros E|by intros ->].
  apply Permutation_nil_r. rewrite <- E. by rewrite merge_sort_Permutation.
Qed.

(** The page shows one item per category behind the API, in the order
    of their names, and the note that there are none exactly when there
    are none. *)
Theorem page_shows_listing (p : Page) (n : T) :
  guard (session_json (session p)) = Normal Manage →
  ∃ l,
    component_of (with_categories (listing n) p) =
    Normal (Managed {| shown_heading := "Manage Categories";
                       shown_fields := render_field (form p) <$> fields;
                       shown_button := "Add Category" |}
              (bool_decide (api_categories n = [])) (item_of <$> l))
    ∧ Sorted name_le l ∧ l ≡ₚ api_categories n.
Proof.
  intros Hg. exists (merge_sort name_le (api_categories n)).
  split; [by apply component_of_listing|]. split.
  - apply (Sorted_merge_sort name_le).
  - apply merge_sort_Permutation.
Qed.

Context (b : Browser T) (n sl : string).
Context (Hform : form (page b) = form_of n sl).
Context (Hn : 3 ≤ String.length n) (Hsl : 3 ≤ String.length sl).

(** C9: submitting a name and a slug of three characters or more, with
    a slug no category holds, stores the category behind the API; the
    page confirms, resets the form and lists the categories, the new
    one among them, sorted by name. *)
Theorem submit_adds_category :
  sl ∉ slug <$> api_categories (network b) → api_ready (network b) →
  ∃ c n',
    perform (api_net env) (handleSubmit is_email schema (onSubmit env) (form (page b))) b =
    (Normal (),
     {| page := with_categories (listing n')
                  (reset_form (with_toast "success" (JStr "Category added successfully.")
                                 (with_errors [] (page b))));
        network := n' |})
    ∧ Store.name c = n ∧ slug c = sl
    ∧ api_categories n' = api_categories (network b) ++ [c].
Proof.
  intros Hout Hready.
  assert (n ≠ "" ∧ sl ≠ "") as [Hne Hse] by (split; intros ->; simpl in *; lia).
  destruct (api_add_created env (network b) n sl Hne Hse Hout Hready)
    as (c & n' & Hadd & Hcn & Hcs & Hcats).
  exists c, n'. split; [|done].
  rewrite handleSubmit_valid by (rewrite Hform; apply (schema_valid is_email n sl); auto).
  rewrite Hform. change (values_json (form_of n sl)) with (category_values n sl).
  pose proof (submit_ok (api_net env) env (category_values n sl)
                {| page := with_errors [] (page b); network := network b |}) as Hs.
  cbn [network] in Hs. rewrite Hadd in Hs.
  rewrite (Hs _ _ _ eq_refl eq_refl eq_refl eq_refl).
  by rewrite page_lists_categories.
Qed.

(** C36: submitting a slug a category holds changes nothing behind the
    API; the page shows the message of the API as an error and keeps
    the values the user typed. *)
Theorem submit_duplicate_slug :
  sl ∈ slug <$> api_categories (network b) →
  perform (api_net env) (handleSubmit is_email schema (onSubmit env) (form (page b))) b =
  (Normal (),
   {| page := with_toast "error" (JStr "Category slug already exists.")
                (with_errors [] (page b));
      network := network b |}).
Proof.
  intros Hin.
  assert (n ≠ "" ∧ sl ≠ "") as [Hne Hse] by (split; intros ->; simpl in *; lia).
  rewrite handleSubmit_valid by (rewrite Hform; apply (schema_valid is_email n sl); auto).
  rewrite Hform. change (values_json (form_of n sl)) with (category_values n sl).
  pose proof (submit_refused (api_net env) env (category_values n sl)
                {| page := with_errors [] (page b); network := network b |}) as Hs.
  cbn [network] in Hs. rewrite (api_add_conflict env _ n sl Hne Hse Hin) in Hs.
  by rewrite (Hs _ _ _ eq_refl eq_refl eq_refl eq_refl).
Qed.
End page.

(** ** From the login to the category page *)

Section login_guard.
Context {N : Type} (net : Network N) (env : Env) (values : JsValue) (b : Browser N).

Let answer := net (api_url env "/auth/login") (AdminLogin.login_init values) (network b).
Let after := (perform net (AdminLogin.onSubmit env values) b).2.

(** After a login the network grants, the guard of the category
    page lets the page render. *)
Theorem admin_login_opens_categories user :
  AdminLogin.grants answer.1 = Some user →
  AdminCategories.guard (AdminCategories.session_json (session (page after))) = Normal AdminCategories.Manage.
Proof.
  subst answer after. unfold AdminCategories.guard, AdminCategories.session_json.
  AdminLogin.login_cases.
Qed.

(** C10: from a session that is not logged in, the guard of the category
    page lets the page render after a login only if the network granted
    it: the response was successful and its user has the role
    [admin]. *)
Theorem categories_for_admins_only :
  isLoggedIn (session (page b)) = false →
  AdminCategories.guard (AdminCategories.session_json (session (page after))) = Normal AdminCategories.Manage →
  ∃ user, AdminLogin.grants answer.1 = Some user.
Proof.
  subst answer after. unfold AdminCategories.guard, AdminCategories.session_json.
  AdminLogin.login_cases;
    match goal with
    | H : isLoggedIn _ = false, H0 : _ = Normal AdminCategories.Manage |- _ =>
        by rewrite H in H0
    end.
Qed.
End login_guard.

(** ** From the login to the list of categories *)

Section journey.
Context {T : Type} `{!CategoryApi T} {N : Type} (net : Network N) (env : Env).
Context (values : JsValue) (b : Browser N) (n : T).

Let answer := net (api_url env "/auth/login") (AdminLogin.login_init values) (network b).
Let logged := (perform net (AdminLogin.onSubmit env values) b).2.
Let opened :=
  (perform (api_net env) (mount env) {| page := mounted (page logged); network := n |}).2.

(** A login the network grants navigates to the category page. *)
Lemma login_navigates user :
  AdminLogin.grants answer.1 = Some user → location (page logged) = "/admin/categories".
Proof. subst answer logged. AdminLogin.login_cases. Qed.

(** C11: an admin who logs in sees the categories: a login the network
    grants navigates to the category page, and the page, once mounted in
    front of an API that satisfies the contract, shows the empty form and
    one item per category behind the API, in the order of their names,
    without changing anything behind the API. *)
Theorem admin_sees_categories user :
  AdminLogin.grants answer.1 = Some user →
  location (page logged) = "/admin/categories"
  ∧ network opened = n
  ∧ ∃ l,
      component_of (page opened) =
      Normal (Managed {| shown_heading := "Manage Categories";
                         shown_fields := render_field initial_form <$> fields;
                         shown_button := "Add Category" |}
                (bool_decide (api_categories n = [])) (item_of <$> l))
      ∧ Sorted name_le l ∧ l ≡ₚ api_categories n.
Proof.
  intros Hg. split; [by eapply login_navigates|].
  subst opened. unfold mount. rewrite page_lists_categories. split; [done|].
  exists (merge_sort name_le (api_categories n)). cbn [snd page network]. split_and!.
  - apply component_of_listing. by eapply admin_login_opens_categories.
  - apply (Sorted_merge_sort name_le).
  - apply merge_sort_Permutation.
Qed.
End journey.

(** ** The theorems at a concrete system *)

Lemma page_shows_listing_example :
  ∃ l,
    component_of (with_categories (listing (two_categories false))
                    (category_page (JArr []) "" "")) =
    Normal (Managed {| shown_heading := "Manage Categories";
                       shown_fields :=
                         render_field (form (category_page (JArr []) "" "")) <$> fields;
                       shown_button := "Add Category" |}
              (bool_decide (api_categories (two_categories false) = []))
              (item_of <$> l))
    ∧ Sorted name_le l ∧ l ≡ₚ api_categories (two_categories false).
Proof. by apply (page_shows_listing (category_page (JArr []) "" "") (two_categories false)). Defined.

Lemma admin_sees_categories_example :
  location (page (perform (AdminLogin.answering (Normal (AdminLogin.login_response "admin")))
                    (AdminLogin.onSubmit [] AdminLogin.credentials) AdminLogin.login_page).2)
  = "/admin/categories"
  ∧ network (perform (api_net []) (mount [])
               {| page := mounted (page (perform
                    (AdminLogin.answering (Normal (AdminLogin.login_response "admin")))
                    (AdminLogin.onSubmit [] AdminLogin.credentials) AdminLogin.login_page).2);
                  network := two_categories false |}).2
    = two_categories false
  ∧ ∃ l,
      component_of (page (perform (api_net []) (mount [])
               {| page := mounted (page (perform
                    (AdminLogin.answering (Normal (AdminLogin.login_response "admin")))
                    (AdminLogin.onSubmit [] AdminLogin.credentials) AdminLogin.login_page).2);
                  network := two_categories false |}).2) =
      Normal (Managed {| shown_heading := "Manage Categories";
                         shown_fields := render_field initial_form <$> fields;
                         shown_button := "Add Category" |}
                (bool_decide (api_categories (two_categories false) = [])) (item_of <$> l))
      ∧ Sorted name_le l ∧ l ≡ₚ api_categories (two_categories false).
Proof.
  by eapply (admin_sees_categories
               (AdminLogin.answering (Normal (AdminLogin.login_response "admin")))
               [] AdminLogin.credentials AdminLogin.login_page (two_categories false)).
Defined.

Lemma submit_adds_category_example :
  ∃ (c : Category) (s' : Collection),
    perform (api_net [])
      (handleSubmit (λ _, true) schema (onSubmit [])
         (form (page (admin_browser "Travel" "travel" (two_categories false)))))
      (admin_browser "Travel" "travel" (two_categories false)) =
    (Normal (),
     {| page := with_categories (listing s')
                  (reset_form
                     (with_toast "success" (JStr "Category added successfully.")
                        (with_errors []
                           (page (admin_browser "Travel" "travel" (two_categories false))))));
        network := s' |})
    ∧ Store.name c = "Travel" ∧ slug c = "travel"
    ∧ api_categories s'
      = api_categories (network (admin_browser "Travel" "travel" (two_categories false)))
        ++ [c].
Proof.
  apply (submit_adds_category (λ _, true) []
           (admin_browser "Travel" "travel" (two_categories false)) "Travel" "travel");
    [done|by_eval..|split; by_eval].
Defined.

Lemma submit_duplicate_slug_example :
  perform (api_net [])
    (handleSubmit (λ _, true) schema (onSubmit [])
       (form (page (admin_browser "Athletics" "sports" (two_categories false)))))
    (admin_browser "Athletics" "sports" (two_categories false)) =
  (Normal (),
   {| page := with_toast "error" (JStr "Category slug already exists.")
                (with_errors []
                   (page (admin_browser "Athletics" "sports" (two_categories false))));
      network := network (admin_browser "Athletics" "sports" (two_categories false)) |}).
Proof.
  apply (submit_duplicate_slug (λ _, true) []
           (admin_browser "Athletics" "sports" (two_categories false)) "Athletics" "sports");
    [done|by_eval..].
Defined.

Lemma admin_login_opens_categories_example :
  guard (session_json (session (page
    (perform (AdminLogin.answering (Normal (AdminLogin.login_response "admin")))
       (AdminLogin.onSubmit [] AdminLogin.credentials) AdminLogin.login_page).2)))
  = Normal Manage.
Proof.
  by eapply (admin_login_opens_categories
               (AdminLogin.answering (Normal (AdminLogin.login_response "admin")))).
Defined.

Lemma categories_for_admins_only_example :
  ∃ user,
    AdminLogin.grants
      (AdminLogin.answering (Normal (AdminLogin.login_response "admin"))
         (api_url [] "/auth/login") (AdminLogin.login_init AdminLogin.credentials)
         (network AdminLogin.login_page)).1 = Some user.
Proof.
  by apply (categories_for_admins_only
              (AdminLogin.answering (Normal (AdminLogin.login_response "admin")))
              [] AdminLogin.credentials AdminLogin.login_page).
Defined.
