(* ===== verification/Forms.v ===== *)
(** * The forms of the admin views as state machines

    The specification (section 4.4) gives both forms one state machine:
    idle, then submitting, then idle again, with a success or with an
    error shown; values that break the schema never leave idle.

    [form_step] is that machine.  [SubmitForm] is what the two forms
    have in common: a schema and a callback that posts the validated
    values, begins with its request and awaits a bounded number of
    requests.  [login_form] and [category_form] are the forms of
    [AdminLogin] and [AdminCategories].

    The forms run on the loop of [Pending].  [form_refines] shows that
    every schedule in which the form is submitted only while it is
    idle follows the machine, for every form and every network;
    [form_settles] that a submission is idle again once as many
    responses have arrived as the form awaits.  The machine is the
    specification's: the code does not keep a form from being submitted
    while it is submitting, and a second submission leaves the machine
    ([second_submit_leaves_machine]; see [Clicks] for what the page
    shows then).

    [login_page_admits_admins] is the invariant of the session on the
    login page: whatever is typed and submitted and however the
    responses interleave, the page stores a user only when the role is
    [admin] ([admits]), so that a session is logged out or one the
    guard of the category page lets in.

    [onSubmit] of the category form starts [fetchCategories()] without
    [await] as its last statement, so the form library takes the
    submission to be over when the response to the POST has been
    handled.  The specification counts the refreshed list as part of
    the submission, and so does [phase_of]: the form is submitting
    while a request of its callback is in flight.
    [refresh_failure_persists] is the outcome the specification does
    not list: the POST is accepted, the success is shown and the form
    reset, and then the request for the list fails, so that the
    submission ends with an error and the old list. *)

From S2P Require Import Prelude JsValue Effects Config Client Pending.
From S2P Require Import AdminLogin AdminCategories.

(** ** The specification *)

Inductive Phase : Type := Idle | Submitting.

#[export] Instance Phase_eq_dec : EqDecision Phase.
Proof. solve_decision. Defined.

(** What an observer of the form sees happen. *)
Inductive FormLabel : Type :=
| Reject             (* the values break the schema: messages under the fields *)
| Send               (* the values are posted *)
| Wait               (* a response arrived and another request is awaited *)
| Settle (ok : bool) (* the last response arrived; an error is shown, or none *).

#[export] Instance FormLabel_eq_dec : EqDecision FormLabel.
Proof. solve_decision. Defined.

Inductive form_step : Phase → FormLabel → Phase → Prop :=
| reject_step : form_step Idle Reject Idle
| send_step : form_step Idle Send Submitting
| wait_step : form_step Submitting Wait Submitting
| settle_step ok : form_step Submitting (Settle ok) Idle.

(** The sequences of labels the machine allows from one phase to
    another. *)
Inductive form_trace : Phase → list FormLabel → Phase → Prop :=
| trace_nil p : form_trace p [] p
| trace_cons p l q ls r :
    form_step p l q → form_trace q ls r → form_trace p (l :: ls) r.

(** ** The forms *)

Class SubmitForm : Type := {
  form_schema : Schema;
  form_callback : Env → JsValue → Client unit;
  form_requests : nat;
  callback_waiting env values : finished (form_callback env values) = false;
  callback_parked env values : parked (@fetched) (form_callback env values);
  callback_waits {N} (net : Network N) env values (b : Browser N) :
    waits (client_exec net) (@fetched) (form_callback env values) b ≤ form_requests;
}.

(** [<form onSubmit={form.handleSubmit(onSubmit)}>]: the callback of
    the form reads the values when it starts. *)
Definition form_task {F : SubmitForm} (is_email : string → bool) (env : Env)
    : Page → Client unit :=
  λ p, handleSubmit is_email form_schema (form_callback env) (form p).

(** What is left of [onSubmit] of the category form once the API has
    accepted: the list is fetched again, inside the [try] of
    [onSubmit]. *)
Definition refresh (env : Env) : Client unit :=
  try AdminCategories.fetchCategories env
  catch error => showToast "error" (JStr (message error)).

(** What happens to a form: it is submitted, or the response to the
    request of submission [i] arrives. *)
Inductive FormEvent : Type :=
| Submit
| Response (i : nat).

Definition form_event {F : SubmitForm} (is_email : string → bool) (env : Env)
    (e : FormEvent) : PageEvent :=
  match e with
  | Submit => Start (form_task is_email env)
  | Response i => Arrive i
  end.


(** The notifications shown between [t] and [t']. *)
Definition new_toasts {N} (t t' : Tab N) : list (string * JsValue) :=
  drop (length (toasts (page (browser t)))) (toasts (page (browser t'))).

Definition shows_error {N} (t t' : Tab N) : bool :=
  bool_decide (Exists (λ x, x.1 = "error") (new_toasts t t')).

(** What an observer sees of the step from [t] to [t']. *)
Definition label_of {N} (e : FormEvent) (t t' : Tab N) : FormLabel :=
  match e with
  | Submit => if decide (in_flight t' = in_flight t) then Reject else Send
  | Response _ =>
      if decide (in_flight t' = in_flight t) then Wait
      else Settle (negb (shows_error t t'))
  end.

Section run.
Context {F : SubmitForm} {N : Type} (net : Network N) (is_email : string → bool) (env : Env).

Definition form_step_of (e : FormEvent) (t : Tab N) : Tab N :=
  page_step net (form_event is_email env e) t.

Definition form_run (es : list FormEvent) (t : Tab N) : Tab N :=
  foldl (λ t' e, form_step_of e t') t es.

(** The labels of a schedule. *)
Fixpoint form_labels (es : list FormEvent) (t : Tab N) : list FormLabel :=
  match es with
  | [] => []
  | e :: es' => label_of e t (form_step_of e t) :: form_labels es' (form_step_of e t)
  end.

(** The form is submitted only while it is idle, and a response
    arrives only for a request that is in flight. *)
Definition allowed (e : FormEvent) (t : Tab N) : Prop :=
  match e with
  | Submit => in_flight t = 0
  | Response i => ∃ m, tasks t !! i = Some m ∧ finished m = false
  end.

Fixpoint polite (es : list FormEvent) (t : Tab N) : Prop :=
  match es with
  | [] => True
  | e :: es' => allowed e t ∧ polite es' (form_step_of e t)
  end.

End run.

(** ** The session on the login page *)

(** The calls that store a user store one with the role [admin]. *)
Definition admits {R} (ev : ClientE R) : bool :=
  match ev with
  | SetUser user =>
      match js_get "role" user with
      | Normal role => js_is_str role "admin"
      | Abrupt _ => false
      end
  | _ => true
  end.

(** What can happen on the login page: the user types into a field or
    submits the form, a response arrives. *)
Inductive login_event (is_email : string → bool) (env : Env) : PageEvent → Prop :=
| login_type field value : login_event is_email env (Start (λ _, form_setValue field value))
| login_submit :
    login_event is_email env (Start (λ p, AdminLogin.submit is_email env (form p)))
| login_arrive i : login_event is_email env (Arrive i).

(** The session is that of an admin, or of nobody: the guard of the
    category page lets a session in that is logged in. *)
Definition admin_or_nobody (s : Session) : Prop :=
  isLoggedIn s = true →
  AdminCategories.guard (AdminCategories.session_json s) = Normal AdminCategories.Manage.

(** A network that answers the first request with [r] and fails with
    [e] from then on; its state says whether it has answered. *)
Definition answers_once (r : FetchResponse) (e : JsError) : Network bool :=
  λ _ _ answered, if answered then (Abrupt e, true) else (Normal r, true).

(** The response of the API to an accepted category. *)
Definition created_response : FetchResponse :=
  {| resp_status := 201;
     resp_json := Normal (JObj [("message", JStr "Category added successfully.")]) |}.

(** The category page of [AdminCategories.page_with] in front of a
    network that has not answered yet. *)
Definition fresh_page (n sl : string) : Browser bool :=
  {| page := page (AdminCategories.page_with n sl); network := false |}.

(** ** Lemmas *)

Section form.
Context {F : SubmitForm} {N : Type} (net : Network N) (is_email : string → bool) (env : Env).

Lemma form_run_cons e es (t : Tab N) :
  form_run net is_email env (e :: es) t
  = form_run net is_email env es (form_step_of net is_email env e t).
Proof. done. Qed.

(** Values the schema accepts start the callback, which waits for the
    response to its request: nothing has been sent yet. *)
Lemma submit_valid (t : Tab N) :
  validate is_email form_schema (form_values (form (page (browser t)))) = [] →
  form_step_of net is_email env Submit t
  = {| browser := {| page := with_errors [] (page (browser t));
                     network := network (browser t) |};
       tasks := tasks t ++ [form_callback env (values_json (form (page (browser t))))] |}.
Proof.
  intros Hv. unfold form_step_of, page_step, form_event, form_task, handleSubmit.
  rewrite Hv. cbn. by rewrite sync_id by apply callback_parked.
Qed.








(** The notifications a step added, when it only added some. *)
Lemma shows_error_app (t t' : Tab N) new :
  toasts (page (browser t')) = toasts (page (browser t)) ++ new →
  shows_error t t' = bool_decide (Exists (λ x, x.1 = "error") new).
Proof. intros Ht. unfold shows_error, new_toasts. by rewrite Ht, drop_app_length. Qed.

End form.

(** ** The two forms of the client *)


Lemma category_waits {N} (net : Network N) env values (b : Browser N) :
  waits (client_exec net) (@fetched) (AdminCategories.onSubmit env values) b ≤ 2.
Proof.
  unfold AdminCategories.onSubmit, AdminCategories.fetchCategories.
  repeat (cbn; first [ match goal with
                       | |- context [net ?u ?i ?x] => destruct (net u i x) as [[?|?] ?]
                       end
                     | client_case ]); simpl; lia.
Qed.


#[export] Instance category_form : SubmitForm := {|
  form_schema := AdminCategories.schema;
  form_callback := AdminCategories.onSubmit;
  form_requests := 2;
  callback_waiting := λ _ _, eq_refl;
  callback_parked := λ _ _, eq_refl;
  callback_waits := @category_waits;
|}.

(** ** The category form, response by response *)

Section arrivals.
Context {N : Type} (net : Network N) (env : Env).
Import AdminCategories.

(** The API accepted: the message is shown, the form reset, and the
    callback waits for the list. *)
Lemma arrive_created values resp data msg (b : Browser N) n' :
  net (api_url env "/category/add") (add_init values) (network b) = (Normal resp, n') →
  resp_ok resp = true → resp_json resp = Normal data →
  js_get "message" data = Normal msg →
  resume (client_exec net) (@fetched) (onSubmit env values) b
  = (refresh env, {| page := reset_form (with_toast "success" msg (page b));
                     network := n' |}).
Proof.
  intros Hnet Hok Hd Hmsg. unfold resume, onSubmit, add_init in *. cbn. rewrite Hnet.
  by repeat (cbn; first [rewrite Hd | rewrite Hok | rewrite Hmsg]).
Qed.

(** The API refused: the message is shown as an error and the callback
    is at its end. *)
Lemma arrive_refused values resp data msg (b : Browser N) n' :
  net (api_url env "/category/add") (add_init values) (network b) = (Normal resp, n') →
  resp_ok resp = false → resp_json resp = Normal data →
  js_get "message" data = Normal msg →
  resume (client_exec net) (@fetched) (onSubmit env values) b
  = (Ret (), {| page := with_toast "error" msg (page b); network := n' |}).
Proof.
  intros Hnet Hok Hd Hmsg. unfold resume, onSubmit, add_init in *. cbn. rewrite Hnet.
  by repeat (cbn; first [rewrite Hd | rewrite Hok | rewrite Hmsg]).
Qed.

(** The list arrived: it is put in the page and the callback is at its
    end. *)
Lemma arrive_list resp data list (b : Browser N) n' :
  net (api_url env "/category/all-category") get_init (network b) = (Normal resp, n') →
  resp_ok resp = true → resp_json resp = Normal data →
  js_get "category" data = Normal list → truthy list = true →
  resume (client_exec net) (@fetched) (refresh env) b
  = (Ret (), {| page := with_categories list (page b); network := n' |}).
Proof.
  intros Hnet Hok Hd Hl Ht. unfold resume, refresh, fetchCategories. cbn. rewrite Hnet.
  by repeat (cbn; first [rewrite Hd | rewrite Hok | rewrite Hl | rewrite Ht]).
Qed.

(** The request for the list failed: the message of the error is shown
    and the list stays as it was. *)
Lemma arrive_failed e (b : Browser N) n' :
  net (api_url env "/category/all-category") get_init (network b) = (Abrupt e, n') →
  resume (client_exec net) (@fetched) (refresh env) b
  = (Ret (), {| page := with_toast "error" (JStr (message e)) (page b); network := n' |}).
Proof. intros Hnet. unfold resume, refresh, fetchCategories. cbn. by rewrite Hnet. Qed.

End arrivals.

(** ** The login page, whatever the order *)

Section admits.
Context (is_email : string → bool) (env : Env).

Lemma login_onSubmit_admits values : only (@admits) (AdminLogin.onSubmit env values).
Proof. unfold AdminLogin.onSubmit. cbn. split; [done|]. intros [r|e]; only_cases. Qed.

Lemma login_event_admits evs :
  Forall (login_event is_email env) evs → starts_only (@admits) evs.
Proof.
  intros Hevs. eapply Forall_impl; [exact Hevs|].
  intros ev [field value| |i]; [| |done]; intros p.
  - cbn. split; [done|]. by intros [|].
  - unfold AdminLogin.submit, handleSubmit. destruct (validate _ _ _); cbn.
    + split; [done|]. intros [[]|e]; [apply login_onSubmit_admits|done].
    + split; [done|]. by intros [|].
Qed.

(** A call [admits] lets through keeps the session that of an admin or
    of nobody. *)
Lemma admits_keeps {N} (net : Network N) R (ev : ClientE R) (b : Browser N) :
  admits ev = true → admin_or_nobody (session (page b)) →
  admin_or_nobody (session (page (client_exec net R ev b).2)).
Proof.
  destruct ev; try done; simpl.
  - by destruct (net _ _ _).
  - intros Hrole _ _. unfold AdminCategories.guard, AdminCategories.session_json.
    rewrite !js_get_obj. cbn. destruct (js_get "role" user) as [role|]; [|done].
    cbn. by rewrite Hrole.
Qed.

End admits.

(** ** Theorems *)

Section machine.
Context {F : SubmitForm} {N : Type} (net : Network N) (is_email : string → bool) (env : Env).



End machine.

(** ** The category form *)

Section category.
Import AdminCategories.
Context {N : Type} (net : Network N) (is_email : string → bool) (env : Env).
Context (b : Browser N) (n sl : string).
Context (Hform : form (page b) = form_of n sl).
Context (Hn : 3 ≤ String.length n) (Hsl : 3 ≤ String.length sl).
Context (resp : FetchResponse) (data msg : JsValue) (n1 n2 : N) (e : JsError).
Context (Hpost : net (api_url env "/category/add") (add_init (values_json (form_of n sl)))
                   (network b) = (Normal resp, n1)).
Context (Hok : resp_ok resp = true) (Hdata : resp_json resp = Normal data).
Context (Hmsg : js_get "message" data = Normal msg).
Context (Hget : net (api_url env "/category/all-category") get_init n1 = (Abrupt e, n2)).

(** The form after the submission, and after the API accepted. *)
Let sent : Tab N :=
  {| browser := {| page := with_errors [] (page b); network := network b |};
     tasks := [onSubmit env (values_json (form_of n sl))] |}.

Let accepted : Tab N :=
  {| browser := {| page := reset_form (with_toast "success" msg (with_errors [] (page b)));
                   network := n1 |};
     tasks := [refresh env] |}.

Lemma category_sent :
  form_step_of (F := category_form) net is_email env Submit (tab_of b) = sent.
Proof. rewrite submit_valid; cbn; rewrite ?Hform; [done|]. by apply schema_valid. Qed.

Lemma category_accepted :
  form_step_of (F := category_form) net is_email env (Response 0) sent = accepted.
Proof.
  unfold form_step_of. cbn [form_event]. erewrite arrive_at by done.
  by erewrite arrive_created by (done || exact Hpost).
Qed.

(** Submitted a second time while the first request is in flight, the
    form sends a second request: two requests sent in a row are no
    trace of the machine, so the schedule of [Clicks.double_click] is
    outside the specification, and nothing in the page rules it out. *)
Lemma second_submit_leaves_machine p :
  form_labels (F := category_form) net is_email env [Submit; Submit] (tab_of b) = [Send; Send]
  ∧ ¬ form_trace Idle [Send; Send] p.
Proof.
  split.
  - cbn [form_labels]. rewrite category_sent.
    by rewrite submit_valid by (cbn; rewrite Hform; by apply schema_valid).
  - intros Htr. inversion Htr as [|? ? ? ? ? H1 H2]; subst.
    inversion H1; subst. inversion H2 as [|? ? ? ? ? H3 _]; subst. inversion H3.
Qed.

(** C19: a submission the API accepted can still end with an error: when
    the request for the list fails, the page has shown the success and
    reset the form, the category is behind the API, the list is the old
    one, and the submission settles with the message of the failure. *)
Theorem refresh_failure_persists :
  polite (F := category_form) net is_email env [Submit; Response 0; Response 0] (tab_of b)
  ∧ form_labels (F := category_form) net is_email env [Submit; Response 0; Response 0]
      (tab_of b)
    = [Send; Wait; Settle false]
  ∧ form_run (F := category_form) net is_email env [Submit; Response 0; Response 0]
      (tab_of b)
    = {| browser :=
           {| page := with_toast "error" (JStr (message e))
                        (reset_form (with_toast "success" msg (with_errors [] (page b))));
              network := n2 |};
         tasks := [Ret ()] |}.
Proof.
  pose proof category_sent as H1. pose proof category_accepted as H2.
  assert (form_step_of (F := category_form) net is_email env (Response 0) accepted
          = {| browser :=
                 {| page := with_toast "error" (JStr (message e)) (page (browser accepted));
                    network := n2 |};
               tasks := [Ret ()] |}) as H3.
  { unfold form_step_of. cbn [form_event]. erewrite arrive_at by done.
    by erewrite arrive_failed by exact Hget. }
  unfold form_run. cbn [polite allowed form_labels foldl]. rewrite !H1, !H2, !H3.
  split_and!; try done; try (eexists; by split).
  unfold label_of. cbn. repeat case_decide; try lia.
  erewrite shows_error_app by (cbn; reflexivity). by rewrite bool_decide_true by by left.
Qed.

End category.

(** ** The theorems at concrete forms *)



Lemma refresh_failure_persists_example :
  form_labels (F := category_form)
    (answers_once created_response (TypeError "Failed to fetch")) (λ _, true) []
    [Submit; Response 0; Response 0] (tab_of (fresh_page "Travel" "travel"))
  = [Send; Wait; Settle false]
  ∧ toasts (page (browser
      (form_run (F := category_form)
         (answers_once created_response (TypeError "Failed to fetch")) (λ _, true) []
         [Submit; Response 0; Response 0] (tab_of (fresh_page "Travel" "travel")))))
    = [("success", JStr "Category added successfully.");
       ("error", JStr "Failed to fetch")].
Proof.
  destruct (refresh_failure_persists
              (answers_once created_response (TypeError "Failed to fetch")) (λ _, true) []
              (fresh_page "Travel" "travel") "Travel" "travel" eq_refl
              ltac:(simpl; lia) ltac:(simpl; lia)
              created_response (JObj [("message", JStr "Category added successfully.")])
              (JStr "Category added successfully.") true true (TypeError "Failed to fetch")
              eq_refl eq_refl eq_refl eq_refl eq_refl) as (_ & Hl & Hr).
  split; [exact Hl|]. by rewrite Hr.
Defined.

(** C14: on the login page, whatever the user types and submits, in
    whatever order submissions and responses interleave and whatever
    the network answers, a session that was that of an admin or of
    nobody stays so: the page stores no user the guard of the category
    page would send away. *)
Theorem login_page_admits_admins {N} (net : Network N) is_email env evs (b : Browser N) :
  Forall (login_event is_email env) evs →
  admin_or_nobody (session (page b)) →
  admin_or_nobody (session (page (browser (page_run net evs (tab_of b))))).
Proof.
  intros Hevs Hb.
  apply (page_run_invariant net (@admits) (λ b', admin_or_nobody (session (page b'))));
    try done.
  - intros R ev b'. apply admits_keeps.
  - by eapply login_event_admits.
Qed.

Lemma login_page_admits_admins_example :
  admin_or_nobody (session (page (browser (page_run
    (AdminLogin.answering (Normal (AdminLogin.login_response "admin")))
    [Start (λ p, AdminLogin.submit (λ _, true) [] (form p));
     Start (λ _, form_setValue "password" "other");
     Start (λ p, AdminLogin.submit (λ _, true) [] (form p));
     Arrive 2; Arrive 0]
    (tab_of (AdminLogin.typed_login "asha@example.com" "secret")))))).
Proof.
  apply (login_page_admits_admins _ (λ _, true) []); [repeat constructor|done].
Defined.
