(* ===== verification/Clicks.v ===== *)
(** * Two submissions of the category form in flight

    Nothing in [src/client/src/pages/AdminCategories.jsx] keeps the form
    from being submitted while a submission waits for its response: the
    button is not disabled and [onSubmit] does not look at the state of
    the form.  The specification (section 5) says that a view performs
    one request at a time.

    On the loop of [Pending], a submission that is alone in flight does
    what [perform] says of it ([submit_alone]), so the theorems of
    [AdminCategories] and [System] hold of it.  Whatever happens on the
    page and in whatever order, its callbacks leave the session and the
    location alone ([category_page_keeps_session]).  Submitted twice before
    the first response arrives, the form sends two requests for one
    category: against an API that satisfies [CategoryApi] the first is
    stored and the second refused, and the page shows the success and
    then the error ([double_submit]). *)

From S2P Require Import Prelude JsValue Effects Store Controller Service.
From S2P Require Import Config Client Pending AdminCategories Forms System.

Import AdminCategories.

(** ** Definitions *)

(** The callback of the form: it reads the values when it starts. *)
Definition submit_task (is_email : string → bool) (env : Env) : Page → Client unit :=
  λ p, submit is_email env (form p).

(** The form is submitted twice before the first response arrives; then
    the two responses arrive, and the response to the request for the
    list. *)
Definition double_click (task : Page → Client unit) : list PageEvent :=
  [Start task; Start task; Arrive 0; Arrive 1; Arrive 0].

(** The calls that leave the session and the location alone. *)
Definition stays {R} (ev : ClientE R) : bool :=
  match ev with SetUser _ | Navigate _ => false | _ => true end.

(** What can happen on the category page: the component mounts, the
    user types into a field or submits the form, a response arrives. *)
Inductive category_event (is_email : string → bool) (env : Env) : PageEvent → Prop :=
| mount_event : category_event is_email env (Start (λ _, mount env))
| type_event slugify field value :
    category_event is_email env (Start (λ p, type_in slugify field value (form p)))
| submit_event : category_event is_email env (Start (submit_task is_email env))
| arrive_event i : category_event is_email env (Arrive i).

(** ** Lemmas *)

Section arrivals.
Context {N : Type} (net : Network N) (env : Env).

(** Every callback of the category page awaits two requests at most. *)
Lemma submit_waits is_email (f : Form) (b : Browser N) :
  waits (client_exec net) (@fetched) (submit is_email env f) b ≤ 2.
Proof.
  unfold submit, handleSubmit. destruct (validate _ _ _); [|cbn; lia].
  unfold onSubmit, fetchCategories.
  repeat (cbn; first [ match goal with
                       | |- context [net ?u ?i ?x] => destruct (net u i x) as [[?|?] ?]
                       end
                     | client_case ]); simpl; lia.
Qed.

(** A valid form starts [onSubmit] on its values, which waits for the
    response to its request. *)
Lemma start_submit is_email n sl (t : Tab N) :
  form (page (browser t)) = form_of n sl →
  3 ≤ String.length n → 3 ≤ String.length sl →
  page_step net (Start (submit_task is_email env)) t =
  {| browser := {| page := with_errors [] (page (browser t));
                   network := network (browser t) |};
     tasks := tasks t ++ [onSubmit env (category_values n sl)] |}.
Proof.
  intros Hf Hn Hsl. unfold page_step, submit_task, submit, handleSubmit.
  rewrite Hf. cbn [form_values form_of].
  by rewrite (proj2 (schema_valid is_email n sl)).
Qed.

End arrivals.

(** No callback of the category page touches the session or
    navigates, whatever the network answers. *)
Section stays.
Context (is_email : string → bool) (env : Env).

Lemma fetchCategories_stays : only (@stays) (fetchCategories env).
Proof. unfold fetchCategories. cbn. split; [done|]. intros [r|e]; only_cases. Qed.

Lemma onSubmit_stays values : only (@stays) (onSubmit env values).
Proof.
  pose proof fetchCategories_stays as Hf. unfold fetchCategories in Hf.
  unfold onSubmit. cbn in *. split; [done|]. intros [r|e]; only_cases.
Qed.

Lemma category_event_stays evs :
  Forall (category_event is_email env) evs → starts_only (@stays) evs.
Proof.
  intros Hevs. eapply Forall_impl; [exact Hevs|].
  intros ev [|slugify field value| |i]; [| | |done]; intros p.
  - apply fetchCategories_stays.
  - unfold type_in, slug_effect. cbn. split; [done|]. intros [[]|e]; cbn; [|done].
    destruct (_ && _); [|done]. destruct (truthy (JStr _)); [|done].
    split; [done|]. by intros [|].
  - unfold submit_task, submit, handleSubmit. destruct (validate _ _ _); cbn.
    + split; [done|]. intros [[]|e]; [apply onSubmit_stays|done].
    + split; [done|]. by intros [|].
Qed.

Lemma stays_keeps {N} (net : Network N) (s : Session) (l : string) R (ev : ClientE R) b :
  stays ev = true → session (page b) = s ∧ location (page b) = l →
  session (page (client_exec net R ev b).2) = s
  ∧ location (page (client_exec net R ev b).2) = l.
Proof. destruct ev; try done. simpl. by destruct (net _ _ _). Qed.

End stays.

(** ** Theorems *)

Section alone.
Context {N : Type} (net : Network N) (is_email : string → bool) (env : Env).

(** A submission that is alone in flight does what the sequential
    semantics says: started, and its two responses arrived, the callback
    is at its end, and the browser is the one [perform] gives, whatever
    the network answers. *)
Theorem submit_alone (t : Tab N) :
  ∃ m c,
    page_run net [Start (submit_task is_email env);
                  Arrive (length (tasks t)); Arrive (length (tasks t))] t
    = {| browser := (perform net (submit is_email env (form (page (browser t))))
                       (browser t)).2;
         tasks := tasks t ++ [m] |}
    ∧ result m = Some c
    ∧ (perform net (submit is_email env (form (page (browser t)))) (browser t)).1 = c.
Proof.
  destruct (callback_alone net 2 (submit_task is_email env) t) as (m & Hrun & Hm).
  { apply submit_waits. }
  by exists m, (perform net (submit is_email env (form (page (browser t)))) (browser t)).1.
Qed.

End alone.

(** C31: whatever happens on the category page, in whatever order the
    callbacks and the responses interleave and whatever the network
    answers, the session and the location stay as they were: no callback
    of the page logs anyone in or out, or navigates. *)
Theorem category_page_keeps_session {N} (net : Network N) is_email env evs (b : Browser N) :
  Forall (category_event is_email env) evs →
  session (page (browser (page_run net evs (tab_of b)))) = session (page b)
  ∧ location (page (browser (page_run net evs (tab_of b)))) = location (page b).
Proof.
  intros Hevs.
  apply (page_run_invariant net (@stays)
           (λ b', session (page b') = session (page b)
                  ∧ location (page b') = location (page b))); try done.
  - intros R ev b'. apply stays_keeps.
  - by eapply category_event_stays.
Qed.

Section double_submit.
Context {T : Type} `{!CategoryApi T} (is_email : string → bool) (env : Env).
Context (b : Browser T) (n sl : string).
Context (Hform : form (page b) = form_of n sl).
Context (Hn : 3 ≤ String.length n) (Hsl : 3 ≤ String.length sl).

(** After the second click two requests are in flight. *)
Lemma double_click_in_flight :
  in_flight (page_run (api_net env)
               [Start (submit_task is_email env); Start (submit_task is_email env)]
               (tab_of b)) = 2.
Proof.
  do 2 (rewrite page_run_cons, (start_submit _ _ _ n sl) by (cbn; by rewrite ?Hform)).
  done.
Qed.

(** C18: the form submitted twice before the first response arrives sends
    two requests for one category: the API stores it once and refuses
    the second request, and the page shows the success, resets the form,
    shows [Category slug already exists.] as an error and lists the
    categories, the new one among them. *)
Theorem double_submit :
  sl ∉ slug <$> api_categories (network b) → api_ready (network b) →
  ∃ c n',
    page_run (api_net env) (double_click (submit_task is_email env)) (tab_of b) =
    {| browser :=
         {| page := with_categories (listing n')
                      (with_toast "error" (JStr "Category slug already exists.")
                         (reset_form
                            (with_toast "success" (JStr "Category added successfully.")
                               (with_errors [] (page b)))));
            network := n' |};
       tasks := [Ret (); Ret ()] |}
    ∧ slug c = sl ∧ api_categories n' = api_categories (network b) ++ [c].
Proof.
  intros Hout Hready.
  assert (n ≠ "" ∧ sl ≠ "") as [Hne Hse] by (split; intros ->; simpl in *; lia).
  destruct (api_add_created env (network b) n sl Hne Hse Hout Hready)
    as (c & n' & Hadd & Hcn & Hcs & Hcats).
  assert (sl ∈ slug <$> api_categories n') as Hin.
  { rewrite Hcats, fmap_app, elem_of_app. right. rewrite <- Hcs. by left. }
  exists c, n'. split; [|done]. unfold double_click.
  do 2 (rewrite page_run_cons, (start_submit _ _ _ n sl) by (cbn; by rewrite ?Hform)).
  rewrite page_run_cons. erewrite arrive_at by done. cbn [browser tasks tab_of].
  erewrite arrive_created by (done || exact Hadd).
  rewrite page_run_cons. erewrite arrive_at by done. cbn [browser tasks fst snd].
  erewrite arrive_refused by (done || exact (api_add_conflict env n' n sl Hne Hse Hin)).
  rewrite page_run_cons. erewrite arrive_at by done. cbn [browser tasks fst snd].
  erewrite arrive_list by (done || apply api_list).
  done.
Qed.

End double_submit.

(** ** The theorems at a concrete system *)

Lemma category_page_keeps_session_example :
  session (page (browser (page_run (api_net [])
    [Start (λ _, mount []); Start (submit_task (λ _, true) []);
     Arrive 1; Arrive 0; Arrive 1]
    (tab_of (admin_browser "Travel" "travel" (two_categories false))))))
  = session (page (admin_browser "Travel" "travel" (two_categories false)))
  ∧ location (page (browser (page_run (api_net [])
      [Start (λ _, mount []); Start (submit_task (λ _, true) []);
       Arrive 1; Arrive 0; Arrive 1]
      (tab_of (admin_browser "Travel" "travel" (two_categories false))))))
    = location (page (admin_browser "Travel" "travel" (two_categories false))).
Proof. apply (category_page_keeps_session _ (λ _, true) []). repeat constructor. Defined.

Lemma double_submit_example :
  ∃ (c : Category) (s' : Collection),
    page_run (api_net []) (double_click (submit_task (λ _, true) []))
      (tab_of (admin_browser "Travel" "travel" (two_categories false))) =
    {| browser :=
         {| page := with_categories (listing s')
                      (with_toast "error" (JStr "Category slug already exists.")
                         (reset_form
                            (with_toast "success" (JStr "Category added successfully.")
                               (with_errors []
                                  (page (admin_browser "Travel" "travel"
                                           (two_categories false)))))));
            network := s' |};
       tasks := [Ret (); Ret ()] |}
    ∧ slug c = "travel"
    ∧ api_categories s'
      = api_categories (network (admin_browser "Travel" "travel" (two_categories false)))
        ++ [c].
Proof.
  apply (double_submit (λ _, true) []
           (admin_browser "Travel" "travel" (two_categories false)) "Travel" "travel");
    [done|by_eval..|split; by_eval].
Defined.
